(** * tarhelper: the directory-tree archiver of [tarhelper/tar.go]

    A shallow embedding of [tarhelper/tar.go] (package [tarhelper]) and of
    the parts of Go's standard library it calls ([strings], [unicode/utf8],
    [path/filepath] on a Unix host, [os.FileMode]), followed by the
    properties of the archiver proved on that embedding.

    Go strings are byte sequences: they are modelled as [string], whose
    characters are 8-bit [ascii] values. *)

From Stdlib Require Import ZArith Ascii String List Bool Lia.
From stdpp Require Import base gmap strings list.

Local Open Scope string_scope.
Local Open Scope list_scope.
Local Open Scope Z_scope.

(** ** Errors *)

(** Go [error] values.  [Errorf] keeps the format string and its argument
    apart, [RelError] is the error of [filepath.Rel], [ErrBadPattern] is
    [filepath.ErrBadPattern], and [SysError] stands for an error reported
    by the operating system or by the archive writer. *)
Inductive error : Type :=
| ErrBadPattern
| RelError (targ base : string)
| Errorf (format : string) (arg : option Z)
| SysError (msg : string).

(** ** Package [strings] *)

Module strings.

(** [strings.HasPrefix(s, prefix)] *)
Definition HasPrefix (s prefix : string) : bool := String.prefix prefix s.

(** [strings.Contains(s, substr)]: [substr] occurs at some offset of [s]. *)
Fixpoint Contains (s substr : string) : bool :=
  String.prefix substr s ||
  match s with
  | EmptyString => false
  | String _ s' => Contains s' substr
  end.

(** [strings.Join(elems, sep)] *)
Definition Join (elems : list string) (sep : string) : string :=
  String.concat sep elems.

(** [s[1:]] for a non-empty [s] *)
Definition tail (s : string) : string :=
  match s with
  | EmptyString => EmptyString
  | String _ s' => s'
  end.

(** [s[n:]] *)
Fixpoint drop (n : nat) (s : string) : string :=
  match n, s with
  | O, _ => s
  | S n', String _ s' => drop n' s'
  | S _, EmptyString => EmptyString
  end.

End strings.

(** ** Package [unicode/utf8] *)

Module utf8.

Definition RuneError : Z := 65533.

Definition byte_val (c : ascii) : Z := Z.of_N (N_of_ascii c).

(** continuation byte within [lo, hi] *)
Definition in_range (lo hi : Z) (c : ascii) : bool :=
  (lo <=? byte_val c) && (byte_val c <=? hi).

(** [utf8.DecodeRuneInString]: the first rune of [s] and its width in
    bytes; [(RuneError, 0)] on the empty string and [(RuneError, 1)] on
    an invalid encoding. *)
Definition DecodeRuneInString (s : string) : Z * nat :=
  match s with
  | EmptyString => (RuneError, 0%nat)
  | String c0 s1 =>
    let b0 := byte_val c0 in
    if b0 <? 128 then (b0, 1%nat)
    else if (194 <=? b0) && (b0 <=? 223) then
      match s1 with
      | String c1 _ =>
        if in_range 128 191 c1
        then (Z.lor (Z.shiftl (Z.land b0 31) 6) (Z.land (byte_val c1) 63), 2%nat)
        else (RuneError, 1%nat)
      | _ => (RuneError, 1%nat)
      end
    else if (224 <=? b0) && (b0 <=? 239) then
      let lo := if b0 =? 224 then 160 else 128 in
      let hi := if b0 =? 237 then 159 else 191 in
      match s1 with
      | String c1 (String c2 _) =>
        if in_range lo hi c1 && in_range 128 191 c2
        then (Z.lor (Z.shiftl (Z.land b0 15) 12)
                (Z.lor (Z.shiftl (Z.land (byte_val c1) 63) 6)
                       (Z.land (byte_val c2) 63)), 3%nat)
        else (RuneError, 1%nat)
      | _ => (RuneError, 1%nat)
      end
    else if (240 <=? b0) && (b0 <=? 244) then
      let lo := if b0 =? 240 then 144 else 128 in
      let hi := if b0 =? 244 then 143 else 191 in
      match s1 with
      | String c1 (String c2 (String c3 _)) =>
        if in_range lo hi c1 && in_range 128 191 c2 && in_range 128 191 c3
        then (Z.lor (Z.shiftl (Z.land b0 7) 18)
                (Z.lor (Z.shiftl (Z.land (byte_val c1) 63) 12)
                   (Z.lor (Z.shiftl (Z.land (byte_val c2) 63) 6)
                          (Z.land (byte_val c3) 63))), 4%nat)
        else (RuneError, 1%nat)
      | _ => (RuneError, 1%nat)
      end
    else (RuneError, 1%nat)
  end.

End utf8.

(** ** Package [path/filepath] (Unix: the separator is [/], no volume names) *)

Module filepath.

Definition Separator : ascii := "/"%char.
Definition SeparatorString : string := "/".

Definition IsPathSeparator (c : ascii) : bool := Ascii.eqb c Separator.

(** [filepath.IsAbs]: the path starts with a separator. *)
Definition IsAbs (path : string) : bool := strings.HasPrefix path "/".

(** The elements of a path: the text between separators, empty elements
    included, so that [strings.Join (elements p) "/" = p]. *)
Fixpoint elements (path : string) : list string :=
  match path with
  | EmptyString => [EmptyString]
  | String c rest =>
    if IsPathSeparator c then EmptyString :: elements rest
    else match elements rest with
         | w :: ws => String c w :: ws
         | [] => [String c EmptyString]
         end
  end.

(** One element read by [Clean]; [out] is the cleaned path so far, last
    element first.  An empty element and [.] are dropped; [..] removes
    the last real element, is kept in front of a path that is not rooted
    and is dropped at the root; any other element is appended. *)
Definition clean_step (rooted : bool) (out : list string) (e : string)
  : list string :=
  if String.eqb e "" || String.eqb e "." then out
  else if String.eqb e ".." then
    match out with
    | top :: below => if String.eqb top ".." then e :: out else below
    | [] => if rooted then [] else [e]
    end
  else e :: out.

(** [filepath.Clean] *)
Definition Clean (path : string) : string :=
  if String.eqb path "" then "."
  else
    let rooted := IsAbs path in
    let out := fold_left (clean_step rooted) (elements path) [] in
    let body := strings.Join (rev out) "/" in
    if rooted then "/" +:+ body
    else if String.eqb body "" then "." else body.

(** [filepath.Join]: the elements from the first non-empty one on are
    joined with the separator and the result is cleaned; the empty
    string when all are empty. *)
Fixpoint Join (elem : list string) : string :=
  match elem with
  | [] => ""
  | e :: rest =>
    if String.eqb e "" then Join rest
    else Clean (strings.Join elem "/")
  end.

(** [path[:i+1]] for the index [i] of the last separator of [path]; the
    empty string when there is none. *)
Fixpoint through_last_separator (path : string) : string :=
  match path with
  | EmptyString => EmptyString
  | String c rest =>
    if strings.Contains rest "/" then String c (through_last_separator rest)
    else if IsPathSeparator c then "/" else EmptyString
  end.

(** [filepath.Dir] *)
Definition Dir (path : string) : string :=
  Clean (through_last_separator path).

(** [path] without its trailing separators *)
Fixpoint strip_trailing_separators (path : string) : string :=
  match path with
  | EmptyString => EmptyString
  | String c rest =>
    let rest' := strip_trailing_separators rest in
    if String.eqb rest' "" && IsPathSeparator c then EmptyString
    else String c rest'
  end.

(** [filepath.Base] *)
Definition Base (path : string) : string :=
  if String.eqb path "" then "."
  else
    let path := strip_trailing_separators path in
    let path := List.last (elements path) "" in
    if String.eqb path "" then "/" else path.

(** [filepath.Abs].  [getwd] is the result of [os.Getwd]. *)
Definition Abs (getwd : error + string) (path : string) : error + string :=
  if IsAbs path then inr (Clean path)
  else match getwd with
       | inl e => inl e
       | inr wd => inr (Join [wd; path])
       end.

(** The words [Rel] walks through in a cleaned path: [/]-terminated runs
    of bytes ([""] has none, [/] has the empty word only). *)
Definition rel_words (p : string) : list string :=
  if String.eqb p "" then []
  else if String.eqb p "/" then [""]
  else elements p.

(** The loop of [Rel]: drop the leading words the two paths share.  The
    boolean tells whether the loop stopped at two differing words
    ([break]) rather than at the end of one of the paths. *)
Fixpoint rel_skip (bs ts : list string) : bool * list string * list string :=
  match bs, ts with
  | b :: bs', t :: ts' =>
    if String.eqb b t then rel_skip bs' ts' else (true, bs, ts)
  | _, _ => (false, bs, ts)
  end.

(** [filepath.Rel] *)
Definition Rel (basepath targpath : string) : error + string :=
  let base := Clean basepath in
  let targ := Clean targpath in
  if String.eqb targ base then inr "."
  else
    let base := if String.eqb base "." then "" else base in
    if negb (Bool.eqb (IsAbs base) (IsAbs targ)) then inl (RelError targ base)
    else
      let '(differ, bs, ts) := rel_skip (rel_words base) (rel_words targ) in
      if differ && String.eqb (List.hd "" bs) ".." then inl (RelError targ base)
      else
        match bs with
        | [] => inr (strings.Join ts "/")
        | _ :: _ =>
          let up := strings.Join (List.map (fun _ => "..") bs) "/" in
          match ts with
          | [] => inr up
          | _ :: _ => inr (up +:+ "/" +:+ strings.Join ts "/")
          end
        end.

(** *** [filepath.Match] *)

Definition first_is (c : ascii) (s : string) : bool :=
  match s with
  | String c' _ => Ascii.eqb c' c
  | EmptyString => false
  end.

(** [pattern] without its leading stars, and whether it had any *)
Fixpoint skip_stars (pattern : string) : bool * string :=
  match pattern with
  | String c rest =>
    if Ascii.eqb c "*" then (true, snd (skip_stars rest)) else (false, pattern)
  | EmptyString => (false, pattern)
  end.

(** The [Scan] loop of [scanChunk]: [pattern[0:i]] and [pattern[i:]] for
    the index [i] of the first star outside a character class; a
    backslash takes the byte after it along. *)
Fixpoint scan (inrange : bool) (pattern : string) : string * string :=
  match pattern with
  | EmptyString => (EmptyString, EmptyString)
  | String c rest =>
    if Ascii.eqb c "\" then
      match rest with
      | String d rest' =>
        let '(chunk, r) := scan inrange rest' in (String c (String d chunk), r)
      | EmptyString => (String c EmptyString, EmptyString)
      end
    else if Ascii.eqb c "[" then
      let '(chunk, r) := scan true rest in (String c chunk, r)
    else if Ascii.eqb c "]" then
      let '(chunk, r) := scan false rest in (String c chunk, r)
    else if Ascii.eqb c "*" then
      if inrange then let '(chunk, r) := scan inrange rest in (String c chunk, r)
      else (EmptyString, pattern)
    else
      let '(chunk, r) := scan inrange rest in (String c chunk, r)
  end.

(** [scanChunk]: the leading stars, the chunk after them up to the next
    star, and the rest of the pattern. *)
Definition scanChunk (pattern : string) : bool * string * string :=
  let '(star, pattern) := skip_stars pattern in
  let '(chunk, rest) := scan false pattern in
  (star, chunk, rest).

(** [getEsc]: one possibly escaped rune of a character class. *)
Definition getEsc (chunk : string) : Z * string * option error :=
  if String.eqb chunk "" || first_is "-" chunk || first_is "]" chunk
  then (0, "", Some ErrBadPattern)
  else
    let escaped := first_is "\" chunk in
    let chunk := if escaped then strings.tail chunk else chunk in
    if escaped && String.eqb chunk "" then (0, "", Some ErrBadPattern)
    else
      let '(r, n) := utf8.DecodeRuneInString chunk in
      let err := if (r =? utf8.RuneError) && Nat.eqb n 1
                 then Some ErrBadPattern else None in
      let nchunk := strings.drop n chunk in
      let err := if String.eqb nchunk "" then Some ErrBadPattern else err in
      (r, nchunk, err).

(** The loop of [matchChunk] that reads the ranges of a character class:
    [inl err] when the class is malformed, otherwise whether the rune [r]
    is in one of the ranges and the chunk after the closing bracket.
    Each turn consumes a byte of the chunk; [fuel] bounds the turns. *)
Fixpoint ranges (fuel : nat) (chunk : string) (r : Z) (matched : bool)
         (nrange : nat) : option (error + bool * string) :=
  match fuel with
  | O => None
  | S fuel =>
    if first_is "]" chunk && Nat.ltb 0 nrange
    then Some (inr (matched, strings.tail chunk))
    else
      let '(lo, chunk, err) := getEsc chunk in
      match err with
      | Some e => Some (inl e)
      | None =>
        let '(hi, chunk, err) :=
          if first_is "-" chunk then getEsc (strings.tail chunk)
          else (lo, chunk, None) in
        match err with
        | Some e => Some (inl e)
        | None =>
          let matched := if (lo <=? r) && (r <=? hi) then true else matched in
          ranges fuel chunk r matched (S nrange)
        end
      end
  end.

(** The loop of [matchChunk]; the result is Go's [(rest, ok, err)]. *)
Fixpoint matchChunk_loop (fuel : nat) (chunk s : string)
  : option (string * bool * option error) :=
  match fuel with
  | O => None
  | S fuel =>
    match chunk with
    | EmptyString => Some (s, true, None)
    | String c chunk1 =>
      match s with
      | EmptyString => Some ("", false, None)
      | String s0 s1 =>
        if Ascii.eqb c "[" then
          let '(r, n) := utf8.DecodeRuneInString s in
          let s := strings.drop n s in
          if String.eqb chunk1 "" then Some ("", false, Some ErrBadPattern)
          else
            let negated := first_is "^" chunk1 in
            let chunk2 := if negated then strings.tail chunk1 else chunk1 in
            match ranges (S (String.length chunk2)) chunk2 r false 0 with
            | None => None
            | Some (inl e) => Some ("", false, Some e)
            | Some (inr (matched, chunk3)) =>
              if Bool.eqb matched negated then Some ("", false, None)
              else matchChunk_loop fuel chunk3 s
            end
        else if Ascii.eqb c "?" then
          if IsPathSeparator s0 then Some ("", false, None)
          else
            let '(_, n) := utf8.DecodeRuneInString s in
            matchChunk_loop fuel chunk1 (strings.drop n s)
        else if Ascii.eqb c "\" then
          match chunk1 with
          | EmptyString => Some ("", false, Some ErrBadPattern)
          | String c' chunk2 =>
            if negb (Ascii.eqb c' s0) then Some ("", false, None)
            else matchChunk_loop fuel chunk2 s1
          end
        else
          if negb (Ascii.eqb c s0) then Some ("", false, None)
          else matchChunk_loop fuel chunk1 s1
      end
    end
  end.

(** [matchChunk(chunk, s)] *)
Definition matchChunk (chunk s : string) : string * bool * option error :=
  match matchChunk_loop (S (String.length chunk)) chunk s with
  | Some res => res
  | None => ("", false, None)
  end.

(** Outcome of the loop of [Match] that retries a chunk after a star. *)
Inductive star_result : Type :=
| StarMatched (t : string)
| StarError (e : error)
| StarFailed.

(** [for i := 0; i < len(name) && name[i] != Separator; i++]: look for a
    match of [chunk] in [name[i+1:]]; [last] says that [chunk] is the
    last one of the pattern, which must then match up to the end. *)
Fixpoint star_loop (chunk : string) (last : bool) (name : string)
  : star_result :=
  match name with
  | EmptyString => StarFailed
  | String c name' =>
    if IsPathSeparator c then StarFailed
    else
      let '(t, ok, err) := matchChunk chunk name' in
      if ok then
        if last && negb (String.eqb t "") then star_loop chunk last name'
        else StarMatched t
      else
        match err with
        | Some e => StarError e
        | None => star_loop chunk last name'
        end
  end.

(** The [Pattern] loop of [Match]. *)
Fixpoint Match_loop (fuel : nat) (pattern name : string)
  : option (bool * option error) :=
  match fuel with
  | O => None
  | S fuel =>
    if String.eqb pattern "" then Some (String.eqb name "", None)
    else
      let '(star, chunk, pattern) := scanChunk pattern in
      if star && String.eqb chunk "" then
        Some (negb (strings.Contains name "/"), None)
      else
        let '(t, ok, err) := matchChunk chunk name in
        if ok && (String.eqb t "" || negb (String.eqb pattern "")) then
          Match_loop fuel pattern t
        else
          match err with
          | Some e => Some (false, Some e)
          | None =>
            if star then
              match star_loop chunk (String.eqb pattern "") name with
              | StarMatched t => Match_loop fuel pattern t
              | StarError e => Some (false, Some e)
              | StarFailed => Some (false, None)
              end
            else Some (false, None)
          end
  end.

(** [filepath.Match(pattern, name)]: Go's [(matched, err)]. *)
Definition Match (pattern name : string) : bool * option error :=
  match Match_loop (S (String.length pattern)) pattern name with
  | Some res => res
  | None => (false, None)
  end.

End filepath.

(** ** Package [os]: file modes and file metadata *)

Module syscall.

(** The fields of [syscall.Stat_t] the archiver reads.  [Ino], [Nlink] and
    [Rdev] are [uint64], [Uid] and [Gid] are [uint32]. *)
Record Stat_t : Type := mkStat {
  Ino : Z;
  Nlink : Z;
  Uid : Z;
  Gid : Z;
  Rdev : Z
}.

End syscall.

Module os.

(** The bits of [os.FileMode], a [uint32]. *)
Definition ModeDir : Z := Z.shiftl 1 31.
Definition ModeSymlink : Z := Z.shiftl 1 27.
Definition ModeDevice : Z := Z.shiftl 1 26.
Definition ModeNamedPipe : Z := Z.shiftl 1 25.
Definition ModeSocket : Z := Z.shiftl 1 24.
Definition ModeSetuid : Z := Z.shiftl 1 23.
Definition ModeSetgid : Z := Z.shiftl 1 22.
Definition ModeCharDevice : Z := Z.shiftl 1 21.
Definition ModeSticky : Z := Z.shiftl 1 20.
Definition ModeIrregular : Z := Z.shiftl 1 19.

Definition ModeType : Z :=
  Z.lor ModeDir (Z.lor ModeSymlink (Z.lor ModeNamedPipe (Z.lor ModeSocket
    (Z.lor ModeDevice (Z.lor ModeCharDevice ModeIrregular))))).

Definition ModePerm : Z := 511.

(** An [os.FileInfo] value.  [Sys] is [Some] when the underlying data
    source is a [*syscall.Stat_t], which is what the type assertions of
    the archiver ask for. *)
Record FileInfo : Type := mkFileInfo {
  Name : string;
  Size : Z;
  Mode : Z;
  ModTime : Z;
  Sys : option syscall.Stat_t
}.

(** [fi.IsDir()] *)
Definition IsDir (fi : FileInfo) : bool :=
  negb (Z.land (Mode fi) ModeDir =? 0).

End os.

(** ** Package [tar]: entry headers *)

Module tar.

(** The fields of [tar.Header] that [FileInfoHeader] and the archiver set. *)
Record Header : Type := mkHeader {
  Name : string;
  Mode : Z;
  Uid : Z;
  Gid : Z;
  Size : Z;
  ModTime : Z;
  Typeflag : Z;
  Linkname : string;
  Devmajor : Z;
  Devminor : Z
}.

Definition with_Name (h : Header) (v : string) : Header :=
  mkHeader v (Mode h) (Uid h) (Gid h) (Size h) (ModTime h) (Typeflag h)
           (Linkname h) (Devmajor h) (Devminor h).
Definition with_Mode (h : Header) (v : Z) : Header :=
  mkHeader (Name h) v (Uid h) (Gid h) (Size h) (ModTime h) (Typeflag h)
           (Linkname h) (Devmajor h) (Devminor h).
Definition with_Uid (h : Header) (v : Z) : Header :=
  mkHeader (Name h) (Mode h) v (Gid h) (Size h) (ModTime h) (Typeflag h)
           (Linkname h) (Devmajor h) (Devminor h).
Definition with_Gid (h : Header) (v : Z) : Header :=
  mkHeader (Name h) (Mode h) (Uid h) v (Size h) (ModTime h) (Typeflag h)
           (Linkname h) (Devmajor h) (Devminor h).
Definition with_Size (h : Header) (v : Z) : Header :=
  mkHeader (Name h) (Mode h) (Uid h) (Gid h) v (ModTime h) (Typeflag h)
           (Linkname h) (Devmajor h) (Devminor h).
Definition with_Typeflag (h : Header) (v : Z) : Header :=
  mkHeader (Name h) (Mode h) (Uid h) (Gid h) (Size h) (ModTime h) v
           (Linkname h) (Devmajor h) (Devminor h).
Definition with_Linkname (h : Header) (v : string) : Header :=
  mkHeader (Name h) (Mode h) (Uid h) (Gid h) (Size h) (ModTime h) (Typeflag h)
           v (Devmajor h) (Devminor h).
Definition with_Devmajor (h : Header) (v : Z) : Header :=
  mkHeader (Name h) (Mode h) (Uid h) (Gid h) (Size h) (ModTime h) (Typeflag h)
           (Linkname h) v (Devminor h).
Definition with_Devminor (h : Header) (v : Z) : Header :=
  mkHeader (Name h) (Mode h) (Uid h) (Gid h) (Size h) (ModTime h) (Typeflag h)
           (Linkname h) (Devmajor h) v.

End tar.

(** ** Declarations [tar.go] uses and does not contain

    [tar.go] refers to names declared in other files of the repository:
    the [Compression] constants, [majordev] and [minordev], and, from the
    vendored [tarhelper/tar] package, [FileInfoHeader] and the type flags
    [TypeReg] and [TypeLink].  The archiver is embedded over any such
    declarations; what a property needs of them is stated as a hypothesis
    of that property. *)
Class Decls : Type := {
  NONE : Z;
  GZIP : Z;
  BZIP2 : Z;
  DETECT : Z;
  majordev : Z -> Z;
  minordev : Z -> Z;
  TypeReg : Z;
  TypeLink : Z;
  FileInfoHeader : os.FileInfo -> string -> error + tar.Header
}.

(** The four [case] constants of the [switch] of [Archive] are pairwise
    distinct: Go rejects a switch with duplicate constant cases. *)
Definition distinct_compressions `{Decls} : Prop :=
  List.NoDup [NONE; GZIP; BZIP2; DETECT].

(** ** The archiver's state *)

(** What the [*tar.Writer] of [t.archive] writes to: [t.dest] itself or
    the [gzip.Writer] wrapped around it. *)
Inductive writer : Type := OnDest | OnGzip.

(** [type Tar struct].  [dest] is the sink all events of a run go to; it
    has no field of its own here. *)
Record Tar : Type := mkTar {
  target : string;
  archive : option writer;
  Compression : Z;
  IncludePermissions : bool;
  IncludeOwners : bool;
  ExcludedPaths : list string;
  VirtualPath : string;
  hardLinks : gmap Z string
}.

(** Mode constants from the tar spec. *)
Definition c_ISUID : Z := 2048.
Definition c_ISGID : Z := 1024.
Definition c_ISDIR : Z := 16384.
Definition c_ISFIFO : Z := 4096.
Definition c_ISREG : Z := 32768.
Definition c_ISLNK : Z := 40960.
Definition c_ISBLK : Z := 24576.
Definition c_ISCHR : Z := 8192.
Definition c_ISSOCK : Z := 49152.

(** [NewTar]: a [Tar] ready to write the contents of [targetDir]. *)
Definition NewTar (targetDir : string) : Tar :=
  {| target := targetDir;
     archive := None;
     Compression := 0;
     IncludePermissions := true;
     IncludeOwners := false;
     ExcludedPaths := [];
     VirtualPath := "";
     hardLinks := ∅ |}.

(** [ExcludePath] *)
Definition ExcludePath (t : Tar) (name : string) : Tar :=
  let name :=
    if strings.HasPrefix name filepath.SeparatorString
    then strings.tail name else name in
  {| target := target t;
     archive := archive t;
     Compression := Compression t;
     IncludePermissions := IncludePermissions t;
     IncludeOwners := IncludeOwners t;
     ExcludedPaths := ExcludedPaths t ++ [name];
     VirtualPath := VirtualPath t;
     hardLinks := hardLinks t |}.

(** [shouldBeExcluded]: the loop over [t.ExcludedPaths].  The error of
    [filepath.Match] is dropped ([match, _ := ...]).  The [Log.Infof]
    calls, which only report the excluded name, are left out. *)
Fixpoint shouldBeExcluded_loop (excludes : list string) (name : string) : bool :=
  match excludes with
  | [] => false
  | exclude :: rest =>
    if fst (filepath.Match exclude name) then true
    else if fst (filepath.Match exclude (filepath.Base name)) then true
    else shouldBeExcluded_loop rest name
  end.

Definition shouldBeExcluded (t : Tar) (name : string) : bool :=
  shouldBeExcluded_loop (ExcludedPaths t) name.

(** ** The filesystem and the sink, as the run sees them

    A run reads the directory tree below [t.target] and writes to the
    archive.  Both are outside the program: every filesystem object
    carries, next to the [os.FileInfo] the directory listing gave for it,
    the outcome of each call the archiver can make on it. *)
Record object : Type := mkObject {
  info : os.FileInfo;               (* from the listing, or [os.Stat] for the root *)
  readDir : option error;           (* error of [ioutil.ReadDir] *)
  readlink : error + string;        (* [os.Readlink] *)
  open : option error;              (* error of [os.Open] *)
  copy : string * option error;     (* [io.Copy]: bytes that reached the archive, error *)
  stat : error + os.FileInfo;       (* [os.Stat] of the device branch *)
  writeHeader : option error;       (* error of [t.archive.WriteHeader] *)
  flush : option error              (* error of [t.archive.Flush] *)
}.

(** An object and, for a directory, what [ioutil.ReadDir] lists in it, in
    the order of the listing. *)
#[warnings="-register-all"]
Inductive fsnode : Type :=
| Node (o : object) (files : list fsnode).

Definition node_object (n : fsnode) : object :=
  match n with Node o _ => o end.

Definition node_files (n : fsnode) : list fsnode :=
  match n with Node _ files => files end.

(** [root]: the outcome of [os.Stat(t.target)] with the tree below the
    target; [getwd]: the outcome of [os.Getwd]. *)
Record filesystem : Type := mkFilesystem {
  root : error + fsnode;
  getwd : error + string
}.

(** The calls of a run on the filesystem, on the archive writer and on the
    compressor, in the order they are made.  [EvWriteHeader] also records
    the relative path of the object the header was built for and the
    object itself; they are not arguments of the call. *)
Inductive event : Type :=
| EvReadDir (dirname : string)
| EvReadlink (name : string)
| EvStat (name : string)
| EvOpen (name : string)
| EvCloseFile (name : string)
| EvWriteHeader (fullName : string) (o : object) (hdr : tar.Header)
| EvCopy (data : string)
| EvFlush
| EvTarNewWriter (w : writer)
| EvGzipNewWriter
| EvTarClose
| EvGzipClose.

(** The calls [Archive] defers. *)
Inductive deferred_call : Type :=
| DeferCloseArchive      (* [func() { if t.archive != nil { ... } }()] *)
| DeferGzipClose.        (* [dest.Close()] *)

(** The state a run works on: the [Tar] behind the pointer [t], the calls
    made so far, and the calls deferred by the running [Archive], in the
    order of their [defer] statements. *)
Record world : Type := mkWorld {
  tar_of : Tar;
  trace : list event;
  deferred : list deferred_call
}.

(** How a call ends: it returns, or it panics. *)
Inductive result (A : Type) : Type :=
| Return (a : A)
| Panic.
Arguments Return {A} a.
Arguments Panic {A}.

Definition M (A : Type) : Type := world -> result A * world.

Definition ret {A} (a : A) : M A := fun w => (Return a, w).

Definition panic {A} : M A := fun w => (Panic, w).

Definition bind {A B} (m : M A) (k : A -> M B) : M B :=
  fun w =>
    match m w with
    | (Return a, w') => k a w'
    | (Panic, w') => (Panic, w')
    end.

Notation "x <- m ;; k" := (bind m (fun x => k))
  (at level 100, m at next level, right associativity).
Notation "m ;;; k" := (bind m (fun _ => k))
  (at level 100, right associativity).

Definition get_tar : M Tar := fun w => (Return (tar_of w), w).

Definition emit (e : event) : M unit :=
  fun w => (Return tt, mkWorld (tar_of w) (trace w ++ [e]) (deferred w)).

Definition defer (d : deferred_call) : M unit :=
  fun w => (Return tt, mkWorld (tar_of w) (trace w) (deferred w ++ [d])).

Definition set_archive (a : option writer) : M unit :=
  fun w =>
    let t := tar_of w in
    (Return tt,
     mkWorld (mkTar (target t) a (Compression t) (IncludePermissions t)
                    (IncludeOwners t) (ExcludedPaths t) (VirtualPath t)
                    (hardLinks t))
             (trace w) (deferred w)).

(** [t.hardLinks[ino] = name] *)
Definition set_hardLink (ino : Z) (name : string) : M unit :=
  fun w =>
    let t := tar_of w in
    (Return tt,
     mkWorld (mkTar (target t) (archive t) (Compression t) (IncludePermissions t)
                    (IncludeOwners t) (ExcludedPaths t) (VirtualPath t)
                    (<[ino := name]> (hardLinks t)))
             (trace w) (deferred w)).

(** A method call on [t.archive]: a nil [*tar.Writer] panics at its first
    field access. *)
Definition on_archive {A} (m : M A) : M A :=
  t <- get_tar ;;
  match archive t with
  | None => panic
  | Some _ => m
  end.

Definition archive_WriteHeader (o : object) (fullName : string) (hdr : tar.Header)
  : M (option error) :=
  on_archive (emit (EvWriteHeader fullName o hdr) ;;; ret (writeHeader o)).

Definition archive_Flush (o : object) : M (option error) :=
  on_archive (emit EvFlush ;;; ret (flush o)).

(** [io.Copy(t.archive, data)] *)
Definition io_Copy (o : object) : M (option error) :=
  on_archive (emit (EvCopy (fst (copy o))) ;;; ret (snd (copy o))).

Definition ioutil_ReadDir (o : object) (dirname : string) : M (option error) :=
  emit (EvReadDir dirname) ;;; ret (readDir o).

Definition os_Readlink (o : object) (name : string) : M (error + string) :=
  emit (EvReadlink name) ;;; ret (readlink o).

Definition os_Stat (o : object) (name : string) : M (error + os.FileInfo) :=
  emit (EvStat name) ;;; ret (stat o).

Definition os_Open (o : object) (name : string) : M (option error) :=
  emit (EvOpen name) ;;; ret (open o).

Definition data_Close (name : string) : M unit := emit (EvCloseFile name).

(** [int64(x)] for a [uint64] [x] *)
Definition int64_of_uint64 (x : Z) : Z :=
  if x <? 2 ^ 63 then x else x - 2 ^ 64.

(** ** The archiver *)

Section Archiver.

Context `{D : Decls}.

(** The filesystem of the run. *)
Variable fs : filesystem.

(** [cleanLinkName(targetDir, name)]; [o] is the symlink at [name]. *)
Definition cleanLinkName (o : object) (targetDir name : string)
  : M (error + string) :=
  let dir := filepath.Dir name in
  (* read the link *)
  r <- os_Readlink o (filepath.Join [targetDir; name]) ;;
  match r with
  | inl err => ret (inl err)
  | inr link =>
    (* if the target isn't absolute, make it absolute *)
    let r :=
      if negb (filepath.IsAbs link)
      then filepath.Abs (getwd fs) (filepath.Join [targetDir; dir; link])
      else inr link in
    match r with
    | inl err => ret (inl err)
    | inr link =>
      (* do a quick clean pass *)
      let link := filepath.Clean link in
      if strings.Contains link targetDir then
        (* remove the targetdir to ensure the link is relative *)
        match filepath.Rel (filepath.Join [targetDir; dir]) link with
        | inl err => ret (inl err)
        | inr link => ret (inr link)
        end
      else ret (inr link)
    end
  end.

(** The [for _, f := range files] loop of [processDirectory]. *)
Definition range_files (processEntry : string -> fsnode -> M (option error))
           (dir : string) : list fsnode -> M (option error) :=
  fix loop (files : list fsnode) : M (option error) :=
    match files with
    | [] => ret None
    | f :: rest =>
      let fullName := filepath.Join [dir; os.Name (info (node_object f))] in
      err <- processEntry fullName f ;;
      match err with
      | Some e => ret (Some e)
      | None => loop rest
      end
    end.

(** [processDirectory(dir)]; [o] is the directory at [dir] and [files] its
    listing. *)
Definition processDirectory_with
           (processEntry : string -> fsnode -> M (option error))
           (dir : string) (o : object) (files : list fsnode)
  : M (option error) :=
  t <- get_tar ;;
  (* get directory entries *)
  err <- ioutil_ReadDir o (filepath.Join [target t; dir]) ;;
  match err with
  | Some e => ret (Some e)
  | None => range_files processEntry dir files
  end.

(** The regular-file branch of [processEntry], after the mode is set. *)
Definition processRegular (fullName : string) (o : object)
           (stat : syscall.Stat_t) (header : tar.Header) : M (option error) :=
  (* check to see if this is a hard link *)
  header <-
    (if 1 <? syscall.Nlink stat then
       t <- get_tar ;;
       match hardLinks t !! syscall.Ino stat with
       | Some dst =>
         (* update the header if it is *)
         ret (tar.with_Size
                (tar.with_Linkname (tar.with_Typeflag header TypeLink) dst) 0)
       | None =>
         (* push it on the list, and continue to write it as a file *)
         set_hardLink (syscall.Ino stat) (tar.Name header) ;;; ret header
       end
     else ret header) ;;
  (* write the header *)
  err <- archive_WriteHeader o fullName header ;;
  match err with
  | Some e => ret (Some e)
  | None =>
    (* only write the file if the type is still a regular file *)
    if tar.Typeflag header =? TypeReg then
      t <- get_tar ;;
      let name := filepath.Join [target t; fullName] in
      (* open the file and copy *)
      err <- os_Open o name ;;
      match err with
      | Some e => ret (Some e)
      | None =>
        err <- io_Copy o ;;
        match err with
        | Some e => data_Close name ;;; ret (Some e)
        | None =>
          (* important to flush before the file is closed *)
          err <- archive_Flush o ;;
          match err with
          | Some e => data_Close name ;;; ret (Some e)
          | None => data_Close name ;;; ret None
          end
        end
      end
    else ret None
  end.

(** The device branch of [processEntry].  [os.Stat] gives a nil
    [FileInfo] with its error, and [fi.Sys()] on it panics. *)
Definition processDevice (fullName : string) (o : object)
           (header : tar.Header) : M (option error) :=
  t <- get_tar ;;
  (* stat to get devmode *)
  r <- os_Stat o (filepath.Join [target t; fullName]) ;;
  match r with
  | inl _ => panic
  | inr fi =>
    let header :=
      match os.Sys fi with
      | Some sys =>
        tar.with_Devminor
          (tar.with_Devmajor header
             (majordev (int64_of_uint64 (syscall.Rdev sys))))
          (minordev (int64_of_uint64 (syscall.Rdev sys)))
      | None => header
      end in
    (* write the header *)
    err <- archive_WriteHeader o fullName header ;;
    match err with
    | Some e => ret (Some e)
    | None => ret None
    end
  end.

(** [header.Name] as [processEntry] sets it before the [switch]. *)
Definition entryName (t : Tar) (fullName : string) : string :=
  let name := "./" +:+ fullName in
  (* handle VirtualPath *)
  if negb (String.eqb (VirtualPath t) "")
  then filepath.Clean (filepath.Join ["."; VirtualPath t; name])
  else name.

(** [processEntry(fullName, f)]; the node holds [f] as its [info]. *)
Fixpoint processEntry (fullName : string) (n : fsnode) {struct n}
  : M (option error) :=
  match n with
  | Node o files =>
    let f := info o in
    t <- get_tar ;;
    (* Exclude any files or paths specified by the user. *)
    if shouldBeExcluded t fullName then ret None
    else
      (* set base header parameters *)
      match FileInfoHeader f "" with
      | inl err => ret (Some err)
      | inr header =>
        let header := tar.with_Name header (entryName t fullName) in
        (* copy uid/gid if Permissions enabled *)
        match os.Sys f with
        | None => panic
        | Some stat =>
          let header :=
            if IncludeOwners t
            then tar.with_Gid (tar.with_Uid header (syscall.Uid stat))
                              (syscall.Gid stat)
            else tar.with_Gid (tar.with_Uid header 500) 500 in
          let mode := os.Mode f in
          if os.IsDir f then
            (* if Permissions is not enabled, force mode back to 0755 *)
            let header :=
              if negb (IncludePermissions t) then tar.with_Mode header 493
              else header in
            (* tarballs often append with a slash *)
            let header := tar.with_Name header (tar.Name header +:+ "/") in
            (* write the header *)
            err <- archive_WriteHeader o fullName header ;;
            match err with
            | Some e => ret (Some e)
            | None =>
              (* process the directory's entries next *)
              processDirectory_with processEntry fullName o files
            end
          else if Z.land mode os.ModeSymlink =? os.ModeSymlink then
            let header :=
              if negb (IncludePermissions t) then tar.with_Mode header 493
              else header in
            (* read and process the link *)
            r <- cleanLinkName o (target t) fullName ;;
            match r with
            | inl err => ret (Some err)
            | inr link =>
              let header := tar.with_Linkname header link in
              err <- archive_WriteHeader o fullName header ;;
              match err with
              | Some e => ret (Some e)
              | None => ret None
              end
            end
          else if Z.land mode os.ModeType =? 0 then
            (* if Permissions is not enabled, force mode back to 0644 *)
            let header :=
              if negb (IncludePermissions t) then tar.with_Mode header 420
              else header in
            processRegular fullName o stat header
          else if (Z.land mode os.ModeDevice =? os.ModeDevice)
                  || (Z.land mode os.ModeCharDevice =? os.ModeCharDevice) then
            processDevice fullName o header
          else if Z.land mode os.ModeSocket =? os.ModeSocket then
            (* skip... gnutar does, so we will *)
            ret None
          else ret None
        end
      end
  end.

(** [processDirectory(dir)] *)
Definition processDirectory (dir : string) (n : fsnode) : M (option error) :=
  processDirectory_with processEntry dir (node_object n) (node_files n).

(** One deferred call of [Archive]. *)
Definition run_deferred (d : deferred_call) : M unit :=
  match d with
  | DeferCloseArchive =>
    t <- get_tar ;;
    match archive t with
    | Some _ => emit EvTarClose ;;; set_archive None
    | None => ret tt
    end
  | DeferGzipClose => emit EvGzipClose
  end.

(** The deferred calls [ds], given in the order in which they run. *)
Fixpoint run_all_deferred (ds : list deferred_call) (w : world) : world :=
  match ds with
  | [] => w
  | d :: rest => run_all_deferred rest (snd (run_deferred d w))
  end.

(** The part of [Archive] after the [switch]. *)
Definition Archive_walk : M (option error) :=
  (* ensure we write the current directory *)
  match root fs with
  | inl err => ret (Some err)
  | inr n =>
    (* walk the directory tree *)
    err <- processEntry "." n ;;
    match err with
    | Some e => ret (Some e)
    | None => ret None
    end
  end.

(** The body of [Archive]: its statements, the deferred calls being
    recorded and not run. *)
Definition Archive_body : M (option error) :=
  defer DeferCloseArchive ;;;
  t <- get_tar ;;
  if Compression t =? NONE then
    emit (EvTarNewWriter OnDest) ;;;
    set_archive (Some OnDest) ;;;
    Archive_walk
  else if Compression t =? GZIP then
    emit EvGzipNewWriter ;;;
    defer DeferGzipClose ;;;
    emit (EvTarNewWriter OnGzip) ;;;
    set_archive (Some OnGzip) ;;;
    Archive_walk
  else if Compression t =? BZIP2 then
    ret (Some (Errorf "bzip2 compression is not supported" None))
  else if Compression t =? DETECT then
    ret (Some (Errorf "not a valid compression type: %s" (Some DETECT)))
  else
    ret (Some (Errorf "unknown compression type: %s" (Some (Compression t)))).

(** [Archive]: the body, then the deferred calls, last deferred first,
    whether the body returned or panicked. *)
Definition Archive : M (option error) :=
  fun w =>
    let '(r, w1) := Archive_body (mkWorld (tar_of w) (trace w) []) in
    let w2 := run_all_deferred (rev (deferred w1)) w1 in
    (r, mkWorld (tar_of w2) (trace w2) (deferred w)).

End Archiver.

(** ** An instance of the declarations, and sample filesystems

    The declarations as the repository and Go's [archive/tar] make them:
    [Compression] constants numbered from zero, the type flags of the tar
    format, Linux device numbers.  Used to run the archiver on concrete
    trees. *)

Module sample.

Definition TypeReg : Z := 48.       (* '0' *)
Definition TypeLink : Z := 49.      (* '1' *)
Definition TypeSymlink : Z := 50.   (* '2' *)
Definition TypeChar : Z := 51.      (* '3' *)
Definition TypeBlock : Z := 52.     (* '4' *)
Definition TypeDir : Z := 53.       (* '5' *)
Definition TypeFifo : Z := 54.      (* '6' *)

Definition has (mode bit : Z) : bool := negb (Z.land mode bit =? 0).

(** [tar.FileInfoHeader] of Go's [archive/tar] *)
Definition FileInfoHeader (fi : os.FileInfo) (link : string)
  : error + tar.Header :=
  let fm := os.Mode fi in
  let uid := match os.Sys fi with Some st => syscall.Uid st | None => 0 end in
  let gid := match os.Sys fi with Some st => syscall.Gid st | None => 0 end in
  let h := tar.mkHeader (os.Name fi) (Z.land fm os.ModePerm) uid gid 0
                        (os.ModTime fi) 0 "" 0 0 in
  let bits (h : tar.Header) :=
    let h := if has fm os.ModeSetuid
             then tar.with_Mode h (Z.lor (tar.Mode h) c_ISUID) else h in
    if has fm os.ModeSetgid
    then tar.with_Mode h (Z.lor (tar.Mode h) c_ISGID) else h in
  let typed (flag c_IS : Z) :=
    tar.with_Typeflag (tar.with_Mode h (Z.lor (tar.Mode h) c_IS)) flag in
  if Z.land fm os.ModeType =? 0 then
    inr (bits (tar.with_Size (typed TypeReg c_ISREG) (os.Size fi)))
  else if os.IsDir fi then
    inr (bits (tar.with_Name (typed TypeDir c_ISDIR) (os.Name fi +:+ "/")))
  else if has fm os.ModeSymlink then
    inr (bits (tar.with_Linkname (typed TypeSymlink c_ISLNK) link))
  else if has fm os.ModeDevice then
    if has fm os.ModeCharDevice then inr (bits (typed TypeChar c_ISCHR))
    else inr (bits (typed TypeBlock c_ISBLK))
  else if has fm os.ModeNamedPipe then
    inr (bits (typed TypeFifo c_ISFIFO))
  else if has fm os.ModeSocket then
    inr (bits (tar.with_Mode h (Z.lor (tar.Mode h) c_ISSOCK)))
  else inl (Errorf "archive/tar: unknown file mode %v" (Some fm)).

Definition decls : Decls :=
  Build_Decls 0 1 2 3
    (fun dev => Z.lor (Z.land (Z.shiftr dev 8) 4095)
                      (Z.land (Z.shiftr dev 32) (Z.lnot 4095)))
    (fun dev => Z.lor (Z.land dev 255) (Z.land (Z.shiftr dev 12) (Z.lnot 255)))
    TypeReg TypeLink FileInfoHeader.

(** An object on which every call succeeds. *)
Definition object_of (f : os.FileInfo) (link data : string) : object :=
  mkObject f None (inr link) None (data, None) (inr f) None None.

Definition stat_of (ino nlink : Z) : syscall.Stat_t :=
  syscall.mkStat ino nlink 1000 1000 0.

Definition dir (name : string) (ino : Z) (files : list fsnode) : fsnode :=
  Node (object_of (os.mkFileInfo name 4096 (Z.lor os.ModeDir 448) 0
                     (Some (stat_of ino 2))) "" "")
       files.

Definition file (name : string) (ino nlink : Z) (data : string) : fsnode :=
  Node (object_of (os.mkFileInfo name (Z.of_nat (String.length data)) 384 0
                     (Some (stat_of ino nlink))) "" data)
       [].

Definition symlink (name : string) (ino : Z) (link : string) : fsnode :=
  Node (object_of (os.mkFileInfo name (Z.of_nat (String.length link))
                     (Z.lor os.ModeSymlink 511) 0 (Some (stat_of ino 1)))
                  link "")
       [].

(** A block device whose [os.Stat] has the outcome [st]. *)
Definition device (name : string) (ino : Z) (st : error + os.FileInfo) : fsnode :=
  let f := os.mkFileInfo name 0 (Z.lor os.ModeDevice 432) 0
             (Some (syscall.mkStat ino 1 0 0 2049)) in
  Node (mkObject f None (inl (SysError "readlink: invalid argument")) None
                 ("", None) st None None)
       [].

Definition fs_of (n : fsnode) : filesystem := mkFilesystem (inr n) (inr "/").

Definition start (t : Tar) : world := mkWorld t [] [].

(** The tree of the end-to-end scenario: [a/], [a/f.txt] holding [hi],
    [a/link -> f.txt]. *)
Definition tree_a : fsnode :=
  dir "build" 1 [dir "a" 2 [file "f.txt" 3 1 "hi"; symlink "link" 4 "f.txt"]].

(** The names of the entries written, in order. *)
Definition header_names (tr : list event) : list string :=
  flat_map (fun e => match e with
                     | EvWriteHeader _ _ h => [tar.Name h]
                     | _ => []
                     end) tr.

(** For each entry written: relative path, name, type flag, size, link
    name, device numbers. *)
Definition header_fields (tr : list event)
  : list (string * string * Z * Z * string * Z * Z) :=
  flat_map (fun e => match e with
                     | EvWriteHeader fullName _ h =>
                       [(fullName, tar.Name h, tar.Typeflag h, tar.Size h,
                         tar.Linkname h, tar.Devmajor h, tar.Devminor h)]
                     | _ => []
                     end) tr.

(** An archiver as [NewTar] makes it, with the given compression,
    exclusion patterns and virtual path. *)
Definition tar_for (targetDir : string) (compression : Z)
           (excludes : list string) (virtualPath : string) : Tar :=
  mkTar targetDir None compression true false excludes virtualPath ∅.

(** A run of [Archive] on the tree [n]. *)
Definition run (t : Tar) (n : fsnode) : result (option error) * world :=
  @Archive decls (fs_of n) (start t).

(** Three names of one file, in two directories, and a file with one
    link. *)
Definition tree_links : fsnode :=
  dir "a" 1 [file "x" 9 3 "data";
             dir "d" 2 [file "y" 9 3 "data"];
             file "z" 9 3 "data";
             file "u" 10 1 "u"].

(** A directory with a block device on which [os.Stat] fails, and with
    one whose [os.Stat] gives a [FileInfo] that is not backed by a
    [*syscall.Stat_t]. *)
Definition stat_error : error :=
  SysError "stat /a/sda: no such file or directory".

Definition tree_device_gone : fsnode :=
  dir "a" 1 [device "sda" 7 (inl stat_error); file "f" 8 1 "x"].

Definition tree_device_opaque : fsnode :=
  dir "a" 1 [device "sda" 7
               (inr (os.mkFileInfo "sda" 0 (Z.lor os.ModeDevice 432) 0 None));
             file "f" 8 1 "x"].

End sample.

(** * Properties *)

(** ** The tables of Go's [path/filepath] tests, read on the model *)

Example Clean_table :
  List.map filepath.Clean
    ["abc"; "abc/def"; "a/b/c"; "."; ".."; "../.."; "../../abc"; "/abc"; "/";
     ""; "abc/"; "abc/def/"; "a/b/c/"; "./"; "../"; "../../"; "/abc/";
     "abc//def//ghi"; "//abc"; "///abc"; "//abc//"; "abc//";
     "abc/./def"; "/./abc/def"; "abc/.";
     "abc/def/ghi/../jkl"; "abc/def/../ghi/../jkl"; "abc/def/.."; "abc/def/../..";
     "/abc/def/../.."; "abc/def/../../.."; "/abc/def/../../..";
     "abc/def/../../../ghi/jkl/../../../mno"; "/../abc";
     "abc/./../def"; "abc//./../def"; "abc/../../././../def"]
  = ["abc"; "abc/def"; "a/b/c"; "."; ".."; "../.."; "../../abc"; "/abc"; "/";
     "."; "abc"; "abc/def"; "a/b/c"; "."; ".."; "../.."; "/abc";
     "abc/def/ghi"; "/abc"; "/abc"; "/abc"; "abc";
     "abc/def"; "/abc/def"; "abc";
     "abc/def/jkl"; "abc/jkl"; "abc"; ".";
     "/"; ".."; "/";
     "../../mno"; "/abc";
     "def"; "def"; "../../def"].
Proof. reflexivity. Qed.

Example Join_table :
  List.map filepath.Join
    [[]; [""]; ["a"]; ["a"; "b"]; ["a"; ""]; [""; "b"]; ["/"; "a"]; ["/"; ""];
     ["a/"; "b"]; ["a/"; ""]; [""; ""]; ["/"; "a"; "b"]]
  = [""; ""; "a"; "a/b"; "a"; "b"; "/a"; "/";
     "a/b"; "a"; ""; "/a/b"].
Proof. reflexivity. Qed.

Example Dir_table :
  List.map filepath.Dir
    [""; "."; "/."; "/"; "////"; "/foo"; "x/"; "abc"; "abc/def"; "a/b/.x";
     "a/b/c."; "a/b/c.x"]
  = ["."; "."; "/"; "/"; "/"; "/"; "x"; "."; "abc"; "a/b"; "a/b"; "a/b"].
Proof. reflexivity. Qed.

Example Base_table :
  List.map filepath.Base
    [""; "."; "/."; "/"; "////"; "x/"; "abc"; "abc/def"; "a/b/.x"; "a/b/c.";
     "a/b/c.x"]
  = ["."; "."; "."; "/"; "/"; "x"; "abc"; "def"; ".x"; "c."; "c.x"].
Proof. reflexivity. Qed.

Example Rel_table :
  List.map (fun '(b, t) => filepath.Rel b t)
    [("a/b", "a/b"); ("a/b/.", "a/b"); ("a/b", "a/b/."); ("./a/b", "a/b");
     ("ab/cd", "ab/cde"); ("ab/cd", "ab/c"); ("a/b", "a/b/c/d");
     ("a/b", "a/b/../c"); ("a/b/../c", "a/b"); ("a/b/c", "a/c/d");
     ("a/b", "c/d"); ("a/b/c/d", "a/b"); ("a/b/c/d/", "a/b/");
     ("../../a/b", "../../a/b/c/d");
     ("/a/b", "/a/b"); ("/ab/cd", "/ab/cde"); ("/ab/cd", "/ab/c");
     ("/a/b", "/a/b/c/d"); ("/a/b", "/a/b/../c"); ("/a/b/../c", "/a/b");
     ("/a/b/c", "/a/c/d"); ("/a/b", "/c/d"); ("/a/b/c/d", "/a/b");
     ("/../../a/b", "/../../a/b/c/d"); (".", "a/b"); (".", "..");
     ("/", "/a"); ("/a", "/")]
  = [inr "."; inr "."; inr "."; inr ".";
     inr "../cde"; inr "../c"; inr "c/d";
     inr "../c"; inr "../b"; inr "../../c/d";
     inr "../../c/d"; inr "../.."; inr "../..";
     inr "c/d";
     inr "."; inr "../cde"; inr "../c";
     inr "c/d"; inr "../c"; inr "../b";
     inr "../../c/d"; inr "../../c/d"; inr "../..";
     inr "c/d"; inr "a/b"; inr "..";
     inr "a"; inr ".."].
Proof. reflexivity. Qed.

Example Rel_errors :
  List.map (fun '(b, t) => filepath.Rel b t)
    [("..", "."); ("..", "a"); ("a", "/a"); ("/a", "a")]
  = [inl (RelError "." ".."); inl (RelError "a" "..");
     inl (RelError "/a" "a"); inl (RelError "a" "/a")].
Proof. reflexivity. Qed.


Example Match_table :
  List.map (fun '(p, n) => filepath.Match p n)
    [("abc", "abc"); ("*", "abc"); ("*c", "abc"); ("a*", "a"); ("a*", "abc");
     ("a*", "ab/c"); ("a*/b", "abc/b"); ("a*/b", "a/c/b");
     ("a*b*c*d*e*/f", "axbxcxdxe/f"); ("a*b*c*d*e*/f", "axbxcxdxexxx/f");
     ("a*b*c*d*e*/f", "axbxcxdxe/xxx/f"); ("a*b*c*d*e*/f", "axbxcxdxexxx/fff");
     ("a*b?c*x", "abxbbxdbxebxczzx"); ("a*b?c*x", "abxbbxdbxebxczzy");
     ("ab[c]", "abc"); ("ab[b-d]", "abc"); ("ab[e-g]", "abc");
     ("ab[^c]", "abc"); ("ab[^b-d]", "abc"); ("ab[^e-g]", "abc");
     ("a\*b", "a*b"); ("a\*b", "ab");
     ("a?b", "a☺b"); ("a[^a]b", "a☺b"); ("a???b", "a☺b");
     ("a[^a][^a][^a]b", "a☺b"); ("[a-ζ]*", "α"); ("*[a-ζ]", "A");
     ("a?b", "a/b"); ("a*b", "a/b");
     ("[\]a]", "]"); ("[\-]", "-"); ("[x\-]", "x"); ("[x\-]", "-");
     ("[x\-]", "z"); ("[\-x]", "x"); ("[\-x]", "-"); ("[\-x]", "a");
     ("*x", "xxx"); ("*.tmp", "drop.tmp"); ("*.tmp", "keep.txt")]
  = List.map (fun b => (b, None))
    [true; true; true; true; true;
     false; true; false;
     true; true;
     false; false;
     true; false;
     true; true; false;
     false; false; true;
     true; false;
     true; true; false;
     false; true; false;
     false; false;
     true; true; true; true;
     false; true; true; false;
     true; true; false].
Proof. reflexivity. Qed.

Example Match_bad_patterns :
  List.map (fun '(p, n) => filepath.Match p n)
    [("[]a]", "]"); ("[-]", "-"); ("[x-]", "x"); ("[x-]", "-"); ("[x-]", "z");
     ("[-x]", "x"); ("[-x]", "-"); ("[-x]", "a"); ("\", "a");
     ("[a-b-c]", "a"); ("[", "a"); ("[^", "a"); ("[^bc", "a"); ("a[", "ab")]
  = List.map (fun _ => (false, Some ErrBadPattern)) (seq 0 14).
Proof. reflexivity. Qed.

Arguments filepath.Clean : simpl never.
Arguments filepath.Join : simpl never.
Arguments filepath.Dir : simpl never.
Arguments filepath.Base : simpl never.
Arguments filepath.Rel : simpl never.
Arguments filepath.Abs : simpl never.
Arguments filepath.IsAbs : simpl never.
Arguments filepath.Match : simpl never.
Arguments strings.Contains : simpl never.
Arguments entryName : simpl never.
Arguments shouldBeExcluded : simpl never.

(** ** Induction on filesystem trees *)

Lemma fsnode_ind' (P : fsnode -> Prop) :
  (forall o files, Forall P files -> P (Node o files)) ->
  forall n, P n.
Proof.
  intros step.
  fix IH 1.
  intros [o files]. apply step.
  induction files as [|c files IHfiles]; constructor.
  - apply IH.
  - exact IHfiles.
Qed.

(** ** What a run leaves unchanged

    The fields of [Tar] other than the hard-link table are its
    configuration; [extends w w'] says that [w'] comes from [w] by calls
    that were appended to the trace and by updates of the hard-link table
    only. *)

Definition config (t : Tar) : Tar :=
  mkTar (target t) (archive t) (Compression t) (IncludePermissions t)
        (IncludeOwners t) (ExcludedPaths t) (VirtualPath t) ∅.

Definition extends (w w' : world) : Prop :=
  config (tar_of w') = config (tar_of w) /\
  deferred w' = deferred w /\
  exists evs, trace w' = trace w ++ evs.

Definition framed {A} (m : M A) : Prop := forall w, extends w (snd (m w)).

Lemma extends_refl w : extends w w.
Proof.
  repeat split. exists []. symmetry. apply app_nil_r.
Qed.

Lemma extends_trans w1 w2 w3 : extends w1 w2 -> extends w2 w3 -> extends w1 w3.
Proof.
  intros (Hc & Hd & evs & Ht) (Hc' & Hd' & evs' & Ht').
  repeat split; try congruence.
  exists (evs ++ evs'). rewrite Ht', Ht. symmetry. apply app_assoc.
Qed.

Lemma bind_get_tar {A} (k : Tar -> M A) w : bind get_tar k w = k (tar_of w) w.
Proof. reflexivity. Qed.

Lemma bind_eq {A B} (m : M A) (k : A -> M B) w :
  bind m k w =
    match m w with
    | (Return a, w') => k a w'
    | (Panic, w') => (Panic, w')
    end.
Proof. reflexivity. Qed.

Lemma framed_ret {A} (a : A) : framed (ret a).
Proof. intros w. apply extends_refl. Qed.

Lemma framed_panic {A} : framed (@panic A).
Proof. intros w. apply extends_refl. Qed.

Lemma framed_get_tar : framed get_tar.
Proof. intros w. apply extends_refl. Qed.

Lemma framed_emit e : framed (emit e).
Proof. intros w. repeat split. exists [e]. reflexivity. Qed.

Lemma framed_set_hardLink ino name : framed (set_hardLink ino name).
Proof. intros w. repeat split. exists []. simpl. symmetry. apply app_nil_r. Qed.

Lemma framed_bind {A B} (m : M A) (k : A -> M B) :
  framed m -> (forall a, framed (k a)) -> framed (bind m k).
Proof.
  intros Hm Hk w. unfold bind. specialize (Hm w).
  destruct (m w) as [[a|] w']; simpl in *.
  - eapply extends_trans; [exact Hm | apply Hk].
  - exact Hm.
Qed.

Create HintDb framed.
#[export] Hint Resolve framed_ret framed_panic framed_get_tar framed_emit
  framed_set_hardLink : framed.

(** One step through a monadic term: a bind, a primitive, or a case
    distinction on what the term branches on. *)
Ltac framed_step :=
  first
    [ apply framed_ret | apply framed_panic | apply framed_get_tar
    | apply framed_emit | apply framed_set_hardLink
    | apply framed_bind; [ | intros ? ]
    | match goal with
      | |- framed (match ?x with _ => _ end) => destruct x
      end ].

Ltac framed_tac := repeat framed_step.

Lemma framed_on_archive {A} (m : M A) : framed m -> framed (on_archive m).
Proof. intros Hm. unfold on_archive. framed_tac. exact Hm. Qed.

Lemma framed_archive_WriteHeader o fullName hdr :
  framed (archive_WriteHeader o fullName hdr).
Proof. apply framed_on_archive. framed_tac. Qed.

Lemma framed_archive_Flush o : framed (archive_Flush o).
Proof. apply framed_on_archive. framed_tac. Qed.

Lemma framed_io_Copy o : framed (io_Copy o).
Proof. apply framed_on_archive. framed_tac. Qed.

Lemma framed_ioutil_ReadDir o dirname : framed (ioutil_ReadDir o dirname).
Proof. unfold ioutil_ReadDir. framed_tac. Qed.

Lemma framed_os_Readlink o name : framed (os_Readlink o name).
Proof. unfold os_Readlink. framed_tac. Qed.

Lemma framed_os_Stat o name : framed (os_Stat o name).
Proof. unfold os_Stat. framed_tac. Qed.

Lemma framed_os_Open o name : framed (os_Open o name).
Proof. unfold os_Open. framed_tac. Qed.

Lemma framed_data_Close name : framed (data_Close name).
Proof. unfold data_Close. framed_tac. Qed.

#[export] Hint Resolve framed_archive_WriteHeader framed_archive_Flush
  framed_io_Copy framed_ioutil_ReadDir framed_os_Readlink framed_os_Stat
  framed_os_Open framed_data_Close : framed.

Ltac framed_auto :=
  repeat first [ solve [ auto with framed ] | framed_step ].

Section ArchiverFrame.

Context `{D : Decls}.
Variable fs : filesystem.

Lemma framed_cleanLinkName o targetDir name :
  framed (cleanLinkName fs o targetDir name).
Proof. unfold cleanLinkName. framed_auto. Qed.

Lemma framed_processRegular fullName o stat header :
  framed (processRegular fullName o stat header).
Proof. unfold processRegular. framed_auto. Qed.

Lemma framed_processDevice fullName o header :
  framed (processDevice fullName o header).
Proof. unfold processDevice. framed_auto. Qed.

Lemma framed_range_files (pe : string -> fsnode -> M (option error)) dir files :
  Forall (fun c => forall name, framed (pe name c)) files ->
  framed (range_files pe dir files).
Proof.
  induction 1 as [|c files Hc _ IH]; simpl.
  - apply framed_ret.
  - apply framed_bind; [apply Hc|].
    intros [e|]; [apply framed_ret | exact IH].
Qed.

Lemma framed_processEntry n : forall fullName, framed (processEntry fs fullName n).
Proof.
  induction n as [o files IH] using fsnode_ind'. intros fullName.
  simpl.
  pose proof (framed_cleanLinkName) as Hl.
  pose proof (framed_processRegular) as Hr.
  pose proof (framed_processDevice) as Hd.
  pose proof (framed_range_files (processEntry fs) fullName files IH) as Hf.
  unfold processDirectory_with.
  framed_auto.
Qed.

End ArchiverFrame.

(** ** [ExcludePath] *)

Lemma HasPrefix_separator c s :
  strings.HasPrefix (String c s) "/" = true -> c = "/"%char.
Proof.
  unfold strings.HasPrefix. intros H.
  change (String.prefix "/" (String c s))
    with (if ascii_dec "/" c then String.prefix "" s else false) in H.
  destruct (ascii_dec "/" c); [congruence | discriminate].
Qed.

(** C9.  [ExcludePath] appends one pattern to the exclusion list: the
    given one without its first byte when it starts with the path
    separator (one separator only is removed), the given one as it is
    otherwise.  The patterns already in the list and the other fields of
    the archiver are kept. *)
Theorem ExcludePath_strips_one_separator (t : Tar) :
  (forall rest,
      ExcludedPaths (ExcludePath t ("/" +:+ rest)) = ExcludedPaths t ++ [rest]) /\
  (forall name,
      strings.HasPrefix name "/" = false ->
      ExcludedPaths (ExcludePath t name) = ExcludedPaths t ++ [name]) /\
  (forall name,
      exists pattern,
        ExcludedPaths (ExcludePath t name) = ExcludedPaths t ++ [pattern] /\
        (name = pattern \/ name = "/" +:+ pattern) /\
        config (ExcludePath t name) =
          config (mkTar (target t) (archive t) (Compression t)
                        (IncludePermissions t) (IncludeOwners t)
                        (ExcludedPaths t ++ [pattern]) (VirtualPath t) ∅) /\
        hardLinks (ExcludePath t name) = hardLinks t).
Proof.
  split; [|split].
  - intros rest. destruct rest; reflexivity.
  - intros name Hname. unfold ExcludePath. simpl.
    unfold filepath.SeparatorString. rewrite Hname. reflexivity.
  - intros name. unfold ExcludePath. simpl.
    destruct (strings.HasPrefix name filepath.SeparatorString) eqn:Hp.
    + exists (strings.tail name). repeat split.
      right. destruct name as [|c name]; [discriminate|].
      apply HasPrefix_separator in Hp. subst c. reflexivity.
    + exists name. repeat split. left. reflexivity.
Qed.

(** ** [Archive]: the compression switch and the deferred calls *)

Section ArchiveSwitch.

Context `{D : Decls}.
Variable fs : filesystem.

Lemma framed_Archive_walk : framed (Archive_walk fs).
Proof.
  unfold Archive_walk. pose proof (framed_processEntry fs) as Hp. framed_auto.
Qed.

Lemma distinct_compressions_neq :
  distinct_compressions ->
  NONE <> GZIP /\ NONE <> BZIP2 /\ NONE <> DETECT /\
  GZIP <> BZIP2 /\ GZIP <> DETECT /\ BZIP2 <> DETECT.
Proof.
  unfold distinct_compressions. intros H.
  apply List.NoDup_cons_iff in H as [H1 H].
  apply List.NoDup_cons_iff in H as [H2 H].
  apply List.NoDup_cons_iff in H as [H3 _].
  simpl in *. intuition congruence.
Qed.

(** C6.  A run whose compression mode is [BZIP2], [DETECT] or none of
    the four known modes returns the error of that case ("bzip2
    compression is not supported", "not a valid compression type",
    "unknown compression type") and leaves the state as it was: no writer
    is created, nothing is written to the sink and nothing is closed. *)
Theorem Archive_rejects_compression (w : world) :
  distinct_compressions ->
  archive (tar_of w) = None ->
  (Compression (tar_of w) = BZIP2 ->
   Archive fs w =
     (Return (Some (Errorf "bzip2 compression is not supported" None)), w)) /\
  (Compression (tar_of w) = DETECT ->
   Archive fs w =
     (Return (Some (Errorf "not a valid compression type: %s" (Some DETECT))), w)) /\
  (~ In (Compression (tar_of w)) [NONE; GZIP; BZIP2; DETECT] ->
   Archive fs w =
     (Return (Some (Errorf "unknown compression type: %s"
                           (Some (Compression (tar_of w))))), w)).
Proof.
  intros Hd Ha.
  apply distinct_compressions_neq in Hd as (H1 & H2 & H3 & H4 & H5 & H6).
  destruct w as [t tr ds]. simpl in *.
  unfold Archive, Archive_body, bind, defer, get_tar, ret. simpl.
  repeat split.
  - intros Hc. rewrite Hc.
    rewrite (proj2 (Z.eqb_neq BZIP2 NONE)) by congruence.
    rewrite (proj2 (Z.eqb_neq BZIP2 GZIP)) by congruence.
    rewrite Z.eqb_refl. simpl. unfold bind, get_tar, ret. simpl.
    rewrite Ha. reflexivity.
  - intros Hc. rewrite Hc.
    rewrite (proj2 (Z.eqb_neq DETECT NONE)) by congruence.
    rewrite (proj2 (Z.eqb_neq DETECT GZIP)) by congruence.
    rewrite (proj2 (Z.eqb_neq DETECT BZIP2)) by congruence.
    rewrite Z.eqb_refl. simpl. unfold bind, get_tar, ret. simpl.
    rewrite Ha. reflexivity.
  - intros Hc. simpl in Hc.
    rewrite (proj2 (Z.eqb_neq (Compression t) NONE)) by intuition congruence.
    rewrite (proj2 (Z.eqb_neq (Compression t) GZIP)) by intuition congruence.
    rewrite (proj2 (Z.eqb_neq (Compression t) BZIP2)) by intuition congruence.
    rewrite (proj2 (Z.eqb_neq (Compression t) DETECT)) by intuition congruence.
    simpl. unfold bind, get_tar, ret. simpl. rewrite Ha. reflexivity.
Qed.

(** The state after the [GZIP] case of the switch. *)
Definition gzip_started (w : world) : world :=
  let t := tar_of w in
  mkWorld (mkTar (target t) (Some OnGzip) (Compression t) (IncludePermissions t)
                 (IncludeOwners t) (ExcludedPaths t) (VirtualPath t)
                 (hardLinks t))
          (trace w ++ [EvGzipNewWriter; EvTarNewWriter OnGzip])
          [DeferCloseArchive; DeferGzipClose].

(** C5 (what the code does).  In a [GZIP] run the two deferred calls
    run last deferred first: whatever the walk did and however it ended,
    the last two calls of the run are [Close] on the compressor followed
    by [Close] on the archive writer. *)
Theorem Archive_gzip_closes_compressor_first (w : world) :
  GZIP <> NONE ->
  Compression (tar_of w) = GZIP ->
  exists evs,
    trace (snd (Archive fs w)) =
      trace w ++ [EvGzipNewWriter; EvTarNewWriter OnGzip] ++ evs
              ++ [EvGzipClose; EvTarClose] /\
    archive (tar_of (snd (Archive fs w))) = None /\
    fst (Archive fs w) = fst (Archive_walk fs (gzip_started w)).
Proof.
  intros Hne Hc.
  destruct w as [t tr ds]. simpl in Hc.
  pose proof (framed_Archive_walk (gzip_started (mkWorld t tr ds))) as Hf.
  unfold Archive, Archive_body, bind, defer, get_tar, emit, set_archive, ret.
  unfold gzip_started in *. simpl in *.
  rewrite (proj2 (Z.eqb_neq (Compression t) NONE)) by congruence.
  rewrite (proj2 (Z.eqb_eq (Compression t) GZIP)) by congruence.
  rewrite <- app_assoc. simpl.
  destruct (Archive_walk fs _) as [r w1]. simpl in *.
  destruct Hf as (Hcfg & Hdef & evs & Htr).
  simpl in Hcfg, Hdef, Htr.
  rewrite Hdef. simpl.
  assert (Harch : archive (tar_of w1) = Some OnGzip).
  { change (archive (config (tar_of w1)) = Some OnGzip). rewrite Hcfg. reflexivity. }
  unfold bind, get_tar, emit, set_archive, ret. simpl. rewrite Harch. simpl.
  exists evs. rewrite Htr. repeat split.
  rewrite <- !app_assoc. reflexivity.
Qed.

End ArchiveSwitch.

(** ** The walk as a list of visits

    [processEntry] on a tree does, for one object after the other, what it
    does on an object with an empty listing: the objects are those of the
    tree in pre-order, leaving out what is excluded and what lies below
    something that is excluded or is not a directory. *)

Section Walk.

Context `{D : Decls}.
Variable fs : filesystem.

(** [processEntry] on one object, nothing listed below it. *)
Definition visit (fullName : string) (o : object) : M (option error) :=
  processEntry fs fullName (Node o []).

(** [fullName] of the loop of [processDirectory] *)
Definition child_name (dir : string) (c : fsnode) : string :=
  filepath.Join [dir; os.Name (info (node_object c))].

(** The objects a walk from [n] reaches, with their relative paths. *)
Fixpoint walk (t : Tar) (fullName : string) (n : fsnode)
  : list (string * object) :=
  match n with
  | Node o files =>
    if shouldBeExcluded t fullName then []
    else (fullName, o) ::
         (if os.IsDir (info o)
          then List.flat_map (fun c => walk t (child_name fullName c) c) files
          else [])
  end.

(** Visits in a row, up to the first that fails. *)
Fixpoint visit_all (l : list (string * object)) : M (option error) :=
  match l with
  | [] => ret None
  | (fullName, o) :: rest =>
    err <- visit fullName o ;;
    match err with
    | Some e => ret (Some e)
    | None => visit_all rest
    end
  end.

Lemma framed_visit fullName o : framed (visit fullName o).
Proof. apply framed_processEntry. Qed.

Lemma framed_visit_all l : framed (visit_all l).
Proof.
  induction l as [|[fullName o] l IH]; simpl.
  - apply framed_ret.
  - apply framed_bind; [apply framed_visit|].
    intros [e|]; [apply framed_ret | exact IH].
Qed.

Lemma visit_all_app l1 l2 w :
  visit_all (l1 ++ l2) w =
    match visit_all l1 w with
    | (Return None, w') => visit_all l2 w'
    | rw => rw
    end.
Proof.
  revert w. induction l1 as [|[fullName o] l1 IH]; intros w; simpl.
  - reflexivity.
  - unfold bind. destruct (visit fullName o w) as [[[e|]|] w']; simpl.
    + reflexivity.
    + apply IH.
    + reflexivity.
Qed.

Lemma shouldBeExcluded_config t t' name :
  config t = config t' -> shouldBeExcluded t name = shouldBeExcluded t' name.
Proof.
  unfold shouldBeExcluded. intros H.
  change (ExcludedPaths t) with (ExcludedPaths (config t)).
  rewrite H. reflexivity.
Qed.

Lemma walk_config n : forall t t' fullName,
  config t = config t' -> walk t fullName n = walk t' fullName n.
Proof.
  induction n as [o files IH] using fsnode_ind'. intros t t' fullName Hc.
  simpl. rewrite (shouldBeExcluded_config t t' fullName Hc).
  destruct (shouldBeExcluded t' fullName); [reflexivity|].
  f_equal. destruct (os.IsDir (info o)); [|reflexivity].
  induction IH as [|c files Hc' _ IHfiles]; simpl; [reflexivity|].
  rewrite (Hc' t t' _ Hc), IHfiles. reflexivity.
Qed.

(** [processEntry] on a node: the visit of its object, then, for a
    directory that is not excluded, the loop over its listing. *)
Lemma processEntry_node fullName o files w :
  processEntry fs fullName (Node o files) w =
    match visit fullName o w with
    | (Return None, w') =>
      if negb (shouldBeExcluded (tar_of w) fullName) && os.IsDir (info o)
      then range_files (processEntry fs) fullName files w'
      else (Return None, w')
    | rw => rw
    end.
Proof.
  unfold visit. cbn [processEntry]. rewrite !bind_get_tar.
  destruct (shouldBeExcluded (tar_of w) fullName); simpl; [reflexivity|].
  destruct (FileInfoHeader (info o) ""); simpl; [reflexivity|].
  destruct (os.Sys (info o)); simpl; [|reflexivity].
  destruct (os.IsDir (info o)); simpl.
  - rewrite !bind_eq.
    destruct (archive_WriteHeader _ _ _ w) as [[[e|]|] w1]; simpl; try reflexivity.
    unfold processDirectory_with. rewrite !bind_get_tar, !bind_eq.
    destruct (ioutil_ReadDir _ _ w1) as [[[e|]|] w2]; reflexivity.
  - match goal with
    | |- ?X = _ => destruct X as [[[e|]|] w1]; reflexivity
    end.
Qed.

Lemma range_files_walk files : forall fullName w,
  Forall (fun c => forall fullName w,
              processEntry fs fullName c w =
                visit_all (walk (tar_of w) fullName c) w) files ->
  range_files (processEntry fs) fullName files w =
    visit_all (List.flat_map (fun c => walk (tar_of w) (child_name fullName c) c)
                             files) w.
Proof.
  intros fullName w H. revert w.
  induction H as [|c files Hc _ IH]; intros w; simpl.
  - reflexivity.
  - rewrite visit_all_app. unfold bind. fold (child_name fullName c).
    rewrite Hc.
    pose proof (framed_visit_all (walk (tar_of w) (child_name fullName c) c) w)
      as (Hcfg & _).
    destruct (visit_all _ w) as [[[e|]|] w']; simpl in *; try reflexivity.
    rewrite IH. f_equal. clear IH Hc.
    induction files as [|c' files IHf]; simpl; [reflexivity|].
    rewrite IHf. f_equal. apply walk_config. exact Hcfg.
Qed.

(** The walk is the list of its visits. *)
Theorem processEntry_walk n : forall fullName w,
  processEntry fs fullName n w = visit_all (walk (tar_of w) fullName n) w.
Proof.
  induction n as [o files IH] using fsnode_ind'. intros fullName w.
  rewrite processEntry_node. simpl.
  destruct (shouldBeExcluded (tar_of w) fullName) eqn:Hex; simpl.
  - unfold visit. simpl. unfold bind, get_tar. rewrite Hex. reflexivity.
  - unfold bind.
    pose proof (framed_visit fullName o w) as (Hcfg & _).
    destruct (visit fullName o w) as [[[e|]|] w']; simpl in *; try reflexivity.
    destruct (os.IsDir (info o)); [|reflexivity].
    rewrite (range_files_walk files fullName w' IH). f_equal.
    clear IH. induction files as [|c files IHf]; simpl; [reflexivity|].
    rewrite IHf. f_equal. apply walk_config. exact Hcfg.
Qed.

End Walk.

(** ** The header of an entry *)

(** The branch of the [switch] of [processEntry] an object is handled by. *)
Inductive kind : Type := KDir | KSymlink | KRegular | KDevice | KSocket | KOther.

Definition classify (f : os.FileInfo) : kind :=
  let mode := os.Mode f in
  if os.IsDir f then KDir
  else if Z.land mode os.ModeSymlink =? os.ModeSymlink then KSymlink
  else if Z.land mode os.ModeType =? 0 then KRegular
  else if (Z.land mode os.ModeDevice =? os.ModeDevice)
          || (Z.land mode os.ModeCharDevice =? os.ModeCharDevice) then KDevice
  else if Z.land mode os.ModeSocket =? os.ModeSocket then KSocket
  else KOther.

Section Headers.

Context `{D : Decls}.
Variable fs : filesystem.

(** What every header written for the object [o] at [fullName] looks
    like, whatever branch wrote it: [h0] is the header [FileInfoHeader]
    built and [st] the [syscall.Stat_t] of the object. *)
Definition header_ok (t : Tar) (fullName : string) (o : object)
           (h : tar.Header) : Prop :=
  let f := info o in
  shouldBeExcluded t fullName = false /\
  exists h0 st,
    FileInfoHeader f "" = inr h0 /\
    os.Sys f = Some st /\
    tar.Name h =
      (if os.IsDir f then entryName t fullName +:+ "/"
       else entryName t fullName) /\
    tar.Mode h =
      (if IncludePermissions t then tar.Mode h0
       else match classify f with
            | KDir | KSymlink => 493
            | KRegular => 420
            | _ => tar.Mode h0
            end) /\
    tar.Uid h = (if IncludeOwners t then syscall.Uid st else 500) /\
    tar.Gid h = (if IncludeOwners t then syscall.Gid st else 500) /\
    tar.ModTime h = tar.ModTime h0.

Definition header_event_ok (t : Tar) (fullName : string) (o : object)
           (e : event) : Prop :=
  match e with
  | EvWriteHeader fullName' o' h =>
    fullName' = fullName /\ o' = o /\ header_ok t fullName o h
  | _ => True
  end.

End Headers.

(** Runs every primitive of the monad in the goal. *)
Ltac run_monad :=
  unfold archive_WriteHeader, archive_Flush, io_Copy, ioutil_ReadDir,
    os_Readlink, os_Stat, os_Open, data_Close, on_archive, set_hardLink,
    set_archive, emit, get_tar, bind, ret, panic in *;
  simpl in *.

(** Case distinction on everything the goal branches on. *)
Ltac crush_matches :=
  repeat (simpl;
          match goal with
          | |- context [match ?x with _ => _ end] =>
            lazymatch x with
            | context [match _ with _ => _ end] => fail
            | _ => destruct x eqn:?
            end
          end);
  simpl.

(** Closes [trace w' = trace w ++ ?evs] for an explicit [trace w']. *)
Ltac trace_eq :=
  first [ rewrite <- ?app_assoc; reflexivity
        | symmetry; apply app_nil_r ].

Section VisitHeaders.

Context `{D : Decls}.
Variable fs : filesystem.

(** Closes [Forall (header_event_ok t fullName o) evs] for explicit [evs],
    given [Hok] that derives it for a header from equations on its
    fields. *)
Ltac events_ok Hok :=
  repeat (apply List.Forall_cons;
          [ first [ exact I
                  | apply Hok; reflexivity ] | ]);
  apply List.Forall_nil.

Lemma visit_headers fullName o w :
  exists evs,
    trace (snd (visit fs fullName o w)) = trace w ++ evs /\
    Forall (header_event_ok (tar_of w) fullName o) evs.
Proof.
  unfold visit. cbn [processEntry]. rewrite bind_get_tar.
  destruct (shouldBeExcluded (tar_of w) fullName) eqn:Hex.
  { exists []. split; [trace_eq | constructor]. }
  destruct (FileInfoHeader (info o) "") as [e|h0] eqn:Hfih.
  { exists []. split; [trace_eq | constructor]. }
  destruct (os.Sys (info o)) as [st|] eqn:Hsys.
  2:{ exists []. split; [trace_eq | constructor]. }
  assert (Hok : forall h,
    tar.Name h = (if os.IsDir (info o) then entryName (tar_of w) fullName +:+ "/"
                  else entryName (tar_of w) fullName) ->
    tar.Mode h = (if IncludePermissions (tar_of w) then tar.Mode h0
                  else match classify (info o) with
                       | KDir | KSymlink => 493
                       | KRegular => 420
                       | _ => tar.Mode h0
                       end) ->
    tar.Uid h = (if IncludeOwners (tar_of w) then syscall.Uid st else 500) ->
    tar.Gid h = (if IncludeOwners (tar_of w) then syscall.Gid st else 500) ->
    tar.ModTime h = tar.ModTime h0 ->
    header_event_ok (tar_of w) fullName o (EvWriteHeader fullName o h)).
  { intros h H1 H2 H3 H4 H5. repeat split; [exact Hex|].
    exists h0, st. repeat split; assumption. }
  unfold classify in Hok.
  unfold processDirectory_with, cleanLinkName, processRegular, processDevice.
  destruct (IncludePermissions (tar_of w)), (IncludeOwners (tar_of w));
    run_monad; crush_matches;
    (eexists; split; [trace_eq | events_ok Hok]).
Qed.

End VisitHeaders.

(** ** Every header of a run *)

Section RunHeaders.

Context `{D : Decls}.
Variable fs : filesystem.

(** [header_ok], [walk] and [shouldBeExcluded] read four fields of the
    archiver only. *)
Definition same_settings (t t' : Tar) : Prop :=
  ExcludedPaths t = ExcludedPaths t' /\
  VirtualPath t = VirtualPath t' /\
  IncludePermissions t = IncludePermissions t' /\
  IncludeOwners t = IncludeOwners t'.

Lemma same_settings_config t t' : config t = config t' -> same_settings t t'.
Proof.
  intros H. unfold same_settings.
  change (ExcludedPaths (config t) = ExcludedPaths (config t') /\
          VirtualPath (config t) = VirtualPath (config t') /\
          IncludePermissions (config t) = IncludePermissions (config t') /\
          IncludeOwners (config t) = IncludeOwners (config t')).
  rewrite H. repeat split.
Qed.

Lemma header_ok_settings t t' fullName o h :
  same_settings t t' -> header_ok t fullName o h -> header_ok t' fullName o h.
Proof.
  intros (He & Hv & Hp & Ho). unfold header_ok, shouldBeExcluded, entryName.
  rewrite He, Hv, Hp, Ho. exact id.
Qed.

Lemma walk_settings n : forall t t' fullName,
  same_settings t t' -> walk t fullName n = walk t' fullName n.
Proof.
  induction n as [o files IH] using fsnode_ind'. intros t t' fullName Hs.
  simpl. unfold shouldBeExcluded. rewrite (proj1 Hs).
  destruct (shouldBeExcluded_loop _ _); [reflexivity|].
  f_equal. destruct (os.IsDir (info o)); [|reflexivity].
  induction IH as [|c files Hc' _ IHfiles]; simpl; [reflexivity|].
  rewrite (Hc' t t' _ Hs), IHfiles. reflexivity.
Qed.

(** A header event is for one of the objects [l] and is as [header_ok]
    says; other events are not constrained. *)
Definition header_of (t : Tar) (l : list (string * object)) (e : event) : Prop :=
  match e with
  | EvWriteHeader fullName o h => In (fullName, o) l /\ header_ok t fullName o h
  | _ => True
  end.

Lemma header_of_settings t t' l e :
  same_settings t t' -> header_of t l e -> header_of t' l e.
Proof.
  intros Hs. destruct e; simpl; auto.
  intros [Hin Hok]. split; [exact Hin|].
  eapply header_ok_settings; eassumption.
Qed.

Lemma header_of_incl t l l' e :
  (forall x, In x l -> In x l') -> header_of t l e -> header_of t l' e.
Proof.
  intros Hincl. destruct e; simpl; auto.
  intros [Hin Hok]. auto.
Qed.

Lemma visit_all_headers l : forall w,
  exists evs,
    trace (snd (visit_all fs l w)) = trace w ++ evs /\
    Forall (header_of (tar_of w) l) evs.
Proof.
  induction l as [|[fullName o] l IH]; intros w; simpl.
  - exists []. split; [trace_eq | constructor].
  - rewrite bind_eq.
    destruct (visit_headers fs fullName o w) as (evs1 & Ht1 & Hf1).
    pose proof (framed_visit fs fullName o w) as (Hcfg & _).
    destruct (visit fs fullName o w) as [[[e|]|] w1]; simpl in *.
    1,3: exists evs1; split; [exact Ht1|];
      eapply List.Forall_impl; [|exact Hf1];
      intros [] He; simpl in *; auto;
      destruct He as (-> & -> & Hok); auto.
    destruct (IH w1) as (evs2 & Ht2 & Hf2).
    exists (evs1 ++ evs2). split.
    + rewrite Ht2, Ht1. symmetry. apply app_assoc.
    + apply List.Forall_app. split.
      * eapply List.Forall_impl; [|exact Hf1].
        intros [] He; simpl in *; auto.
        destruct He as (-> & -> & Hok); auto.
      * eapply List.Forall_impl; [|exact Hf2].
        intros e He. eapply header_of_incl; [intros x Hx; right; exact Hx|].
        eapply header_of_settings; [|exact He].
        apply same_settings_config. exact Hcfg.
Qed.

Lemma processEntry_headers n fullName w :
  exists evs,
    trace (snd (processEntry fs fullName n w)) = trace w ++ evs /\
    Forall (header_of (tar_of w) (walk (tar_of w) fullName n)) evs.
Proof.
  rewrite processEntry_walk. apply visit_all_headers.
Qed.

(** The objects a run from the root of [fs] reaches. *)
Definition walk_root (t : Tar) : list (string * object) :=
  match root fs with
  | inl _ => []
  | inr n => walk t "." n
  end.

Lemma Archive_walk_headers w :
  exists evs,
    trace (snd (Archive_walk fs w)) = trace w ++ evs /\
    Forall (header_of (tar_of w) (walk_root (tar_of w))) evs.
Proof.
  unfold Archive_walk, walk_root.
  destruct (root fs) as [e|n].
  - exists []. split; [trace_eq | constructor].
  - rewrite bind_eq.
    destruct (processEntry_headers n "." w) as (evs & Ht & Hf).
    destruct (processEntry fs "." n w) as [[[e|]|] w1]; simpl in *;
      exists evs; split; assumption.
Qed.

(** The deferred calls write no header. *)
Lemma run_all_deferred_trace ds : forall w,
  exists evs,
    trace (run_all_deferred ds w) = trace w ++ evs /\
    Forall (fun e => e = EvTarClose \/ e = EvGzipClose) evs /\
    hardLinks (tar_of (run_all_deferred ds w)) = hardLinks (tar_of w).
Proof.
  induction ds as [|d ds IH]; intros w; simpl.
  - exists []. repeat split; [trace_eq | constructor].
  - destruct (IH (snd (run_deferred d w))) as (evs & Ht & Hf & Hh).
    rewrite Ht, Hh. clear IH Ht Hh.
    destruct d; unfold run_deferred; run_monad.
    + destruct (archive (tar_of w)); simpl.
      * exists (EvTarClose :: evs). repeat split.
        -- rewrite <- app_assoc. reflexivity.
        -- constructor; auto.
      * exists evs. repeat split. exact Hf.
    + exists (EvGzipClose :: evs). repeat split.
      * rewrite <- app_assoc. reflexivity.
      * constructor; auto.
Qed.

(** The state in which [Archive] starts its walk, if it does. *)
Definition walk_started (w : world) (wr : writer) : Tar :=
  let t := tar_of w in
  mkTar (target t) (Some wr) (Compression t) (IncludePermissions t)
        (IncludeOwners t) (ExcludedPaths t) (VirtualPath t) (hardLinks t).

(** [Archive] as its walk between the calls that open and close the
    writers: either no walk takes place and no header is written, or the
    trace of the run is that of [Archive_walk] with calls before and
    after it that write no header. *)
Lemma Archive_as_walk w :
  (exists post,
      trace (snd (Archive fs w)) = trace w ++ post /\
      Forall (fun e => e = EvTarClose \/ e = EvGzipClose) post /\
      hardLinks (tar_of (snd (Archive fs w))) = hardLinks (tar_of w) /\
      exists e, fst (Archive fs w) = Return (Some e)) \/
  (exists wr pre ds post,
      let w0 := mkWorld (walk_started w wr) (trace w ++ pre) ds in
      Forall (fun e => e = EvGzipNewWriter \/ e = EvTarNewWriter wr) pre /\
      Forall (fun e => e = EvTarClose \/ e = EvGzipClose) post /\
      fst (Archive fs w) = fst (Archive_walk fs w0) /\
      trace (snd (Archive fs w)) = trace (snd (Archive_walk fs w0)) ++ post /\
      hardLinks (tar_of (snd (Archive fs w))) =
        hardLinks (tar_of (snd (Archive_walk fs w0)))).
Proof.
  destruct w as [t tr ds0].
  unfold Archive, Archive_body. rewrite !bind_eq. simpl.
  rewrite !bind_eq. simpl.
  destruct (Compression t =? NONE) eqn:Hnone;
    [|destruct (Compression t =? GZIP) eqn:Hgzip].
  - right. exists OnDest, [EvTarNewWriter OnDest], [DeferCloseArchive].
    rewrite !bind_eq. simpl. rewrite !bind_eq. simpl.
    unfold walk_started. simpl.
    pose proof (framed_Archive_walk fs
      {| tar_of := mkTar (target t) (Some OnDest) (Compression t)
                         (IncludePermissions t) (IncludeOwners t)
                         (ExcludedPaths t) (VirtualPath t) (hardLinks t);
         trace := tr ++ [EvTarNewWriter OnDest];
         deferred := [DeferCloseArchive] |}) as (_ & Hd & _).
    destruct (Archive_walk fs _) as [r w1]. simpl in *.
    destruct (run_all_deferred_trace (rev (deferred w1)) w1)
      as (post & Ht & Hf & Hh).
    exists post. repeat split; auto.
  - right. exists OnGzip, [EvGzipNewWriter; EvTarNewWriter OnGzip],
             [DeferCloseArchive; DeferGzipClose].
    rewrite !bind_eq. simpl. rewrite !bind_eq. simpl.
    rewrite !bind_eq. simpl. rewrite !bind_eq. simpl.
    unfold walk_started. simpl. rewrite <- app_assoc. simpl.
    destruct (Archive_walk fs _) as [r w1]. simpl in *.
    destruct (run_all_deferred_trace (rev (deferred w1)) w1)
      as (post & Ht & Hf & Hh).
    exists post. repeat split; auto.
  - left.
    destruct (Compression t =? BZIP2); [|destruct (Compression t =? DETECT)];
      unfold ret; cbn -[run_all_deferred];
      match goal with
      | |- context [run_all_deferred ?ds ?w] =>
        destruct (run_all_deferred_trace ds w) as (post & Ht & Hf & Hh)
      end;
      exists post; repeat split; eauto.
Qed.

(** Every header a run writes is for an object of the walk from the root
    and is as [header_ok] says. *)
Lemma Archive_headers w :
  exists evs,
    trace (snd (Archive fs w)) = trace w ++ evs /\
    Forall (header_of (tar_of w) (walk_root (tar_of w))) evs.
Proof.
  destruct (Archive_as_walk w) as
    [(post & Ht & Hf & _) | (wr & pre & ds & post & Hpre & Hpost & _ & Ht & _)].
  - exists post. split; [exact Ht|].
    eapply List.Forall_impl; [|exact Hf]. intros e [-> | ->]; exact I.
  - simpl in *.
    destruct (Archive_walk_headers
                (mkWorld (walk_started w wr) (trace w ++ pre) ds))
      as (evs & Ht' & Hf').
    exists (pre ++ evs ++ post). split.
    + rewrite Ht, Ht'. simpl. rewrite <- !app_assoc. reflexivity.
    + assert (Hs : same_settings (walk_started w wr) (tar_of w))
        by (repeat split).
      repeat (apply List.Forall_app; split).
      * eapply List.Forall_impl; [|exact Hpre]. intros e [-> | ->]; exact I.
      * eapply List.Forall_impl; [|exact Hf']. simpl. intros e He.
        unfold walk_root in *.
        destruct (root fs) as [|n].
        -- eapply header_of_settings; eassumption.
        -- rewrite <- (walk_settings n _ _ "." Hs).
           eapply header_of_settings; eassumption.
      * eapply List.Forall_impl; [|exact Hpost]. intros e [-> | ->]; exact I.
Qed.

End RunHeaders.

(** ** Modes of the entries *)

Lemma land_ModeType_0 mode :
  Z.land mode os.ModeType = 0 ->
  Z.land mode os.ModeDir = 0 /\ Z.land mode os.ModeSymlink = 0.
Proof.
  unfold os.ModeType. rewrite !Z.land_lor_distr_r, !Z.lor_eq_0_iff. tauto.
Qed.

Lemma classify_dir f : os.IsDir f = true -> classify f = KDir.
Proof. unfold classify. intros ->. reflexivity. Qed.

Lemma classify_symlink f :
  os.IsDir f = false ->
  Z.land (os.Mode f) os.ModeSymlink = os.ModeSymlink ->
  classify f = KSymlink.
Proof.
  unfold classify. intros -> ->. rewrite Z.eqb_refl. reflexivity.
Qed.

Lemma classify_regular f :
  Z.land (os.Mode f) os.ModeType = 0 -> classify f = KRegular.
Proof.
  intros H. destruct (land_ModeType_0 _ H) as [Hd Hs].
  unfold classify, os.IsDir. rewrite Hd, Hs, H. reflexivity.
Qed.

Section Modes.

Context `{D : Decls}.
Variable fs : filesystem.

(** C8.  In every run, each header written for a directory or for a
    symbolic link has mode 0755 and each header written for a regular
    file has mode 0644 when [IncludePermissions] is false, whatever the
    mode on disk; when [IncludePermissions] is true the header keeps the
    mode [FileInfoHeader] derived from the mode on disk. *)
Theorem Archive_entry_modes (w : world) :
  exists evs,
    trace (snd (Archive fs w)) = trace w ++ evs /\
    forall fullName o h,
      In (EvWriteHeader fullName o h) evs ->
      let mode := os.Mode (info o) in
      (IncludePermissions (tar_of w) = false ->
       (os.IsDir (info o) = true -> tar.Mode h = 493) /\
       (os.IsDir (info o) = false ->
        Z.land mode os.ModeSymlink = os.ModeSymlink -> tar.Mode h = 493) /\
       (Z.land mode os.ModeType = 0 -> tar.Mode h = 420)) /\
      (IncludePermissions (tar_of w) = true ->
       exists h0,
         FileInfoHeader (info o) "" = inr h0 /\ tar.Mode h = tar.Mode h0).
Proof.
  destruct (Archive_headers fs w) as (evs & Ht & Hf).
  exists evs. split; [exact Ht|].
  intros fullName o h Hin.
  rewrite List.Forall_forall in Hf. specialize (Hf _ Hin).
  destruct Hf as (_ & _ & h0 & st & Hfih & _ & _ & Hmode & _).
  split.
  - intros Hp. rewrite Hp in Hmode. repeat split.
    + intros Hd. rewrite (classify_dir _ Hd) in Hmode. exact Hmode.
    + intros Hd Hs. rewrite (classify_symlink _ Hd Hs) in Hmode. exact Hmode.
    + intros Hr. rewrite (classify_regular _ Hr) in Hmode. exact Hmode.
  - intros Hp. rewrite Hp in Hmode. exists h0. split; assumption.
Qed.

End Modes.

(** ** Exclusion *)

Lemma shouldBeExcluded_loop_iff excludes name :
  shouldBeExcluded_loop excludes name = true <->
  exists exclude,
    In exclude excludes /\
    (fst (filepath.Match exclude name) = true \/
     fst (filepath.Match exclude (filepath.Base name)) = true).
Proof.
  induction excludes as [|p excludes IH]; simpl.
  - split; [discriminate | intros (? & [] & _)].
  - destruct (fst (filepath.Match p name)) eqn:H1.
    { split; [|reflexivity]. intros _. exists p. auto. }
    destruct (fst (filepath.Match p (filepath.Base name))) eqn:H2.
    { split; [|reflexivity]. intros _. exists p. auto. }
    rewrite IH. split.
    + intros (q & Hq & Hm). exists q. auto.
    + intros (q & [<- | Hq] & Hm).
      * destruct Hm; congruence.
      * exists q. auto.
Qed.

(** ** Excluded subtrees have no part in a run *)

(** The tree [n] at [fullName] without the listed objects that are
    excluded, at every level. *)
Fixpoint prune (t : Tar) (fullName : string) (n : fsnode) : fsnode :=
  match n with
  | Node o files =>
    Node o
      (List.flat_map
         (fun c =>
            if shouldBeExcluded t (child_name fullName c) then []
            else [prune t (child_name fullName c) c])
         files)
  end.

Lemma prune_object t fullName n :
  node_object (prune t fullName n) = node_object n.
Proof. destruct n; reflexivity. Qed.

Lemma child_name_prune t fullName dir c :
  child_name dir (prune t fullName c) = child_name dir c.
Proof. unfold child_name. rewrite prune_object. reflexivity. Qed.

Lemma walk_excluded t fullName n :
  shouldBeExcluded t fullName = true -> walk t fullName n = [].
Proof. destruct n. simpl. intros ->. reflexivity. Qed.

Lemma walk_prune t n : forall fullName,
  walk t fullName (prune t fullName n) = walk t fullName n.
Proof.
  induction n as [o files IH] using fsnode_ind'. intros fullName. simpl.
  destruct (shouldBeExcluded t fullName); [reflexivity|].
  f_equal. destruct (os.IsDir (info o)); [|reflexivity].
  induction IH as [|c files Hc _ IHfiles]; simpl; [reflexivity|].
  destruct (shouldBeExcluded t (child_name fullName c)) eqn:Hex; simpl.
  - rewrite (walk_excluded _ _ _ Hex). exact IHfiles.
  - rewrite child_name_prune, Hc, IHfiles. reflexivity.
Qed.

Section Exclusion.

Context `{D : Decls}.
Variable fs : filesystem.

(** [fs] with its tree pruned. *)
Definition pruned (t : Tar) : filesystem :=
  mkFilesystem
    (match root fs with
     | inl e => inl e
     | inr n => inr (prune t "." n)
     end)
    (getwd fs).

Lemma visit_filesystem fs' fullName o :
  getwd fs' = getwd fs -> visit fs' fullName o = visit fs fullName o.
Proof.
  intros Hwd. unfold visit. cbn [processEntry]. unfold cleanLinkName.
  rewrite Hwd. reflexivity.
Qed.

Lemma visit_all_filesystem fs' l :
  getwd fs' = getwd fs -> visit_all fs' l = visit_all fs l.
Proof.
  intros Hwd. induction l as [|[fullName o] l IH]; simpl; [reflexivity|].
  rewrite (visit_filesystem fs' fullName o Hwd), IH. reflexivity.
Qed.

Lemma processEntry_prune n fullName w :
  processEntry (pruned (tar_of w)) fullName (prune (tar_of w) fullName n) w =
    processEntry fs fullName n w.
Proof.
  rewrite !processEntry_walk, walk_prune.
  rewrite (visit_all_filesystem (pruned (tar_of w))); reflexivity.
Qed.

Lemma Archive_walk_prune t w :
  same_settings t (tar_of w) ->
  Archive_walk (pruned t) w = Archive_walk fs w.
Proof.
  intros Hs. unfold Archive_walk, pruned. simpl.
  destruct (root fs) as [e|n]; [reflexivity|].
  rewrite !bind_eq, !processEntry_walk.
  rewrite <- (walk_settings (prune t "." n) t (tar_of w)) by exact Hs.
  rewrite walk_prune.
  rewrite (walk_settings n t (tar_of w)) by exact Hs.
  rewrite (visit_all_filesystem (mkFilesystem _ _)); reflexivity.
Qed.

Lemma Archive_prune w : Archive (pruned (tar_of w)) w = Archive fs w.
Proof.
  destruct w as [t tr ds]. unfold Archive, Archive_body. simpl.
  rewrite !bind_eq. simpl. rewrite !bind_eq. simpl.
  destruct (Compression t =? NONE); [|destruct (Compression t =? GZIP)].
  - rewrite !bind_eq. simpl. rewrite !bind_eq. simpl.
    rewrite Archive_walk_prune by (repeat split). reflexivity.
  - rewrite !bind_eq. simpl. rewrite !bind_eq. simpl.
    rewrite !bind_eq. simpl. rewrite !bind_eq. simpl.
    rewrite Archive_walk_prune by (repeat split). reflexivity.
  - reflexivity.
Qed.

(** C7.  A path is excluded exactly when one of the patterns matches,
    as a glob, the path or its last element.  The test comes first in
    [processEntry]: on an excluded path it returns at once and leaves the
    state as it was, whatever lies below the path, so nothing is written
    for it and a directory is not listed.  In a whole run no header is
    written for an excluded path, and the run is the run on the tree
    without the excluded objects and all that lies below them: same
    result, same calls, same final state. *)
Theorem excluded_paths_are_skipped (w : world) :
  (forall fullName,
      shouldBeExcluded (tar_of w) fullName = true <->
      exists exclude,
        In exclude (ExcludedPaths (tar_of w)) /\
        (fst (filepath.Match exclude fullName) = true \/
         fst (filepath.Match exclude (filepath.Base fullName)) = true)) /\
  (forall fullName n,
      shouldBeExcluded (tar_of w) fullName = true ->
      processEntry fs fullName n w = (Return None, w)) /\
  (exists evs,
      trace (snd (Archive fs w)) = trace w ++ evs /\
      forall fullName o h,
        In (EvWriteHeader fullName o h) evs ->
        shouldBeExcluded (tar_of w) fullName = false) /\
  Archive (pruned (tar_of w)) w = Archive fs w.
Proof.
  split; [|split; [|split]].
  - intros fullName. apply shouldBeExcluded_loop_iff.
  - intros fullName [o files] Hex. cbn [processEntry].
    rewrite bind_get_tar, Hex. reflexivity.
  - destruct (Archive_headers fs w) as (evs & Ht & Hf).
    exists evs. split; [exact Ht|].
    intros fullName o h Hin.
    rewrite List.Forall_forall in Hf. specialize (Hf _ Hin).
    destruct Hf as (_ & Hex & _). exact Hex.
  - apply Archive_prune.
Qed.

End Exclusion.

(** ** Paths made of ordinary elements *)

(** No separator in [s]. *)
Fixpoint no_separator (s : string) : bool :=
  match s with
  | EmptyString => true
  | String c rest => negb (filepath.IsPathSeparator c) && no_separator rest
  end.

(** An ordinary file name: not empty, no separator, neither [.] nor [..]. *)
Definition plain (e : string) : bool :=
  no_separator e && negb (String.eqb e "") && negb (String.eqb e ".")
  && negb (String.eqb e "..").

(** An element [Clean] drops or keeps as it is. *)
Definition ordinary (e : string) : bool :=
  plain e || String.eqb e "" || String.eqb e ".".

Lemma elements_not_nil s : filepath.elements s <> [].
Proof.
  destruct s as [|c s]; simpl; [discriminate|].
  destruct (filepath.IsPathSeparator c); [discriminate|].
  destruct (filepath.elements s); discriminate.
Qed.

Lemma elements_no_separator e :
  no_separator e = true -> filepath.elements e = [e].
Proof.
  induction e as [|c e IH]; simpl; [reflexivity|].
  intros H. apply andb_prop in H as [Hc He].
  apply negb_true_iff in Hc. rewrite Hc, (IH He). reflexivity.
Qed.

Lemma elements_app_separator s1 s2 :
  filepath.elements (s1 +:+ "/" +:+ s2) =
    filepath.elements s1 ++ filepath.elements s2.
Proof.
  induction s1 as [|c s1 IH]; simpl.
  - reflexivity.
  - rewrite IH. destruct (filepath.IsPathSeparator c); [reflexivity|].
    pose proof (elements_not_nil s1).
    destruct (filepath.elements s1); [contradiction | reflexivity].
Qed.

Lemma Join_cons e es :
  es <> [] -> strings.Join (e :: es) "/" = e +:+ "/" +:+ strings.Join es "/".
Proof. destruct es; [contradiction | reflexivity]. Qed.

Lemma elements_Join es :
  es <> [] -> Forall (fun e => no_separator e = true) es ->
  filepath.elements (strings.Join es "/") = es.
Proof.
  intros Hne H. induction H as [|e es He Hes IH]; [contradiction|].
  destruct es as [|e' es].
  - simpl. apply elements_no_separator. exact He.
  - rewrite Join_cons by discriminate. rewrite elements_app_separator.
    rewrite IH by discriminate. rewrite elements_no_separator by exact He.
    reflexivity.
Qed.

Lemma plain_no_separator e : plain e = true -> no_separator e = true.
Proof.
  unfold plain. intros H. repeat (apply andb_prop in H as [H ?]). exact H.
Qed.

Lemma clean_step_plain rooted out e :
  plain e = true -> filepath.clean_step rooted out e = e :: out.
Proof.
  unfold plain, filepath.clean_step. intros H.
  repeat (apply andb_prop in H as [H ?]).
  repeat match goal with
         | H : negb _ = true |- _ => apply negb_true_iff in H; rewrite H
         end.
  reflexivity.
Qed.

Lemma clean_step_ordinary rooted out e :
  ordinary e = true ->
  filepath.clean_step rooted out e = if plain e then e :: out else out.
Proof.
  unfold ordinary. destruct (plain e) eqn:Hp.
  - intros _. apply clean_step_plain. exact Hp.
  - simpl. intros H. unfold filepath.clean_step. rewrite H. reflexivity.
Qed.

Lemma clean_fold_ordinary rooted es : forall out,
  Forall (fun e => ordinary e = true) es ->
  fold_left (filepath.clean_step rooted) es out = rev (List.filter plain es) ++ out.
Proof.
  induction es as [|e es IH]; intros out H; simpl; [reflexivity|].
  apply Forall_cons in H as [He Hes].
  rewrite clean_step_ordinary by exact He. rewrite IH by exact Hes.
  destruct (plain e); simpl; [|reflexivity].
  rewrite <- app_assoc. reflexivity.
Qed.

Lemma IsAbs_cons c s : filepath.IsAbs (String c s) = filepath.IsPathSeparator c.
Proof.
  unfold filepath.IsAbs, strings.HasPrefix, filepath.IsPathSeparator,
    filepath.Separator.
  change (String.prefix "/" (String c s))
    with (if ascii_dec "/" c then String.prefix "" s else false).
  destruct (ascii_dec "/" c) as [<-|Hne].
  - destruct s; reflexivity.
  - symmetry. apply Ascii.eqb_neq. congruence.
Qed.

Lemma plain_cons e :
  plain e = true ->
  exists c rest, e = String c rest /\ filepath.IsPathSeparator c = false.
Proof.
  unfold plain. destruct e as [|c rest]; simpl.
  - discriminate.
  - intros H. repeat (apply andb_prop in H as [H ?]).
    apply negb_true_iff in H. eauto.
Qed.

Lemma Join_plain_cons e es :
  plain e = true ->
  exists c rest,
    strings.Join (e :: es) "/" = String c rest /\
    filepath.IsPathSeparator c = false.
Proof.
  intros H. destruct (plain_cons e H) as (c & rest & -> & Hc).
  destruct es as [|e' es].
  - exists c, rest. auto.
  - exists c, (rest +:+ "/" +:+ strings.Join (e' :: es) "/"). auto.
Qed.

Lemma filter_plain_all es :
  Forall (fun e => plain e = true) es -> List.filter plain es = es.
Proof.
  induction 1 as [|e es He _ IH]; simpl; [reflexivity|].
  rewrite He, IH. reflexivity.
Qed.

Lemma plain_ordinary es :
  Forall (fun e => plain e = true) es -> Forall (fun e => ordinary e = true) es.
Proof.
  apply List.Forall_impl. intros e He. unfold ordinary. rewrite He. reflexivity.
Qed.

Lemma filter_plain_Forall es : Forall (fun e => plain e = true) (List.filter plain es).
Proof.
  induction es as [|e es IH]; simpl; [constructor|].
  destruct (plain e) eqn:He; [constructor; assumption | exact IH].
Qed.

(** [Clean] of a path that is not rooted and has no [..]: the ordinary
    names among its elements, joined. *)
Lemma Clean_ordinary s :
  filepath.IsAbs s = false ->
  Forall (fun e => ordinary e = true) (filepath.elements s) ->
  List.filter plain (filepath.elements s) <> [] ->
  filepath.Clean s = strings.Join (List.filter plain (filepath.elements s)) "/".
Proof.
  intros Habs Hord Hne. unfold filepath.Clean.
  destruct (String.eqb_spec s "") as [->|_]; [contradiction Hne; reflexivity|].
  rewrite Habs, clean_fold_ordinary by exact Hord.
  rewrite app_nil_r, rev_involutive.
  pose proof (filter_plain_Forall (filepath.elements s)) as Hp.
  destruct (List.filter plain (filepath.elements s)) as [|e es];
    [contradiction|].
  apply Forall_cons in Hp as [He _].
  destruct (Join_plain_cons e es He) as (c & rest & -> & _). reflexivity.
Qed.

Lemma Clean_plain_Join qs :
  qs <> [] -> Forall (fun e => plain e = true) qs ->
  filepath.Clean (strings.Join qs "/") = strings.Join qs "/".
Proof.
  intros Hne Hp.
  assert (He : filepath.elements (strings.Join qs "/") = qs).
  { apply elements_Join; [exact Hne|].
    eapply List.Forall_impl; [|exact Hp]. apply plain_no_separator. }
  rewrite Clean_ordinary; rewrite ?He.
  - rewrite filter_plain_all by exact Hp. reflexivity.
  - destruct qs as [|q qs]; [contradiction|].
    apply Forall_cons in Hp as [Hq _].
    destruct (Join_plain_cons q qs Hq) as (c & rest & -> & Hc).
    rewrite IsAbs_cons. exact Hc.
  - apply plain_ordinary. exact Hp.
  - rewrite filter_plain_all by exact Hp. exact Hne.
Qed.

Lemma append_assoc (s1 s2 s3 : string) :
  (s1 +:+ s2) +:+ s3 = s1 +:+ (s2 +:+ s3).
Proof.
  induction s1 as [|c s1 IH]; [reflexivity|].
  change (String c ((s1 +:+ s2) +:+ s3) = String c (s1 +:+ (s2 +:+ s3))).
  f_equal. exact IH.
Qed.

Lemma Join_app es1 es2 :
  es1 <> [] -> es2 <> [] ->
  strings.Join (es1 ++ es2) "/" =
    strings.Join es1 "/" +:+ "/" +:+ strings.Join es2 "/".
Proof.
  intros H1 H2. induction es1 as [|e es1 IH]; [contradiction|].
  destruct es1 as [|e' es1].
  - change ([e] ++ es2) with (e :: es2). apply Join_cons. exact H2.
  - change ((e :: e' :: es1) ++ es2) with (e :: e' :: es1 ++ es2).
    rewrite (Join_cons e (e' :: es1 ++ es2)) by discriminate.
    rewrite (Join_cons e (e' :: es1)) by discriminate.
    change (e' :: es1 ++ es2) with ((e' :: es1) ++ es2).
    rewrite IH by discriminate.
    rewrite !append_assoc. reflexivity.
Qed.

(** The relative path with the elements [fs]; the root is [.]. *)
Definition rel_name (fs : list string) : string :=
  match fs with
  | [] => "."
  | _ => strings.Join fs "/"
  end.

Lemma elements_rel_name fs :
  Forall (fun e => plain e = true) fs ->
  Forall (fun e => ordinary e = true) (filepath.elements (rel_name fs)) /\
  List.filter plain (filepath.elements (rel_name fs)) = fs.
Proof.
  intros Hp. destruct fs as [|f fs].
  - simpl. split; [repeat constructor | reflexivity].
  - unfold rel_name. rewrite elements_Join.
    + split; [apply plain_ordinary; exact Hp | apply filter_plain_all; exact Hp].
    + discriminate.
    + eapply List.Forall_impl; [|exact Hp]. apply plain_no_separator.
Qed.

(** [fullName] of a child: the elements of the directory and the child's
    name. *)
Lemma Join_child fs name :
  Forall (fun e => plain e = true) fs -> plain name = true ->
  filepath.Join [rel_name fs; name] = rel_name (fs ++ [name]).
Proof.
  intros Hfs Hname.
  assert (Hne : String.eqb (rel_name fs) "" = false).
  { destruct fs as [|f fs]; [reflexivity|].
    apply Forall_cons in Hfs as [Hf _].
    destruct (Join_plain_cons f fs Hf) as (c & rest & H & _).
    unfold rel_name. rewrite H. reflexivity. }
  unfold filepath.Join. rewrite Hne.
  change (strings.Join [rel_name fs; name] "/")
    with (rel_name fs +:+ "/" +:+ name).
  destruct (elements_rel_name fs Hfs) as [Hord Hfilter].
  rewrite Clean_ordinary.
  - rewrite elements_app_separator, List.filter_app, Hfilter.
    rewrite elements_no_separator by (apply plain_no_separator; exact Hname).
    simpl. rewrite Hname. destruct fs; reflexivity.
  - destruct fs as [|f fs]; [reflexivity|].
    apply Forall_cons in Hfs as [Hf _].
    destruct (Join_plain_cons f fs Hf) as (c & rest & H & Hc).
    unfold rel_name. rewrite H.
    change (String c rest +:+ "/" +:+ name)
      with (String c (rest +:+ "/" +:+ name)).
    rewrite IsAbs_cons. exact Hc.
  - rewrite elements_app_separator. apply Forall_app. split; [exact Hord|].
    rewrite elements_no_separator by (apply plain_no_separator; exact Hname).
    repeat constructor. unfold ordinary. rewrite Hname. reflexivity.
  - rewrite elements_app_separator, List.filter_app, Hfilter.
    rewrite elements_no_separator by (apply plain_no_separator; exact Hname).
    simpl. rewrite Hname. destruct fs; discriminate.
Qed.

(** [header.Name] under a virtual path: the ordinary names of the virtual
    path, then the elements of the relative path. *)
Lemma entryName_virtual t fs ps :
  Forall (fun e => ordinary e = true) (filepath.elements (VirtualPath t)) ->
  List.filter plain (filepath.elements (VirtualPath t)) = ps ->
  ps <> [] ->
  Forall (fun e => plain e = true) fs ->
  entryName t (rel_name fs) = strings.Join (ps ++ fs) "/".
Proof.
  intros Hord Hps Hne Hfs. unfold entryName.
  destruct (String.eqb_spec (VirtualPath t) "") as [Hvp|_].
  { rewrite Hvp in Hps. simpl in Hps. subst ps. contradiction. }
  simpl negb. cbv iota.
  assert (Hp : Forall (fun e => plain e = true) (ps ++ fs)).
  { apply Forall_app. split; [|exact Hfs]. subst ps. apply filter_plain_Forall. }
  assert (Hne' : ps ++ fs <> []) by (destruct ps; [contradiction | discriminate]).
  destruct (elements_rel_name fs Hfs) as [Hordf Hfilter].
  change (filepath.Join ["."; VirtualPath t; "./" +:+ rel_name fs])
    with (filepath.Clean ("." +:+ "/" +:+ (VirtualPath t
                            +:+ "/" +:+ ("." +:+ "/" +:+ rel_name fs)))).
  rewrite (Clean_ordinary ("." +:+ _)).
  - rewrite !elements_app_separator, !List.filter_app, Hps, Hfilter. simpl.
    apply Clean_plain_Join; assumption.
  - reflexivity.
  - rewrite !elements_app_separator.
    repeat (apply Forall_app; split); try assumption; repeat constructor.
  - rewrite !elements_app_separator, !List.filter_app, Hps, Hfilter. simpl.
    exact Hne'.
Qed.

(** Every name in the listings below [n] is an ordinary file name. *)
Fixpoint plain_tree (n : fsnode) : bool :=
  match n with
  | Node _ files =>
    forallb (fun c => plain (os.Name (info (node_object c))) && plain_tree c)
            files
  end.

Lemma walk_rel_names t n : forall fs,
  plain_tree n = true ->
  Forall (fun e => plain e = true) fs ->
  forall x o, In (x, o) (walk t (rel_name fs) n) ->
  exists fs', Forall (fun e => plain e = true) fs' /\ x = rel_name fs'.
Proof.
  induction n as [o files IH] using fsnode_ind'. intros fs Hn Hfs x o' Hin.
  simpl in Hin.
  destruct (shouldBeExcluded t (rel_name fs)); [contradiction|].
  destruct Hin as [Heq | Hin].
  { injection Heq as <- _. exists fs. auto. }
  destruct (os.IsDir (info o)); [|contradiction].
  apply in_flat_map in Hin as (c & Hc & Hin).
  simpl in Hn. rewrite forallb_forall in Hn.
  specialize (Hn c Hc). apply andb_prop in Hn as [Hname Htree].
  rewrite List.Forall_forall in IH.
  unfold child_name in Hin. rewrite Join_child in Hin by assumption.
  eapply (IH c Hc (fs ++ [os.Name (info (node_object c))])); eauto.
  apply Forall_app. split; [exact Hfs | repeat constructor; exact Hname].
Qed.

Lemma prefix_cons a s1 b s2 :
  String.prefix (String a s1) (String b s2) =
    if ascii_dec a b then String.prefix s1 s2 else false.
Proof. reflexivity. Qed.

Lemma prefix_append a b : String.prefix a (a +:+ b) = true.
Proof.
  induction a as [|c a IH].
  - destruct b; reflexivity.
  - change (String c a +:+ b) with (String c (a +:+ b)). rewrite prefix_cons.
    destruct (ascii_dec c c); [exact IH | contradiction].
Qed.

Lemma plain_not_dot_slash p rest :
  plain p = true -> String.prefix "./" (p +:+ rest) = false.
Proof.
  intros Hp. unfold plain in Hp.
  repeat (apply andb_prop in Hp as [Hp ?]).
  destruct p as [|c p]; [discriminate|].
  change (String c p +:+ rest) with (String c (p +:+ rest)).
  rewrite prefix_cons.
  destruct (ascii_dec "." c) as [<-|]; [|reflexivity].
  destruct p as [|d p]; [discriminate|].
  change (String d p +:+ rest) with (String d (p +:+ rest)).
  rewrite prefix_cons.
  simpl in Hp. apply andb_prop in Hp as [Hd _].
  destruct (ascii_dec "/" d) as [<-|]; [discriminate | reflexivity].
Qed.

Lemma append_nil_r (s : string) : s +:+ "" = s.
Proof.
  induction s as [|c s IH]; [reflexivity|].
  change (String c (s +:+ "") = String c s). f_equal. exact IH.
Qed.

Lemma Join_head p l : exists rest, strings.Join (p :: l) "/" = p +:+ rest.
Proof.
  destruct l as [|q l].
  - exists "". symmetry. apply append_nil_r.
  - exists ("/" +:+ strings.Join (q :: l) "/"). reflexivity.
Qed.

(** ** Names of the entries *)

Section Names.

Context `{D : Decls}.
Variable fs : filesystem.

(** C1 (as the code has it).  Without a virtual path every entry name
    is [./] followed by the relative path of the object, with a final [/]
    for a directory.  With a virtual path whose elements are ordinary
    names (a leading [/], empty elements and [.] are dropped by the
    cleaning), every entry name is the cleaned virtual path, followed by
    [/] and the relative path unless the object is the root, with a final
    [/] for a directory: the name does not start with [./]. *)
Theorem Archive_entry_names (w : world) :
  exists evs,
    trace (snd (Archive fs w)) = trace w ++ evs /\
    forall fullName o h,
      In (EvWriteHeader fullName o h) evs ->
      let vp := VirtualPath (tar_of w) in
      (vp = "" ->
       tar.Name h = (if os.IsDir (info o) then "./" +:+ fullName +:+ "/"
                     else "./" +:+ fullName) /\
       strings.HasPrefix (tar.Name h) "./" = true) /\
      (Forall (fun e => ordinary e = true) (filepath.elements vp) ->
       List.filter plain (filepath.elements vp) <> [] ->
       forall n, root fs = inr n -> plain_tree n = true ->
       let cleaned := strings.Join (List.filter plain (filepath.elements vp)) "/" in
       exists rel,
         (rel = "" /\ fullName = "." \/ rel = "/" +:+ fullName) /\
         tar.Name h = (if os.IsDir (info o) then cleaned +:+ rel +:+ "/"
                       else cleaned +:+ rel) /\
         strings.HasPrefix (tar.Name h) "./" = false).
Proof.
  destruct (Archive_headers fs w) as (evs & Ht & Hf).
  exists evs. split; [exact Ht|].
  intros fullName o h Hin vp.
  rewrite List.Forall_forall in Hf. specialize (Hf _ Hin).
  destruct Hf as (Hwalk & _ & h0 & st & _ & _ & Hname & _).
  split.
  - intros Hvp. unfold entryName in Hname. fold vp in Hname.
    rewrite Hvp in Hname. simpl in Hname. split.
    + rewrite Hname. destruct (os.IsDir (info o)); [|reflexivity].
      apply append_assoc.
    + rewrite Hname. unfold strings.HasPrefix.
      destruct (os.IsDir (info o)); rewrite ?append_assoc; apply prefix_append.
  - intros Hord Hne n Hroot Htree cleaned.
    unfold walk_root in Hwalk. rewrite Hroot in Hwalk.
    destruct (walk_rel_names (tar_of w) n [] Htree (List.Forall_nil _) _ _ Hwalk)
      as (fs' & Hfs' & ->).
    rewrite (entryName_virtual (tar_of w) fs' _ Hord eq_refl Hne Hfs') in Hname.
    fold vp in Hname.
    pose proof (filter_plain_Forall (filepath.elements vp)) as Hp.
    destruct (List.filter plain (filepath.elements vp)) as [|p ps] eqn:Hps;
      [contradiction|].
    apply Forall_cons in Hp as [Hp _].
    assert (Hrel : exists rel,
               (rel = "" /\ rel_name fs' = "." \/ rel = "/" +:+ rel_name fs') /\
               strings.Join ((p :: ps) ++ fs') "/" = cleaned +:+ rel).
    { destruct fs' as [|f fs'].
      - exists "". split; [left; auto|]. rewrite app_nil_r.
        symmetry. apply append_nil_r.
      - exists ("/" +:+ rel_name (f :: fs')). split; [right; reflexivity|].
        apply Join_app; discriminate. }
    destruct Hrel as (rel & Hrel & Hjoin).
    exists rel. split; [exact Hrel|]. split.
    + rewrite Hname, Hjoin. destruct (os.IsDir (info o)); [|reflexivity].
      apply append_assoc.
    + rewrite Hname. unfold strings.HasPrefix.
      destruct (Join_head p (ps ++ fs')) as (rest & Hrest).
      change ((p :: ps) ++ fs') with (p :: ps ++ fs'). rewrite Hrest.
      destruct (os.IsDir (info o)); rewrite ?append_assoc;
        apply plain_not_dot_slash; exact Hp.
Qed.

End Names.

(** ** Hard links *)

(** An entry of the archive as a reader finds it: the header, the data
    copied after it up to the next header (one string for each [io.Copy]),
    and the object the header was written for. *)
Record entry : Type := mkEntry {
  e_path : string;
  e_object : object;
  e_header : tar.Header;
  e_data : list string
}.

(** The data copied before the next header. *)
Fixpoint data_of (tr : list event) : list string :=
  match tr with
  | [] => []
  | EvWriteHeader _ _ _ :: _ => []
  | EvCopy data :: rest => data :: data_of rest
  | _ :: rest => data_of rest
  end.

Fixpoint entries (tr : list event) : list entry :=
  match tr with
  | [] => []
  | EvWriteHeader fullName o h :: rest =>
    mkEntry fullName o h (data_of rest) :: entries rest
  | _ :: rest => entries rest
  end.

(** The inode under which the regular-file branch looks [o] up in the
    hard-link table: [o] is a regular file with more than one link. *)
Definition link_inode (o : object) : option Z :=
  if Z.land (os.Mode (info o)) os.ModeType =? 0 then
    match os.Sys (info o) with
    | Some st => if 1 <? syscall.Nlink st then Some (syscall.Ino st) else None
    | None => None
    end
  else None.

Definition hard_linked (i : Z) (e : entry) : bool :=
  match link_inode (e_object e) with
  | Some ino => ino =? i
  | None => false
  end.

Lemma data_of_app tr1 tr2 :
  data_of tr1 = [] -> entries tr1 = [] -> data_of (tr1 ++ tr2) = data_of tr2.
Proof.
  induction tr1 as [|e tr1 IH]; simpl; [reflexivity|].
  destruct e; simpl; try discriminate; auto.
Qed.

Lemma entries_app tr1 tr2 :
  data_of tr2 = [] -> entries (tr1 ++ tr2) = entries tr1 ++ entries tr2.
Proof.
  intros H2. induction tr1 as [|e tr1 IH]; simpl; [reflexivity|].
  destruct e; simpl; try exact IH.
  rewrite IH. f_equal. f_equal.
  clear IH. induction tr1 as [|e tr1 IH]; simpl; [exact H2|].
  destruct e; simpl; try exact IH; try reflexivity.
  f_equal. exact IH.
Qed.

Lemma IsDir_not_regular f :
  os.IsDir f = true -> (Z.land (os.Mode f) os.ModeType =? 0) = false.
Proof.
  intros Hd. apply Z.eqb_neq. intros H.
  apply land_ModeType_0 in H as [H _].
  unfold os.IsDir in Hd. rewrite H in Hd. discriminate.
Qed.

Lemma symlink_not_regular f :
  (Z.land (os.Mode f) os.ModeSymlink =? os.ModeSymlink) = true ->
  (Z.land (os.Mode f) os.ModeType =? 0) = false.
Proof.
  intros Hs. apply Z.eqb_neq. intros H.
  apply land_ModeType_0 in H as [_ H].
  rewrite H in Hs. discriminate.
Qed.

Section HardLinks.

Context `{D : Decls}.
Variable fs : filesystem.

Hypothesis TypeReg_TypeLink : TypeReg <> TypeLink.

(** What one visit does to the hard-link table and which entry it
    writes. *)
Definition visit_effect (fullName : string) (o : object)
           (r : result (option error)) (hl hl' : gmap Z string)
           (es : list entry) : Prop :=
  (es = [] /\ hl' = hl) \/
  exists h d,
    es = [mkEntry fullName o h d] /\
    match link_inode o with
    | Some ino =>
      match hl !! ino with
      | Some dst =>
        tar.Typeflag h = TypeLink /\ tar.Size h = 0 /\ tar.Linkname h = dst /\
        d = [] /\ hl' = hl
      | None =>
        hl' = <[ino := tar.Name h]> hl /\
        (exists h0, FileInfoHeader (info o) "" = inr h0 /\
                    tar.Typeflag h = tar.Typeflag h0 /\
                    tar.Size h = tar.Size h0) /\
        (r = Return None -> tar.Typeflag h = TypeReg -> d = [fst (copy o)])
      end
    | None => hl' = hl
    end.

Lemma visit_summary fullName o w :
  archive (tar_of w) <> None ->
  exists evs,
    trace (snd (visit fs fullName o w)) = trace w ++ evs /\
    data_of evs = [] /\
    visit_effect fullName o (fst (visit fs fullName o w))
                 (hardLinks (tar_of w))
                 (hardLinks (tar_of (snd (visit fs fullName o w))))
                 (entries evs).
Proof.
  intros Harch.
  destruct (archive (tar_of w)) as [wr|] eqn:Hwr; [clear Harch|contradiction].
  unfold visit. cbn [processEntry]. rewrite bind_get_tar.
  destruct (shouldBeExcluded (tar_of w) fullName) eqn:Hex.
  { exists []. repeat split; [trace_eq|]. left. auto. }
  destruct (FileInfoHeader (info o) "") as [e|h0] eqn:Hfih.
  { exists []. repeat split; [trace_eq|]. left. auto. }
  destruct (os.Sys (info o)) as [st|] eqn:Hsys.
  2:{ exists []. repeat split; [trace_eq|]. left. auto. }
  unfold visit_effect, link_inode. rewrite Hsys.
  destruct (os.IsDir (info o)) eqn:Hdir.
  { rewrite (IsDir_not_regular _ Hdir).
    unfold processDirectory_with. run_monad. rewrite ?Hwr.
    crush_matches; try congruence;
      (eexists; split; [trace_eq|]; split; [reflexivity|]);
      right; eexists; eexists; split; reflexivity. }
  destruct (Z.land (os.Mode (info o)) os.ModeSymlink =? os.ModeSymlink) eqn:Hsym.
  { rewrite (symlink_not_regular _ Hsym).
    unfold cleanLinkName. run_monad. rewrite ?Hwr.
    crush_matches; try congruence;
      (eexists; split; [trace_eq|]; split; [reflexivity|]);
      first [ left; split; reflexivity
            | right; eexists; eexists; split; reflexivity ]. }
  destruct (Z.land (os.Mode (info o)) os.ModeType =? 0) eqn:Hreg.
  { unfold processRegular. run_monad. rewrite ?Hwr.
    destruct (1 <? syscall.Nlink st) eqn:Hn; simpl.
    - destruct (hardLinks (tar_of w) !! syscall.Ino st) as [dst|] eqn:Hl; simpl.
      + rewrite (proj2 (Z.eqb_neq TypeLink TypeReg)) by congruence.
        crush_matches; try congruence;
          (eexists; split; [trace_eq|]; split; [reflexivity|]);
          right; eexists; eexists; (split; [reflexivity|]);
          repeat split.
      + crush_matches; try congruence;
          (eexists; split; [trace_eq|]; split; [reflexivity|]);
          right; eexists; eexists; (split; [reflexivity|]);
          (split; [reflexivity|]);
          (split; [exists h0; repeat split|]);
          intros; simpl in *;
          repeat match goal with
                 | H : (_ =? _) = false |- _ => apply Z.eqb_neq in H
                 end;
          try discriminate; try congruence; reflexivity.
    - crush_matches; try congruence;
        (eexists; split; [trace_eq|]; split; [reflexivity|]);
        right; eexists; eexists; split; reflexivity. }
  destruct ((Z.land (os.Mode (info o)) os.ModeDevice =? os.ModeDevice)
            || (Z.land (os.Mode (info o)) os.ModeCharDevice =? os.ModeCharDevice))
    eqn:Hdev.
  { unfold processDevice. run_monad. rewrite ?Hwr.
    crush_matches; try congruence;
      (eexists; split; [trace_eq|]; split; [reflexivity|]);
      first [ left; split; reflexivity
            | right; eexists; eexists; split; reflexivity ]. }
  destruct (Z.land (os.Mode (info o)) os.ModeSocket =? os.ModeSocket);
    exists []; (repeat split; [trace_eq|]); left; auto.
Qed.

(** The entry [e] is a link to the name [dst]. *)
Definition is_link_to (dst : string) (e : entry) : Prop :=
  tar.Typeflag (e_header e) = TypeLink /\
  tar.Size (e_header e) = 0 /\
  tar.Linkname (e_header e) = dst /\
  e_data e = [].

(** The header of [e] has the type and the size [FileInfoHeader] gave. *)
Definition keeps_type_and_size (e : entry) : Prop :=
  exists h0,
    FileInfoHeader (info (e_object e)) "" = inr h0 /\
    tar.Typeflag (e_header e) = tar.Typeflag h0 /\
    tar.Size (e_header e) = tar.Size h0.

(** How the table [hl] and the entries [es] written so far agree on the
    inode [i]: the inode is in the table exactly when an entry was
    written for a regular file with that inode and more than one link; the
    first such entry is under the name the table holds and the later ones
    are links to it.  The data of the first entry is what [io.Copy]
    delivered as soon as its visit has returned nil, which [complete]
    asserts and which is the case when a later entry exists. *)
Definition linked (complete : bool) (i : Z) (hl : gmap Z string)
           (es : list entry) : Prop :=
  match hl !! i with
  | None => List.filter (hard_linked i) es = []
  | Some dst =>
    exists first links,
      List.filter (hard_linked i) es = first :: links /\
      tar.Name (e_header first) = dst /\
      keeps_type_and_size first /\
      Forall (is_link_to dst) links /\
      (complete = true \/ links <> [] ->
       tar.Typeflag (e_header first) = TypeReg ->
       e_data first = [fst (copy (e_object first))])
  end.

Lemma linked_weaken i hl es : linked true i hl es -> linked false i hl es.
Proof.
  unfold linked. destruct (hl !! i); [|exact id].
  intros (first & links & Hf & Hn & Hk & Hl & Hd).
  exists first, links. repeat split; auto.
Qed.

Lemma visit_linked i fullName o r hl hl' es es1 :
  visit_effect fullName o r hl hl' es1 ->
  linked true i hl es ->
  linked false i hl' (es ++ es1) /\
  (r = Return None -> linked true i hl' (es ++ es1)).
Proof.
  intros [[-> ->] | (h & d & -> & Heff)] Hinv.
  { rewrite app_nil_r. split; [apply linked_weaken|]; auto. }
  assert (Hsame : hard_linked i (mkEntry fullName o h d) = false ->
                  hl' !! i = hl !! i ->
                  forall c, linked c i hl es -> linked c i hl' (es ++ [mkEntry fullName o h d])).
  { intros Hhl Hi c. unfold linked. rewrite Hi, List.filter_app. simpl.
    rewrite Hhl, app_nil_r. exact id. }
  unfold hard_linked in Hsame. simpl in Hsame.
  destruct (link_inode o) as [ino|] eqn:Hino.
  2:{ subst hl'. split; [apply Hsame; auto; apply linked_weaken|]; auto. }
  destruct (Z.eqb_spec ino i) as [->|Hne].
  2:{ assert (Hi : hl' !! i = hl !! i).
      { destruct (hl !! ino); [destruct Heff as (_ & _ & _ & _ & ->); reflexivity|].
        destruct Heff as (-> & _). apply lookup_insert_ne. exact Hne. }
      split; [apply Hsame; auto; apply linked_weaken|]; auto. }
  clear Hsame.
  assert (Hhl : forall d', hard_linked i (mkEntry fullName o h d') = true).
  { intros d'. unfold hard_linked. simpl. rewrite Hino. apply Z.eqb_refl. }
  unfold linked in *. rewrite List.filter_app. simpl. rewrite Hhl.
  destruct (hl !! i) as [dst|] eqn:Hl.
  - destruct Heff as (Htf & Hsz & Hln & -> & ->). rewrite Hl.
    destruct Hinv as (first & links & Hf & Hn & Hk & Hlinks & Hd).
    assert (Hnew : Forall (is_link_to dst)
                          (links ++ [mkEntry fullName o h []])).
    { apply Forall_app. split; [exact Hlinks|].
      repeat constructor; assumption. }
    split; [|intros _];
      exists first, (links ++ [mkEntry fullName o h []]);
      rewrite Hf; repeat split; auto.
  - destruct Heff as (-> & Hk & Hd). rewrite lookup_insert_eq, Hinv.
    split; [|intros Hr];
      exists (mkEntry fullName o h d), []; repeat split; auto.
    intros [?|?]; [discriminate | contradiction].
Qed.

Lemma data_of_app_nil tr1 tr2 :
  data_of tr1 = [] -> data_of tr2 = [] -> data_of (tr1 ++ tr2) = [].
Proof.
  intros H1 H2. induction tr1 as [|e tr1 IH]; simpl; [exact H2|].
  destruct e; simpl in *; auto; discriminate.
Qed.

Lemma visit_all_linked i l : forall w es,
  archive (tar_of w) <> None ->
  linked true i (hardLinks (tar_of w)) es ->
  exists evs,
    trace (snd (visit_all fs l w)) = trace w ++ evs /\
    data_of evs = [] /\
    linked false i (hardLinks (tar_of (snd (visit_all fs l w))))
           (es ++ entries evs) /\
    (fst (visit_all fs l w) = Return None ->
     linked true i (hardLinks (tar_of (snd (visit_all fs l w))))
            (es ++ entries evs)).
Proof.
  induction l as [|[fullName o] l IH]; intros w es Harch Hinv; simpl.
  - exists []. simpl. rewrite !app_nil_r.
    split; [reflexivity|]. split; [reflexivity|].
    split; [apply linked_weaken; exact Hinv | intros _; exact Hinv].
  - rewrite bind_eq.
    destruct (visit_summary fullName o w Harch) as (evs1 & Ht1 & Hd1 & Heff).
    pose proof (framed_visit fs fullName o w) as (Hcfg & _).
    destruct (visit_linked i _ _ _ _ _ es _ Heff Hinv) as [Hweak Hstrong].
    destruct (visit fs fullName o w) as [[[e|]|] w1]; simpl in *.
    1,3: exists evs1; repeat split; auto; discriminate.
    assert (Harch1 : archive (tar_of w1) <> None).
    { change (archive (config (tar_of w1)) <> None). rewrite Hcfg. exact Harch. }
    destruct (IH w1 (es ++ entries evs1) Harch1 (Hstrong eq_refl))
      as (evs2 & Ht2 & Hd2 & Hweak2 & Hstrong2).
    exists (evs1 ++ evs2).
    split; [rewrite Ht2, Ht1; symmetry; apply app_assoc|].
    split; [apply data_of_app_nil; assumption|].
    rewrite entries_app by exact Hd2. rewrite app_assoc.
    split; assumption.
Qed.

Lemma entries_opening wr pre tr :
  Forall (fun e => e = EvGzipNewWriter \/ e = EvTarNewWriter wr) pre ->
  entries (pre ++ tr) = entries tr.
Proof.
  induction 1 as [|e pre [-> | ->] _ IH]; simpl; auto.
Qed.

Lemma entries_closing post :
  Forall (fun e => e = EvTarClose \/ e = EvGzipClose) post ->
  data_of post = [] /\ entries post = [].
Proof.
  induction 1 as [|e post [-> | ->] _ IH]; simpl; auto.
Qed.

Hypothesis FileInfoHeader_regular :
  forall f h0,
    FileInfoHeader f "" = inr h0 ->
    Z.land (os.Mode f) os.ModeType = 0 ->
    tar.Typeflag h0 = TypeReg.

Lemma hard_linked_regular i e :
  hard_linked i e = true ->
  Z.land (os.Mode (info (e_object e))) os.ModeType = 0.
Proof.
  unfold hard_linked, link_inode.
  destruct (Z.eqb_spec (Z.land (os.Mode (info (e_object e))) os.ModeType) 0);
    [auto | discriminate].
Qed.

(** C3.  Start a run with no entry for the inode [i] in the hard-link
    table, and take the entries it writes for regular files with inode
    [i] and more than one link, in the order of the walk.  The first one
    is a full entry: it has the type flag of a regular file and the size
    [FileInfoHeader] gave, it is the one the table holds under [i], and
    its data is what [io.Copy] delivered from the file (once its visit has
    returned nil, so whenever a later entry exists or the run succeeded).
    Every later one is a link: type flag [TypeLink], size zero, link name
    equal to the name of the first, and no data.  The inode is in the
    table exactly when there is such an entry, so a file with one link
    never enters the table. *)
Theorem Archive_hard_links (w : world) (i : Z) :
  hardLinks (tar_of w) !! i = None ->
  exists evs,
    trace (snd (Archive fs w)) = trace w ++ evs /\
    let hits := List.filter (hard_linked i) (entries evs) in
    match hardLinks (tar_of (snd (Archive fs w))) !! i with
    | None => hits = []
    | Some name =>
      exists first links,
        hits = first :: links /\
        tar.Name (e_header first) = name /\
        tar.Typeflag (e_header first) = TypeReg /\
        (exists h0,
            FileInfoHeader (info (e_object first)) "" = inr h0 /\
            tar.Size (e_header first) = tar.Size h0) /\
        (links <> [] \/ fst (Archive fs w) = Return None ->
         e_data first = [fst (copy (e_object first))]) /\
        Forall (fun e =>
                  tar.Typeflag (e_header e) = TypeLink /\
                  tar.Size (e_header e) = 0 /\
                  tar.Linkname (e_header e) = tar.Name (e_header first) /\
                  e_data e = []) links
    end.
Proof.
  intros Hi.
  assert (Hfinal : forall (r : result (option error)) hl es,
    linked false i hl es ->
    (r = Return None -> linked true i hl es) ->
    match hl !! i with
    | None => List.filter (hard_linked i) es = []
    | Some name =>
      exists first links,
        List.filter (hard_linked i) es = first :: links /\
        tar.Name (e_header first) = name /\
        tar.Typeflag (e_header first) = TypeReg /\
        (exists h0,
            FileInfoHeader (info (e_object first)) "" = inr h0 /\
            tar.Size (e_header first) = tar.Size h0) /\
        (links <> [] \/ r = Return None ->
         e_data first = [fst (copy (e_object first))]) /\
        Forall (fun e =>
                  tar.Typeflag (e_header e) = TypeLink /\
                  tar.Size (e_header e) = 0 /\
                  tar.Linkname (e_header e) = tar.Name (e_header first) /\
                  e_data e = []) links
    end).
  { intros r hl es Hweak Hstrong. unfold linked in *.
    destruct (hl !! i) as [name|]; [|exact Hweak].
    destruct Hweak as (first & links & Hf & Hn & (h0 & Hh0 & Htf & Hsz) & Hl & Hd).
    assert (Hreg : tar.Typeflag (e_header first) = TypeReg).
    { rewrite Htf. apply (FileInfoHeader_regular _ _ Hh0).
      apply (hard_linked_regular i).
      assert (Hin : In first (List.filter (hard_linked i) es))
        by (rewrite Hf; left; reflexivity).
      apply List.filter_In in Hin. tauto. }
    exists first, links. repeat split; auto.
    - exists h0. auto.
    - intros [Hne | Hr]; [auto|].
      destruct (Hstrong Hr) as (first' & links' & Hf' & _ & _ & _ & Hd').
      rewrite Hf in Hf'. injection Hf' as <- <-. auto.
    - subst name. exact Hl. }
  destruct (Archive_as_walk fs w) as
    [(post & Ht & Hpost & Hh & _)
    | (wr & pre & ds & post & Hpre & Hpost & Hr & Ht & Hh)].
  - exists post. split; [exact Ht|]. simpl.
    rewrite Hh, Hi. destruct (entries_closing post Hpost) as [_ ->]. reflexivity.
  - simpl in *. rewrite Hh, Hr.
    destruct (entries_closing post Hpost) as [Hdpost Hepost].
    set (w0 := mkWorld (walk_started w wr) (trace w ++ pre) ds) in *.
    assert (Hwalk : exists evs,
      trace (snd (Archive_walk fs w0)) = trace w0 ++ evs /\
      data_of evs = [] /\
      linked false i (hardLinks (tar_of (snd (Archive_walk fs w0)))) (entries evs) /\
      (fst (Archive_walk fs w0) = Return None ->
       linked true i (hardLinks (tar_of (snd (Archive_walk fs w0)))) (entries evs))).
    { unfold Archive_walk. destruct (root fs) as [e|n].
      - exists []. simpl. rewrite app_nil_r. unfold linked. rewrite Hi. auto.
      - rewrite bind_eq, processEntry_walk.
        destruct (visit_all_linked i (walk (tar_of w0) "." n) w0 [])
          as (evs & Ht' & Hd' & Hweak & Hstrong).
        + discriminate.
        + unfold linked. simpl. rewrite Hi. reflexivity.
        + exists evs.
          destruct (visit_all fs _ w0) as [[[e|]|] w1]; simpl in *;
            repeat split; auto; discriminate. }
    destruct Hwalk as (evs & Ht' & Hd' & Hweak & Hstrong).
    exists (pre ++ evs ++ post). split.
    + rewrite Ht, Ht'. simpl. rewrite <- !app_assoc. reflexivity.
    + rewrite (entries_opening wr) by exact Hpre.
      rewrite entries_app by exact Hdpost. rewrite Hepost, app_nil_r.
      apply Hfinal; assumption.
Qed.

End HardLinks.

(** ** The glob matcher *)

Module MatchFacts.

Import filepath.

(** *** The loops of the matcher end within their fuel *)

Lemma length_drop n s :
  String.length (strings.drop n s) = (String.length s - n)%nat.
Proof.
  revert s. induction n as [|n IH]; intros s; simpl.
  - lia.
  - destruct s as [|c s]; simpl; [reflexivity | apply IH].
Qed.

Lemma length_tail s :
  String.length (strings.tail s) = (String.length s - 1)%nat.
Proof. destruct s; simpl; lia. Qed.

Lemma DecodeRuneInString_width c s :
  (1 <= snd (utf8.DecodeRuneInString (String c s)))%nat.
Proof.
  unfold utf8.DecodeRuneInString.
  repeat match goal with
         | |- context [if ?b then _ else _] => destruct b
         | |- context [match ?x with _ => _ end] => destruct x
         end; simpl; lia.
Qed.

Lemma first_is_cons c s : first_is c s = true -> exists rest, s = String c rest.
Proof.
  destruct s as [|c' rest]; simpl; [discriminate|].
  intros H. apply Ascii.eqb_eq in H. subst. eauto.
Qed.

Lemma length_nonempty s : s <> "" -> (0 < String.length s)%nat.
Proof. destruct s; [contradiction | simpl; lia]. Qed.

(** [getEsc] without an error leaves a shorter, non-empty chunk. *)
Lemma getEsc_shorter chunk r nchunk :
  getEsc chunk = (r, nchunk, None) ->
  (0 < String.length nchunk < String.length chunk)%nat.
Proof.
  unfold getEsc. intros H.
  destruct (String.eqb chunk "" || first_is "-" chunk || first_is "]" chunk);
    [discriminate|].
  set (chunk' := if first_is "\" chunk then strings.tail chunk else chunk) in *.
  assert (Hlen : (String.length chunk' <= String.length chunk)%nat).
  { subst chunk'. destruct (first_is _ _); rewrite ?length_tail; lia. }
  destruct (first_is "\" chunk && String.eqb chunk' ""); [discriminate|].
  destruct (utf8.DecodeRuneInString chunk') as [r' n] eqn:Hdec.
  destruct (String.eqb_spec (strings.drop n chunk') "") as [|Hne];
    [discriminate|].
  destruct ((r' =? utf8.RuneError) && Nat.eqb n 1); [discriminate|].
  injection H as _ <-.
  pose proof (length_nonempty _ Hne) as Hpos.
  destruct chunk' as [|c rest]; [destruct n; contradiction|].
  pose proof (DecodeRuneInString_width c rest) as Hw. rewrite Hdec in Hw.
  rewrite length_drop in *. simpl in *. lia.
Qed.

(** The class loop ends within [fuel] and leaves a shorter chunk. *)
Lemma ranges_total fuel : forall chunk r matched nrange,
  (String.length chunk < fuel)%nat ->
  exists res,
    ranges fuel chunk r matched nrange = Some res /\
    match res with
    | inl _ => True
    | inr (_, chunk') => (String.length chunk' < String.length chunk)%nat
    end.
Proof.
  induction fuel as [|fuel IH]; intros chunk r matched nrange Hlen; [lia|].
  simpl.
  destruct (first_is "]" chunk && Nat.ltb 0 nrange) eqn:Hclose.
  { eexists. split; [reflexivity|]. simpl.
    apply andb_prop in Hclose as [Hc _].
    apply first_is_cons in Hc as (rest & ->). simpl. lia. }
  destruct (getEsc chunk) as [[lo chunk1] [e|]] eqn:Hesc.
  { eexists. split; [reflexivity | exact I]. }
  apply getEsc_shorter in Hesc.
  destruct (first_is "-" chunk1) eqn:Hdash.
  - destruct (getEsc (strings.tail chunk1)) as [[hi chunk2] [e|]] eqn:Hesc2.
    { eexists. split; [reflexivity | exact I]. }
    apply getEsc_shorter in Hesc2. rewrite length_tail in Hesc2.
    destruct (IH chunk2 r (if (lo <=? r) && (r <=? hi) then true else matched)
                 (S nrange)) as (res & Hres & Hshort); [lia|].
    exists res. split; [exact Hres|].
    destruct res as [|[? chunk']]; [exact I | lia].
  - destruct (IH chunk1 r (if (lo <=? r) && (r <=? lo) then true else matched)
                 (S nrange)) as (res & Hres & Hshort); [lia|].
    exists res. split; [exact Hres|].
    destruct res as [|[? chunk']]; [exact I | lia].
Qed.

Lemma matchChunk_loop_total fuel : forall chunk s,
  (String.length chunk < fuel)%nat ->
  matchChunk_loop fuel chunk s <> None.
Proof.
  induction fuel as [|fuel IH]; intros chunk s Hlen; [lia|].
  cbn [matchChunk_loop].
  destruct chunk as [|c chunk1]; [discriminate|].
  destruct s as [|s0 s1]; [discriminate|].
  simpl in Hlen.
  destruct (Ascii.eqb c "[").
  { destruct (utf8.DecodeRuneInString (String s0 s1)) as [r n].
    destruct (String.eqb chunk1 ""); [discriminate|].
    set (chunk2 := if first_is "^" chunk1 then strings.tail chunk1 else chunk1).
    assert (Hlen2 : (String.length chunk2 <= String.length chunk1)%nat).
    { subst chunk2. destruct (first_is _ _); rewrite ?length_tail; lia. }
    destruct (ranges_total (S (String.length chunk2)) chunk2 r false 0)
      as (res & -> & Hshort); [lia|].
    destruct res as [e|[matched chunk3]]; [discriminate|].
    destruct (Bool.eqb matched _); [discriminate|].
    apply IH. lia. }
  destruct (Ascii.eqb c "?").
  { destruct (IsPathSeparator s0); [discriminate|].
    destruct (utf8.DecodeRuneInString (String s0 s1)) as [r n].
    apply IH. lia. }
  destruct (Ascii.eqb c "\").
  { destruct chunk1 as [|c' chunk2]; [discriminate|].
    destruct (negb (Ascii.eqb c' s0)); [discriminate|].
    apply IH. simpl in Hlen. lia. }
  destruct (negb (Ascii.eqb c s0)); [discriminate|].
  apply IH. lia.
Qed.

Lemma matchChunk_eq chunk s :
  matchChunk_loop (S (String.length chunk)) chunk s = Some (matchChunk chunk s).
Proof.
  unfold matchChunk.
  pose proof (matchChunk_loop_total (S (String.length chunk)) chunk s) as H.
  destruct (matchChunk_loop _ chunk s); [reflexivity|].
  exfalso. apply H; [lia | reflexivity].
Qed.

Lemma skip_stars_length pattern :
  (String.length (snd (skip_stars pattern)) <= String.length pattern)%nat /\
  (fst (skip_stars pattern) = true ->
   (String.length (snd (skip_stars pattern)) < String.length pattern)%nat).
Proof.
  induction pattern as [|c pattern IH]; simpl.
  - split; [lia | discriminate].
  - destruct (Ascii.eqb c "*"); simpl; [|split; [lia | discriminate]].
    destruct IH as [IH _]. split; [|intros _]; lia.
Qed.

Lemma scan_length_within n : forall pattern inrange,
  (String.length pattern < n)%nat ->
  (String.length (snd (scan inrange pattern)) <= String.length pattern)%nat /\
  (fst (scan inrange pattern) <> "" ->
   (String.length (snd (scan inrange pattern)) < String.length pattern)%nat).
Proof.
  induction n as [|n IH]; intros pattern inrange Hn; [lia|].
  destruct pattern as [|c pattern]; simpl.
  - split; [lia | contradiction].
  - simpl in Hn.
    assert (Hrest : forall b,
      (String.length (snd (scan b pattern)) <= String.length pattern)%nat)
      by (intros b; apply IH; lia).
    destruct (Ascii.eqb c "\").
    { destruct pattern as [|d pattern]; simpl; [split; intros; lia|].
      destruct (IH pattern inrange) as [Hle _]; [simpl in Hn; lia|].
      destruct (scan inrange pattern) as [chunk r]. simpl in *.
      split; intros; lia. }
    destruct (Ascii.eqb c "[").
    { specialize (Hrest true). destruct (scan true pattern) as [chunk r].
      simpl in *. split; intros; lia. }
    destruct (Ascii.eqb c "]").
    { specialize (Hrest false). destruct (scan false pattern) as [chunk r].
      simpl in *. split; intros; lia. }
    destruct (Ascii.eqb c "*").
    { destruct inrange.
      - specialize (Hrest true). destruct (scan true pattern) as [chunk r].
        simpl in *. split; intros; lia.
      - simpl. split; [lia | contradiction]. }
    specialize (Hrest inrange). destruct (scan inrange pattern) as [chunk r].
    simpl in *. split; intros; lia.
Qed.

Lemma scan_length pattern inrange :
  (String.length (snd (scan inrange pattern)) <= String.length pattern)%nat /\
  (fst (scan inrange pattern) <> "" ->
   (String.length (snd (scan inrange pattern)) < String.length pattern)%nat).
Proof. apply (scan_length_within (S (String.length pattern))). lia. Qed.

(** A turn of the [Pattern] loop consumes a part of the pattern. *)
Lemma scanChunk_shorter pattern star chunk rest :
  pattern <> "" ->
  scanChunk pattern = (star, chunk, rest) ->
  (String.length rest < String.length pattern)%nat.
Proof.
  unfold scanChunk. intros Hne.
  pose proof (skip_stars_length pattern) as [Hle Hlt].
  destruct (skip_stars pattern) as [star' pattern'] eqn:Hskip. simpl in *.
  pose proof (scan_length pattern' false) as [Hle' Hlt'].
  destruct (scan false pattern') as [chunk' rest'] eqn:Hscan. simpl in *.
  intros H. injection H as <- <- <-.
  destruct star'; [specialize (Hlt eq_refl); lia|].
  destruct (String.eqb_spec chunk' "") as [->|Hc]; [|specialize (Hlt' Hc); lia].
  destruct pattern as [|c pattern]; [contradiction|].
  simpl in Hskip. destruct (Ascii.eqb c "*") eqn:Hc; [discriminate|].
  injection Hskip as <-. simpl in Hscan. rewrite Hc in Hscan.
  exfalso.
  destruct (Ascii.eqb c "\");
    [destruct pattern; [|destruct (scan false _)]; discriminate|].
  destruct (Ascii.eqb c "["); [destruct (scan true pattern); discriminate|].
  destruct (Ascii.eqb c "]"); [destruct (scan false pattern); discriminate|].
  destruct (scan false pattern); discriminate.
Qed.

Lemma Match_loop_total fuel : forall pattern name,
  (String.length pattern < fuel)%nat ->
  Match_loop fuel pattern name <> None.
Proof.
  induction fuel as [|fuel IH]; intros pattern name Hlen; [lia|].
  cbn [Match_loop].
  destruct (String.eqb_spec pattern "") as [|Hne]; [discriminate|].
  destruct (scanChunk pattern) as [[star chunk] rest] eqn:Hscan.
  pose proof (scanChunk_shorter _ _ _ _ Hne Hscan) as Hshort.
  destruct (star && String.eqb chunk ""); [discriminate|].
  destruct (matchChunk chunk name) as [[t ok] err].
  destruct (ok && _); [apply IH; lia|].
  destruct err; [discriminate|].
  destruct star; [|discriminate].
  destruct (star_loop _ _ _); [apply IH; lia | discriminate | discriminate].
Qed.

Lemma Match_eq pattern name :
  Match_loop (S (String.length pattern)) pattern name = Some (Match pattern name).
Proof.
  unfold Match.
  pose proof (Match_loop_total (S (String.length pattern)) pattern name) as H.
  destruct (Match_loop _ pattern name); [reflexivity|].
  exfalso. apply H; [lia | reflexivity].
Qed.

(** *** A chunk that matches some name is well formed *)

(** The class loop reads the chunk in the same way for every rune. *)
Lemma ranges_same_chunk fuel : forall chunk r r' m m' nrange,
  match ranges fuel chunk r m nrange, ranges fuel chunk r' m' nrange with
  | Some (inl e), Some (inl e') => e = e'
  | Some (inr (_, c)), Some (inr (_, c')) => c = c'
  | None, None => True
  | _, _ => False
  end.
Proof.
  induction fuel as [|fuel IH]; intros chunk r r' m m' nrange; simpl; [exact I|].
  destruct (first_is "]" chunk && Nat.ltb 0 nrange); [reflexivity|].
  destruct (getEsc chunk) as [[lo chunk1] [e|]]; [reflexivity|].
  destruct (if first_is "-" chunk1 then getEsc (strings.tail chunk1)
            else (lo, chunk1, None)) as [[hi chunk2] [e|]]; [reflexivity|].
  apply IH.
Qed.

(** If [chunk] matches at the start of a name, [matchChunk] reports no
    error for [chunk] on any name. *)
Lemma matchChunk_loop_ok_no_error fuel : forall chunk s s' t err t' ok' e,
  matchChunk_loop fuel chunk s = Some (t, true, err) ->
  matchChunk_loop fuel chunk s' = Some (t', ok', Some e) ->
  False.
Proof.
  induction fuel as [|fuel IH]; intros chunk s s' t err t' ok' e; [discriminate|].
  cbn [matchChunk_loop].
  destruct chunk as [|c chunk1]; [discriminate|].
  destruct s as [|s0 s1]; [discriminate|].
  destruct s' as [|s0' s1']; [discriminate|].
  destruct (Ascii.eqb c "[").
  { destruct (utf8.DecodeRuneInString (String s0 s1)) as [r n].
    destruct (utf8.DecodeRuneInString (String s0' s1')) as [r' n'].
    destruct (String.eqb chunk1 ""); [discriminate|].
    set (chunk2 := if first_is "^" chunk1 then strings.tail chunk1 else chunk1).
    pose proof (ranges_same_chunk (S (String.length chunk2)) chunk2 r r'
                                  false false 0%nat) as Hsame.
    destruct (ranges _ chunk2 r false 0) as [[e1|[m1 c1]]|];
      destruct (ranges _ chunk2 r' false 0) as [[e2|[m2 c2]]|];
      try contradiction; try discriminate.
    subst c2.
    destruct (Bool.eqb m1 _); [discriminate|].
    destruct (Bool.eqb m2 _); [discriminate|].
    apply IH. }
  destruct (Ascii.eqb c "?").
  { destruct (IsPathSeparator s0); [discriminate|].
    destruct (IsPathSeparator s0'); [discriminate|].
    destruct (utf8.DecodeRuneInString (String s0 s1)) as [r n].
    destruct (utf8.DecodeRuneInString (String s0' s1')) as [r' n'].
    apply IH. }
  destruct (Ascii.eqb c "\").
  { destruct chunk1 as [|c' chunk2]; [discriminate|].
    destruct (negb (Ascii.eqb c' s0)); [discriminate|].
    destruct (negb (Ascii.eqb c' s0')); [discriminate|].
    apply IH. }
  destruct (negb (Ascii.eqb c s0)); [discriminate|].
  destruct (negb (Ascii.eqb c s0')); [discriminate|].
  apply IH.
Qed.

Lemma matchChunk_ok_no_error chunk s s' t err t' ok' e :
  matchChunk chunk s = (t, true, err) ->
  matchChunk chunk s' = (t', ok', Some e) ->
  False.
Proof.
  intros H H'.
  apply (matchChunk_loop_ok_no_error (S (String.length chunk))
           chunk s s' t err t' ok' e);
    rewrite matchChunk_eq; congruence.
Qed.

Lemma star_loop_matched chunk last name t :
  star_loop chunk last name = StarMatched t ->
  exists s err, matchChunk chunk s = (t, true, err).
Proof.
  induction name as [|c name IH]; simpl; [discriminate|].
  destruct (IsPathSeparator c); [discriminate|].
  destruct (matchChunk chunk name) as [[t' ok] err] eqn:Hm.
  destruct ok.
  - destruct (last && negb (String.eqb t' "")); [exact IH|].
    intros H. injection H as <-. eauto.
  - destruct err; [discriminate | exact IH].
Qed.

Lemma star_loop_error chunk last name e :
  star_loop chunk last name = StarError e ->
  exists s t ok, matchChunk chunk s = (t, ok, Some e).
Proof.
  induction name as [|c name IH]; simpl; [discriminate|].
  destruct (IsPathSeparator c); [discriminate|].
  destruct (matchChunk chunk name) as [[t' ok] err] eqn:Hm.
  destruct ok.
  - destruct (last && negb (String.eqb t' "")); [exact IH | discriminate].
  - destruct err as [e'|]; [|exact IH].
    intros H. injection H as <-. eauto.
Qed.

(** A pattern that matches some name is reported as malformed on none. *)
Lemma Match_loop_true_no_error fuel : forall pattern name name' err b e,
  Match_loop fuel pattern name = Some (true, err) ->
  Match_loop fuel pattern name' = Some (b, Some e) ->
  False.
Proof.
  induction fuel as [|fuel IH]; intros pattern name name' err b e; [discriminate|].
  cbn [Match_loop].
  destruct (String.eqb pattern ""); [discriminate|].
  destruct (scanChunk pattern) as [[star chunk] rest].
  destruct (star && String.eqb chunk ""); [discriminate|].
  intros Htrue Herr.
  assert (Hparses : exists s t1 err1,
             matchChunk chunk s = (t1, true, err1) /\
             Match_loop fuel rest t1 = Some (true, err)).
  { destruct (matchChunk chunk name) as [[t ok] errc] eqn:Hm.
    destruct (ok && _) eqn:Hcont.
    - apply andb_prop in Hcont as [-> _]. eauto.
    - destruct errc; [discriminate|].
      destruct star; [|discriminate].
      destruct (star_loop chunk _ name) as [t1| |] eqn:Hstar; try discriminate.
      apply star_loop_matched in Hstar as (s & err1 & Hs). eauto. }
  destruct Hparses as (s & t1 & err1 & Hs & Hrest).
  clear Htrue.
  destruct (matchChunk chunk name') as [[t' ok'] errc'] eqn:Hm'.
  destruct (ok' && _).
  - exact (IH _ _ _ _ _ _ Hrest Herr).
  - destruct errc' as [e'|].
    + exact (matchChunk_ok_no_error _ _ _ _ _ _ _ _ Hs Hm').
    + destruct star; [|discriminate].
      destruct (star_loop chunk _ name') as [t2|e2|] eqn:Hstar'.
      * exact (IH _ _ _ _ _ _ Hrest Herr).
      * apply star_loop_error in Hstar' as (s2 & t2 & ok2 & Hs2).
        exact (matchChunk_ok_no_error _ _ _ _ _ _ _ _ Hs Hs2).
      * discriminate.
Qed.

(** A pattern [filepath.Match] reports as malformed on some name matches
    no name. *)
Lemma Match_malformed_never_matches pattern name' e name :
  snd (Match pattern name') = Some e -> fst (Match pattern name) = false.
Proof.
  intros Herr. destruct (fst (Match pattern name)) eqn:Hm; [|reflexivity].
  exfalso.
  pose proof (Match_eq pattern name) as H.
  pose proof (Match_eq pattern name') as H'.
  destruct (Match pattern name) as [b err], (Match pattern name') as [b' err'].
  cbn [fst snd] in *. subst.
  exact (Match_loop_true_no_error _ _ _ _ _ _ _ H H').
Qed.

End MatchFacts.

(** ** Runs that differ in the exclusion list only

    A run looks at [t.ExcludedPaths] through [shouldBeExcluded] only: two
    runs whose lists exclude the same paths, and which agree otherwise,
    make the same calls and end alike. *)

(** [t.ExcludedPaths = excludes] *)
Definition set_ExcludedPaths (t : Tar) (excludes : list string) : Tar :=
  mkTar (target t) (archive t) (Compression t) (IncludePermissions t)
        (IncludeOwners t) excludes (VirtualPath t) (hardLinks t).

Definition same_exclusions (t t' : Tar) : Prop :=
  target t = target t' /\
  archive t = archive t' /\
  Compression t = Compression t' /\
  IncludePermissions t = IncludePermissions t' /\
  IncludeOwners t = IncludeOwners t' /\
  VirtualPath t = VirtualPath t' /\
  hardLinks t = hardLinks t' /\
  forall name, shouldBeExcluded t name = shouldBeExcluded t' name.

Definition alike (w w' : world) : Prop :=
  same_exclusions (tar_of w) (tar_of w') /\
  trace w = trace w' /\
  deferred w = deferred w'.

Definition simulates {A} (m m' : M A) : Prop :=
  forall w w',
    alike w w' ->
    fst (m w) = fst (m' w') /\ alike (snd (m w)) (snd (m' w')).

Lemma simulates_ret {A} (a : A) : simulates (ret a) (ret a).
Proof. intros w w' Hw. split; [reflexivity | exact Hw]. Qed.

Lemma simulates_panic {A} : simulates (@panic A) (@panic A).
Proof. intros w w' Hw. split; [reflexivity | exact Hw]. Qed.

Lemma simulates_emit e : simulates (emit e) (emit e).
Proof.
  intros w w' (Ht & Htr & Hd). split; [reflexivity|].
  repeat split; simpl; try apply Ht; congruence.
Qed.

Lemma simulates_defer d : simulates (defer d) (defer d).
Proof.
  intros w w' (Ht & Htr & Hd). split; [reflexivity|].
  repeat split; simpl; try apply Ht; congruence.
Qed.

Lemma simulates_set_archive a : simulates (set_archive a) (set_archive a).
Proof.
  intros w w' (Ht & Htr & Hd). split; [reflexivity|].
  repeat split; simpl; try apply Ht; try congruence.
Qed.

Lemma simulates_set_hardLink ino name :
  simulates (set_hardLink ino name) (set_hardLink ino name).
Proof.
  intros w w' (Ht & Htr & Hd). split; [reflexivity|].
  repeat split; simpl; try apply Ht; try congruence.
  f_equal. apply Ht.
Qed.

Lemma simulates_bind {A B} (m m' : M A) (k k' : A -> M B) :
  simulates m m' -> (forall a, simulates (k a) (k' a)) ->
  simulates (bind m k) (bind m' k').
Proof.
  intros Hm Hk w w' Hw. rewrite !bind_eq.
  destruct (Hm w w' Hw) as [Hr Hw1].
  destruct (m w) as [[a|] w1], (m' w') as [[a'|] w1'];
    simpl in Hr, Hw1; try discriminate.
  - injection Hr as <-. apply Hk. exact Hw1.
  - split; [reflexivity | exact Hw1].
Qed.

Lemma simulates_get_tar {A} (k k' : Tar -> M A) :
  (forall t t', same_exclusions t t' -> simulates (k t) (k' t')) ->
  simulates (bind get_tar k) (bind get_tar k').
Proof.
  intros Hk w w' Hw. rewrite !bind_get_tar. apply Hk; [apply Hw | exact Hw].
Qed.

(** One step through two runs of the same monadic term. *)
Ltac simulates_step :=
  first
    [ solve [ auto ]
    | apply simulates_ret | apply simulates_panic | apply simulates_emit
    | apply simulates_defer | apply simulates_set_archive
    | apply simulates_set_hardLink
    | apply simulates_get_tar;
      let t := fresh "t" in
      let t' := fresh "t'" in
      let H := fresh "Ht" in
      intros t t' H;
      let H1 := fresh in let H2 := fresh in let H3 := fresh in
      let H4 := fresh in let H5 := fresh in let H6 := fresh in
      let H7 := fresh in let H8 := fresh in
      destruct H as (H1 & H2 & H3 & H4 & H5 & H6 & H7 & H8);
      unfold entryName;
      rewrite <- ?H1, <- ?H2, <- ?H3, <- ?H4, <- ?H5, <- ?H6, <- ?H7, <- ?H8;
      clear H1 H2 H3 H4 H5 H6 H7 H8
    | apply simulates_bind; [ | intros ? ]
    | match goal with
      | |- simulates (match ?x with _ => _ end) (match ?x with _ => _ end) =>
        destruct x
      end ].

Ltac simulates_tac := repeat simulates_step.

Lemma simulates_on_archive {A} (m : M A) :
  simulates m m -> simulates (on_archive m) (on_archive m).
Proof. intros Hm. unfold on_archive. simulates_tac. Qed.

Section Simulation.

Context `{D : Decls}.
Variable fs : filesystem.

Lemma simulates_archive_WriteHeader o fullName hdr :
  simulates (archive_WriteHeader o fullName hdr)
            (archive_WriteHeader o fullName hdr).
Proof. apply simulates_on_archive. simulates_tac. Qed.

Lemma simulates_cleanLinkName o targetDir name :
  simulates (cleanLinkName fs o targetDir name)
            (cleanLinkName fs o targetDir name).
Proof. unfold cleanLinkName, os_Readlink. simulates_tac. Qed.

Lemma simulates_processRegular fullName o stat header :
  simulates (processRegular fullName o stat header)
            (processRegular fullName o stat header).
Proof.
  pose proof simulates_archive_WriteHeader as Hw.
  unfold processRegular, os_Open, io_Copy, archive_Flush, data_Close.
  simulates_tac; try apply simulates_on_archive; simulates_tac.
Qed.

Lemma simulates_processDevice fullName o header :
  simulates (processDevice fullName o header)
            (processDevice fullName o header).
Proof.
  pose proof simulates_archive_WriteHeader as Hw.
  unfold processDevice, os_Stat. simulates_tac.
Qed.

Lemma simulates_range_files (pe : string -> fsnode -> M (option error)) dir files :
  Forall (fun c => forall name, simulates (pe name c) (pe name c)) files ->
  simulates (range_files pe dir files) (range_files pe dir files).
Proof.
  induction 1 as [|c files Hc _ IH]; simpl.
  - apply simulates_ret.
  - apply simulates_bind; [apply Hc|].
    intros [e|]; [apply simulates_ret | exact IH].
Qed.

Lemma simulates_processEntry n : forall fullName,
  simulates (processEntry fs fullName n) (processEntry fs fullName n).
Proof.
  induction n as [o files IH] using fsnode_ind'. intros fullName.
  cbn [processEntry].
  pose proof simulates_archive_WriteHeader as Hw.
  pose proof simulates_cleanLinkName as Hl.
  pose proof simulates_processRegular as Hr.
  pose proof simulates_processDevice as Hd.
  pose proof (simulates_range_files (processEntry fs) fullName files IH) as Hf.
  unfold processDirectory_with, ioutil_ReadDir.
  simulates_tac.
Qed.

Lemma simulates_Archive_walk : simulates (Archive_walk fs) (Archive_walk fs).
Proof.
  unfold Archive_walk. pose proof simulates_processEntry as Hp. simulates_tac.
Qed.

Lemma simulates_Archive_body : simulates (Archive_body fs) (Archive_body fs).
Proof.
  unfold Archive_body. pose proof simulates_Archive_walk as Hw. simulates_tac.
Qed.

Lemma simulates_run_deferred d : simulates (run_deferred d) (run_deferred d).
Proof. destruct d; simpl; simulates_tac. Qed.

Lemma alike_run_all_deferred ds : forall w w',
  alike w w' -> alike (run_all_deferred ds w) (run_all_deferred ds w').
Proof.
  induction ds as [|d ds IH]; intros w w' Hw; simpl; [exact Hw|].
  apply IH. apply simulates_run_deferred. exact Hw.
Qed.

Lemma simulates_Archive : simulates (Archive fs) (Archive fs).
Proof.
  intros w w' Hw. unfold Archive.
  assert (H0 : alike (mkWorld (tar_of w) (trace w) [])
                     (mkWorld (tar_of w') (trace w') [])).
  { destruct Hw as (Ht & Htr & _). repeat split; try apply Ht. exact Htr. }
  destruct (simulates_Archive_body _ _ H0) as [Hr H1].
  destruct (Archive_body fs _) as [r w1], (Archive_body fs _) as [r' w1'].
  simpl in Hr, H1. subst r'.
  assert (Hd : deferred w1 = deferred w1') by apply H1.
  rewrite <- Hd.
  pose proof (alike_run_all_deferred (rev (deferred w1)) _ _ H1)
    as (Ht2 & Htr2 & _).
  split; [reflexivity|]. repeat split; simpl; try apply Ht2.
  - exact Htr2.
  - apply Hw.
Qed.

End Simulation.

(** ** Malformed exclusion patterns *)

Lemma shouldBeExcluded_loop_skip pattern name pre post :
  fst (filepath.Match pattern name) = false ->
  fst (filepath.Match pattern (filepath.Base name)) = false ->
  shouldBeExcluded_loop (pre ++ pattern :: post) name =
    shouldBeExcluded_loop (pre ++ post) name.
Proof.
  intros H1 H2. induction pre as [|p pre IH]; simpl.
  - rewrite H1, H2. reflexivity.
  - rewrite IH. reflexivity.
Qed.

(** C10.  Let [pattern] be malformed: [filepath.Match] returns
    [ErrBadPattern] for it on some name.  Then it matches no name, and
    [shouldBeExcluded], which drops the error of the matcher and has no
    error of its own to return, gives the same answer on every path with
    the pattern in the exclusion list as without it: the pattern excludes
    nothing.  A run with the pattern in the list ends as the run without
    it: same result, same calls, same hard-link table. *)
Theorem malformed_pattern_excludes_nothing `{D : Decls}
        (pattern name0 : string) (e : error) :
  snd (filepath.Match pattern name0) = Some e ->
  (forall name, fst (filepath.Match pattern name) = false) /\
  (forall t t' pre post name,
      ExcludedPaths t = pre ++ pattern :: post ->
      ExcludedPaths t' = pre ++ post ->
      shouldBeExcluded t name = shouldBeExcluded t' name) /\
  (forall t name,
      ExcludedPaths t = [pattern] -> shouldBeExcluded t name = false) /\
  (forall fs w pre post,
      ExcludedPaths (tar_of w) = pre ++ pattern :: post ->
      let w' := mkWorld (set_ExcludedPaths (tar_of w) (pre ++ post))
                        (trace w) (deferred w) in
      fst (Archive fs w) = fst (Archive fs w') /\
      trace (snd (Archive fs w)) = trace (snd (Archive fs w')) /\
      hardLinks (tar_of (snd (Archive fs w))) =
        hardLinks (tar_of (snd (Archive fs w')))).
Proof.
  intros Herr.
  assert (Hnever : forall name, fst (filepath.Match pattern name) = false).
  { intros name. eapply MatchFacts.Match_malformed_never_matches. exact Herr. }
  assert (Hskip : forall t t' pre post name,
             ExcludedPaths t = pre ++ pattern :: post ->
             ExcludedPaths t' = pre ++ post ->
             shouldBeExcluded t name = shouldBeExcluded t' name).
  { intros t t' pre post name Ht Ht'. unfold shouldBeExcluded.
    rewrite Ht, Ht'. apply shouldBeExcluded_loop_skip; apply Hnever. }
  split; [exact Hnever|]. split; [exact Hskip|]. split.
  - intros t name Ht. unfold shouldBeExcluded. rewrite Ht. simpl.
    rewrite !Hnever. reflexivity.
  - intros fs w pre post Hw w'.
    assert (Ha : alike w w').
    { repeat split. intros name. apply (Hskip _ _ pre post); [exact Hw|].
      reflexivity. }
    destruct (simulates_Archive fs w w' Ha) as (Hr & Ht & Htr & _).
    split; [exact Hr|]. split; [exact Htr|]. apply Ht.
Qed.

(** ** The archiver on sample trees *)

Lemma sample_distinct_compressions : @distinct_compressions sample.decls.
Proof.
  unfold distinct_compressions. simpl.
  repeat constructor; simpl; intuition discriminate.
Qed.

Lemma sample_TypeReg_TypeLink : @TypeReg sample.decls <> @TypeLink sample.decls.
Proof. discriminate. Qed.

Lemma sample_FileInfoHeader_regular f h0 :
  @FileInfoHeader sample.decls f "" = inr h0 ->
  Z.land (os.Mode f) os.ModeType = 0 ->
  tar.Typeflag h0 = @TypeReg sample.decls.
Proof.
  simpl. unfold sample.FileInfoHeader. intros H Hreg.
  rewrite Hreg in H. simpl in H. injection H as <-.
  destruct (sample.has _ os.ModeSetuid), (sample.has _ os.ModeSetgid);
    reflexivity.
Qed.

(** C1, counterexample.  With the virtual path [P] the entries of the
    tree [a/], [a/f.txt], [a/link] are named [P/], [P/a/], [P/a/f.txt]
    and [P/a/link]: none of them begins with [./P/]. *)
Lemma virtual_path_names_lack_dot_slash :
  sample.header_names
    (trace (snd (sample.run (sample.tar_for "/tmp/build" 0 [] "P")
                            sample.tree_a)))
  = ["P/"; "P/a/"; "P/a/f.txt"; "P/a/link"] /\
  List.map (fun name => strings.HasPrefix name "./P/")
    (sample.header_names
       (trace (snd (sample.run (sample.tar_for "/tmp/build" 0 [] "P")
                               sample.tree_a))))
  = [false; false; false; false].
Proof. split; vm_compute; reflexivity. Qed.

(** C2 (what the code does).  The target is [/a] and the link [/a/l]
    points to [/ab/c], which is outside [/a]: as the string [/ab/c]
    contains the string [/a], the link is stored as the relative path
    [../ab/c].  A link to [/etc/hosts] is stored as it is, and a link to
    [/a/x] as [x]. *)
Theorem cleanLinkName_sibling_of_target :
  List.map
    (fun link =>
       fst (cleanLinkName (sample.fs_of (sample.symlink "l" 5 link))
                          (node_object (sample.symlink "l" 5 link))
                          "/a" "l"
                          (sample.start (sample.tar_for "/a" 0 [] ""))))
    ["/ab/c"; "/etc/hosts"; "/a/x"]
  = [Return (inr "../ab/c"); Return (inr "/etc/hosts"); Return (inr "x")] /\
  strings.HasPrefix "/ab/c" "/a/" = false.
Proof. split; vm_compute; reflexivity. Qed.

(** C4 (what the code does).  When [os.Stat] fails on a device, the run
    panics at [fi.Sys()]: no header is written for the device and the
    rest of the directory is not archived.  When [os.Stat] succeeds and
    its [FileInfo] is not backed by a [*syscall.Stat_t], the header is
    written with the device numbers [FileInfoHeader] left and the run
    goes on. *)
Theorem device_stat_failure_panics :
  fst (sample.run (sample.tar_for "/a" 0 [] "") sample.tree_device_gone)
  = Panic /\
  sample.header_names
    (trace (snd (sample.run (sample.tar_for "/a" 0 [] "")
                            sample.tree_device_gone)))
  = ["././"] /\
  fst (sample.run (sample.tar_for "/a" 0 [] "") sample.tree_device_opaque)
  = Return None /\
  sample.header_fields
    (trace (snd (sample.run (sample.tar_for "/a" 0 [] "")
                            sample.tree_device_opaque)))
  = [(".", "././", 53, 0, "", 0, 0);
     ("sda", "./sda", 52, 0, "", 0, 0);
     ("f", "./f", 48, 1, "", 0, 0)].
Proof. repeat split; vm_compute; reflexivity. Qed.

(** C3, on a sample tree: three names of one file and a file with one
    link. *)
Example hard_links_sample :
  sample.header_fields
    (trace (snd (sample.run (sample.tar_for "/a" 0 [] "") sample.tree_links)))
  = [(".", "././", 53, 0, "", 0, 0);
     ("x", "./x", 48, 4, "", 0, 0);
     ("d", "./d/", 53, 0, "", 0, 0);
     ("d/y", "./d/y", 49, 0, "./x", 0, 0);
     ("z", "./z", 49, 0, "./x", 0, 0);
     ("u", "./u", 48, 1, "", 0, 0)] /\
  map_to_list
    (hardLinks (tar_of (snd (sample.run (sample.tar_for "/a" 0 [] "")
                                        sample.tree_links))))
  = [(9, "./x")].
Proof. split; vm_compute; reflexivity. Qed.

Lemma Archive_hard_links_witness :
  exists evs,
    trace (snd (sample.run (sample.tar_for "/a" 0 [] "") sample.tree_links))
    = trace (sample.start (sample.tar_for "/a" 0 [] "")) ++ evs /\
    match hardLinks (tar_of (snd (sample.run (sample.tar_for "/a" 0 [] "")
                                             sample.tree_links))) !! 9 with
    | None => List.filter (hard_linked 9) (entries evs) = []
    | Some name =>
      exists first links,
        List.filter (hard_linked 9) (entries evs) = first :: links /\
        tar.Name (e_header first) = name /\
        tar.Typeflag (e_header first) = @TypeReg sample.decls /\
        (exists h0,
            @FileInfoHeader sample.decls (info (e_object first)) "" = inr h0 /\
            tar.Size (e_header first) = tar.Size h0) /\
        (links <> [] \/
         fst (sample.run (sample.tar_for "/a" 0 [] "") sample.tree_links)
         = Return None ->
         e_data first = [fst (copy (e_object first))]) /\
        Forall (fun e =>
                  tar.Typeflag (e_header e) = @TypeLink sample.decls /\
                  tar.Size (e_header e) = 0 /\
                  tar.Linkname (e_header e) = tar.Name (e_header first) /\
                  e_data e = []) links
    end.
Proof.
  apply (@Archive_hard_links sample.decls (sample.fs_of sample.tree_links)
           sample_TypeReg_TypeLink sample_FileInfoHeader_regular
           (sample.start (sample.tar_for "/a" 0 [] "")) 9).
  reflexivity.
Defined.

Lemma Archive_gzip_closes_compressor_first_witness :
  exists evs,
    trace (snd (sample.run (sample.tar_for "/tmp/build" 1 [] "") sample.tree_a))
    = trace (sample.start (sample.tar_for "/tmp/build" 1 [] ""))
      ++ [EvGzipNewWriter; EvTarNewWriter OnGzip] ++ evs
      ++ [EvGzipClose; EvTarClose] /\
    archive (tar_of (snd (sample.run (sample.tar_for "/tmp/build" 1 [] "")
                                     sample.tree_a))) = None /\
    fst (sample.run (sample.tar_for "/tmp/build" 1 [] "") sample.tree_a)
    = fst (@Archive_walk sample.decls (sample.fs_of sample.tree_a)
             (gzip_started (sample.start (sample.tar_for "/tmp/build" 1 [] "")))).
Proof.
  apply (@Archive_gzip_closes_compressor_first sample.decls
           (sample.fs_of sample.tree_a)
           (sample.start (sample.tar_for "/tmp/build" 1 [] ""))).
  - discriminate.
  - reflexivity.
Defined.

Lemma Archive_rejects_compression_witness :
  sample.run (sample.tar_for "/tmp/build" 2 [] "") sample.tree_a
  = (Return (Some (Errorf "bzip2 compression is not supported" None)),
     sample.start (sample.tar_for "/tmp/build" 2 [] "")) /\
  sample.run (sample.tar_for "/tmp/build" 3 [] "") sample.tree_a
  = (Return (Some (Errorf "not a valid compression type: %s" (Some 3))),
     sample.start (sample.tar_for "/tmp/build" 3 [] "")) /\
  sample.run (sample.tar_for "/tmp/build" 7 [] "") sample.tree_a
  = (Return (Some (Errorf "unknown compression type: %s" (Some 7))),
     sample.start (sample.tar_for "/tmp/build" 7 [] "")).
Proof.
  split; [|split].
  - apply (@Archive_rejects_compression sample.decls
             (sample.fs_of sample.tree_a)
             (sample.start (sample.tar_for "/tmp/build" 2 [] ""))
             sample_distinct_compressions eq_refl).
    reflexivity.
  - apply (@Archive_rejects_compression sample.decls
             (sample.fs_of sample.tree_a)
             (sample.start (sample.tar_for "/tmp/build" 3 [] ""))
             sample_distinct_compressions eq_refl).
    reflexivity.
  - apply (@Archive_rejects_compression sample.decls
             (sample.fs_of sample.tree_a)
             (sample.start (sample.tar_for "/tmp/build" 7 [] ""))
             sample_distinct_compressions eq_refl).
    simpl. intuition discriminate.
Defined.

Lemma ExcludePath_strips_one_separator_witness :
  ExcludedPaths (ExcludePath (sample.tar_for "/a" 0 ["*.tmp"] "") "//x/tar.go")
  = ["*.tmp"; "/x/tar.go"] /\
  ExcludedPaths (ExcludePath (sample.tar_for "/a" 0 ["*.tmp"] "") "x/tar.go")
  = ["*.tmp"; "x/tar.go"].
Proof.
  split.
  - apply (proj1 (ExcludePath_strips_one_separator
                    (sample.tar_for "/a" 0 ["*.tmp"] "")) "/x/tar.go").
  - apply (proj1 (proj2 (ExcludePath_strips_one_separator
                           (sample.tar_for "/a" 0 ["*.tmp"] ""))) "x/tar.go").
    reflexivity.
Defined.

Lemma malformed_pattern_excludes_nothing_witness :
  snd (filepath.Match "[" "a") = Some ErrBadPattern /\
  (forall name, fst (filepath.Match "[" name) = false) /\
  (forall name,
      shouldBeExcluded (sample.tar_for "/a" 0 ["*.tmp"; "["; "b"] "") name
      = shouldBeExcluded (sample.tar_for "/a" 0 ["*.tmp"; "b"] "") name) /\
  fst (sample.run (sample.tar_for "/a" 0 ["["; "u"] "") sample.tree_links)
  = fst (sample.run (sample.tar_for "/a" 0 ["u"] "") sample.tree_links).
Proof.
  split; [reflexivity|].
  destruct (@malformed_pattern_excludes_nothing sample.decls
              "[" "a" ErrBadPattern eq_refl)
    as (Hnever & Hskip & _ & Hrun).
  split; [exact Hnever|]. split.
  - intros name. apply (Hskip _ _ ["*.tmp"] ["b"]); reflexivity.
  - apply (Hrun (sample.fs_of sample.tree_links)
                (sample.start (sample.tar_for "/a" 0 ["["; "u"] ""))
                [] ["u"] eq_refl).
Defined.

(** * Further properties of the archiver *)

(** ** The calls of a visit *)

(** The kinds of object [processEntry] writes a header for. *)
Definition archivable (f : os.FileInfo) : bool :=
  match classify f with
  | KDir | KSymlink | KRegular | KDevice => true
  | KSocket | KOther => false
  end.

Section Calls.

Context `{D : Decls}.
Variable fs : filesystem.

(** What a header written for [o] keeps of the header [h0] that
    [FileInfoHeader] built, and what the branch of [o] puts in. *)
Definition header_fields_ok (t : Tar) (fullName : string) (o : object)
           (h : tar.Header) : Prop :=
  let f := info o in
  exists h0,
    FileInfoHeader f "" = inr h0 /\
    match classify f with
    | KDir =>
      tar.Typeflag h = tar.Typeflag h0 /\ tar.Size h = tar.Size h0 /\
      tar.Linkname h = tar.Linkname h0 /\
      tar.Devmajor h = tar.Devmajor h0 /\ tar.Devminor h = tar.Devminor h0
    | KSymlink =>
      tar.Typeflag h = tar.Typeflag h0 /\ tar.Size h = tar.Size h0 /\
      (forall w, fst (cleanLinkName fs o (target t) fullName w)
                 = Return (inr (tar.Linkname h))) /\
      tar.Devmajor h = tar.Devmajor h0 /\ tar.Devminor h = tar.Devminor h0
    | KRegular =>
      tar.Devmajor h = tar.Devmajor h0 /\ tar.Devminor h = tar.Devminor h0
    | KDevice =>
      tar.Typeflag h = tar.Typeflag h0 /\ tar.Size h = tar.Size h0 /\
      tar.Linkname h = tar.Linkname h0 /\
      exists fi,
        stat o = inr fi /\
        match os.Sys fi with
        | Some sys =>
          tar.Devmajor h = majordev (int64_of_uint64 (syscall.Rdev sys)) /\
          tar.Devminor h = minordev (int64_of_uint64 (syscall.Rdev sys))
        | None =>
          tar.Devmajor h = tar.Devmajor h0 /\ tar.Devminor h = tar.Devminor h0
        end
    | KSocket | KOther => False
    end.

(** A call made while the object [o] at [fullName] is visited: it is on
    the path of [o] below the target and it is the call of the branch of
    [o]. *)
Definition call_ok (t : Tar) (fullName : string) (o : object) (e : event)
  : Prop :=
  let f := info o in
  let path := filepath.Join [target t; fullName] in
  match e with
  | EvReadDir dirname => dirname = path /\ classify f = KDir
  | EvReadlink name => name = path /\ classify f = KSymlink
  | EvStat name => name = path /\ classify f = KDevice
  | EvOpen name => name = path /\ classify f = KRegular
  | EvCloseFile name => name = path /\ classify f = KRegular
  | EvCopy data => data = fst (copy o) /\ classify f = KRegular
  | EvFlush => classify f = KRegular
  | EvWriteHeader fullName' o' h =>
    fullName' = fullName /\ o' = o /\ header_fields_ok t fullName o h
  | EvTarNewWriter _ | EvGzipNewWriter | EvTarClose | EvGzipClose => False
  end.

(** [cleanLinkName] makes one call, [os.Readlink], and its result does
    not depend on the state. *)
Lemma cleanLinkName_run o targetDir name w :
  exists r,
    (forall w', fst (cleanLinkName fs o targetDir name w') = Return r) /\
    cleanLinkName fs o targetDir name w =
      (Return r,
       mkWorld (tar_of w)
               (trace w ++ [EvReadlink (filepath.Join [targetDir; name])])
               (deferred w)).
Proof.
  unfold cleanLinkName. run_monad.
  destruct (readlink o) as [e|link]; simpl; [eexists; split; reflexivity|].
  destruct (if negb (filepath.IsAbs link) then _ else _) as [e|link'];
    simpl; [eexists; split; reflexivity|].
  destruct (strings.Contains _ _); [|eexists; split; reflexivity].
  destruct (filepath.Rel _ _); eexists; split; reflexivity.
Qed.

Lemma classify_device f :
  os.IsDir f = false ->
  (Z.land (os.Mode f) os.ModeSymlink =? os.ModeSymlink) = false ->
  (Z.land (os.Mode f) os.ModeType =? 0) = false ->
  (Z.land (os.Mode f) os.ModeDevice =? os.ModeDevice)
  || (Z.land (os.Mode f) os.ModeCharDevice =? os.ModeCharDevice) = true ->
  classify f = KDevice.
Proof. unfold classify. intros -> -> -> ->. reflexivity. Qed.

Lemma classify_symlink' f :
  os.IsDir f = false ->
  (Z.land (os.Mode f) os.ModeSymlink =? os.ModeSymlink) = true ->
  classify f = KSymlink.
Proof. unfold classify. intros -> ->. reflexivity. Qed.

Lemma classify_regular' f :
  os.IsDir f = false ->
  (Z.land (os.Mode f) os.ModeSymlink =? os.ModeSymlink) = false ->
  (Z.land (os.Mode f) os.ModeType =? 0) = true ->
  classify f = KRegular.
Proof. unfold classify. intros -> -> ->. reflexivity. Qed.

(** Closes [Forall (call_ok t fullName o) evs] for explicit [evs]. *)
Ltac calls_ok Hok :=
  repeat (apply List.Forall_cons;
          [ first [ split; [reflexivity | assumption]
                  | assumption
                  | apply Hok; repeat split; reflexivity ] | ]);
  apply List.Forall_nil.

Lemma visit_calls fullName o w :
  exists evs,
    trace (snd (visit fs fullName o w)) = trace w ++ evs /\
    Forall (call_ok (tar_of w) fullName o) evs.
Proof.
  unfold visit. cbn [processEntry]. rewrite bind_get_tar.
  destruct (shouldBeExcluded (tar_of w) fullName) eqn:Hex.
  { exists []. split; [trace_eq | constructor]. }
  destruct (FileInfoHeader (info o) "") as [e|h0] eqn:Hfih.
  { exists []. split; [trace_eq | constructor]. }
  destruct (os.Sys (info o)) as [st|] eqn:Hsys.
  2:{ exists []. split; [trace_eq | constructor]. }
  destruct (os.IsDir (info o)) eqn:Hdir.
  { pose proof (classify_dir _ Hdir) as Hk.
    assert (Hok : forall h,
      (tar.Typeflag h = tar.Typeflag h0 /\ tar.Size h = tar.Size h0 /\
       tar.Linkname h = tar.Linkname h0 /\
       tar.Devmajor h = tar.Devmajor h0 /\ tar.Devminor h = tar.Devminor h0) ->
      call_ok (tar_of w) fullName o (EvWriteHeader fullName o h)).
    { intros h Hh. repeat split. exists h0. rewrite Hfih, Hk. auto. }
    unfold processDirectory_with.
    destruct (IncludePermissions (tar_of w)), (IncludeOwners (tar_of w));
      run_monad; crush_matches;
      (eexists; split; [trace_eq | calls_ok Hok]). }
  destruct (Z.land (os.Mode (info o)) os.ModeSymlink =? os.ModeSymlink) eqn:Hsym.
  { pose proof (classify_symlink' _ Hdir Hsym) as Hk.
    destruct (cleanLinkName_run o (target (tar_of w)) fullName w)
      as (r & Hr & Hrun).
    assert (Hok : forall h link,
      r = inr link ->
      (tar.Typeflag h = tar.Typeflag h0 /\ tar.Size h = tar.Size h0 /\
       tar.Linkname h = link /\
       tar.Devmajor h = tar.Devmajor h0 /\ tar.Devminor h = tar.Devminor h0) ->
      call_ok (tar_of w) fullName o (EvWriteHeader fullName o h)).
    { intros h link -> (H1 & H2 & H3 & H4 & H5). repeat split.
      exists h0. rewrite Hfih, Hk, H3. repeat split; auto. }
    rewrite bind_eq, Hrun.
    destruct r as [e|link]; [eexists; split; [simpl; trace_eq|]|].
    { repeat constructor. exact Hk. }
    assert (Hok' : forall h,
      (tar.Typeflag h = tar.Typeflag h0 /\ tar.Size h = tar.Size h0 /\
       tar.Linkname h = link /\
       tar.Devmajor h = tar.Devmajor h0 /\ tar.Devminor h = tar.Devminor h0) ->
      call_ok (tar_of w) fullName o (EvWriteHeader fullName o h))
      by (intros h; apply (Hok h link eq_refl)).
    clear Hok.
    destruct (IncludePermissions (tar_of w)), (IncludeOwners (tar_of w));
      run_monad; crush_matches;
      (eexists; split; [trace_eq | calls_ok Hok']). }
  destruct (Z.land (os.Mode (info o)) os.ModeType =? 0) eqn:Hreg.
  { pose proof (classify_regular' _ Hdir Hsym Hreg) as Hk.
    assert (Hok : forall h,
      (tar.Devmajor h = tar.Devmajor h0 /\ tar.Devminor h = tar.Devminor h0) ->
      call_ok (tar_of w) fullName o (EvWriteHeader fullName o h)).
    { intros h Hh. repeat split. exists h0. rewrite Hfih, Hk. auto. }
    unfold processRegular.
    destruct (IncludePermissions (tar_of w)), (IncludeOwners (tar_of w));
      run_monad; crush_matches;
      (eexists; split; [trace_eq | calls_ok Hok]). }
  destruct ((Z.land (os.Mode (info o)) os.ModeDevice =? os.ModeDevice)
            || (Z.land (os.Mode (info o)) os.ModeCharDevice =? os.ModeCharDevice))
    eqn:Hdev.
  { pose proof (classify_device _ Hdir Hsym Hreg Hdev) as Hk.
    unfold processDevice. rewrite bind_get_tar, bind_eq.
    unfold os_Stat at 1. rewrite bind_eq. cbn [emit fst snd].
    unfold ret at 1.
    destruct (stat o) as [e|fi] eqn:Hstat.
    { eexists; split; [simpl; trace_eq|]. repeat constructor. exact Hk. }
    assert (Hok : forall h,
      (tar.Typeflag h = tar.Typeflag h0 /\ tar.Size h = tar.Size h0 /\
       tar.Linkname h = tar.Linkname h0 /\
       match os.Sys fi with
       | Some sys =>
         tar.Devmajor h = majordev (int64_of_uint64 (syscall.Rdev sys)) /\
         tar.Devminor h = minordev (int64_of_uint64 (syscall.Rdev sys))
       | None =>
         tar.Devmajor h = tar.Devmajor h0 /\ tar.Devminor h = tar.Devminor h0
       end) ->
      call_ok (tar_of w) fullName o (EvWriteHeader fullName o h)).
    { intros h (H1 & H2 & H3 & H4). repeat split.
      exists h0. rewrite Hfih, Hk. repeat split; auto. exists fi. auto. }
    destruct (os.Sys fi) as [sys|];
      destruct (IncludeOwners (tar_of w));
      run_monad; crush_matches;
      (eexists; split; [trace_eq | calls_ok Hok]). }
  destruct (Z.land (os.Mode (info o)) os.ModeSocket =? os.ModeSocket);
    exists []; (split; [trace_eq | constructor]).
Qed.

End Calls.

(** ** From the visits to the run *)

Section Lift.

Context `{D : Decls}.
Variable fs : filesystem.

(** A property of the calls of a visit that reads the target of the
    archiver only. *)
Variable P : Tar -> string -> object -> event -> Prop.

Hypothesis P_target :
  forall t t' fullName o e,
    target t = target t' -> P t fullName o e -> P t' fullName o e.

Hypothesis P_visit :
  forall fullName o w,
    exists evs,
      trace (snd (visit fs fullName o w)) = trace w ++ evs /\
      Forall (P (tar_of w) fullName o) evs.

(** [e] is a call of the visit of one of the objects [l]. *)
Definition call_of (t : Tar) (l : list (string * object)) (e : event) : Prop :=
  exists fullName o, In (fullName, o) l /\ P t fullName o e.

Lemma call_of_target t t' l e :
  target t = target t' -> call_of t l e -> call_of t' l e.
Proof.
  intros Ht (fullName & o & Hin & He). exists fullName, o. eauto.
Qed.

Lemma config_target t t' : config t = config t' -> target t = target t'.
Proof.
  intros H. change (target (config t) = target (config t')). rewrite H.
  reflexivity.
Qed.

Lemma visit_all_calls l : forall w,
  exists evs,
    trace (snd (visit_all fs l w)) = trace w ++ evs /\
    Forall (call_of (tar_of w) l) evs.
Proof.
  induction l as [|[fullName o] l IH]; intros w; simpl.
  - exists []. split; [trace_eq | constructor].
  - rewrite bind_eq.
    destruct (P_visit fullName o w) as (evs1 & Ht1 & Hf1).
    pose proof (framed_visit fs fullName o w) as (Hcfg & _).
    assert (Hf1' : Forall (call_of (tar_of w) ((fullName, o) :: l)) evs1).
    { eapply List.Forall_impl; [|exact Hf1].
      intros e He. exists fullName, o. split; [left; reflexivity | exact He]. }
    destruct (visit fs fullName o w) as [[[e|]|] w1]; simpl in *.
    1,3: exists evs1; split; assumption.
    destruct (IH w1) as (evs2 & Ht2 & Hf2).
    exists (evs1 ++ evs2). split.
    + rewrite Ht2, Ht1. symmetry. apply app_assoc.
    + apply List.Forall_app. split; [exact Hf1'|].
      eapply List.Forall_impl; [|exact Hf2].
      intros e (fullName' & o' & Hin & He). exists fullName', o'.
      split; [right; exact Hin|].
      eapply P_target; [|exact He]. apply config_target. exact Hcfg.
Qed.

Lemma Archive_walk_calls w :
  exists evs,
    trace (snd (Archive_walk fs w)) = trace w ++ evs /\
    Forall (call_of (tar_of w) (walk_root fs (tar_of w))) evs.
Proof.
  unfold Archive_walk, walk_root.
  destruct (root fs) as [e|n].
  - exists []. split; [trace_eq | constructor].
  - rewrite bind_eq, processEntry_walk.
    destruct (visit_all_calls (walk (tar_of w) "." n) w) as (evs & Ht & Hf).
    destruct (visit_all fs _ w) as [[[e|]|] w1]; simpl in *;
      exists evs; split; assumption.
Qed.

(** The calls of a run: those that create the writers, those of the
    visits of the walk, and those that close the writers. *)
Lemma Archive_calls w :
  exists pre evs post,
    trace (snd (Archive fs w)) = trace w ++ pre ++ evs ++ post /\
    Forall (fun e => e = EvGzipNewWriter \/ exists wr, e = EvTarNewWriter wr) pre /\
    Forall (call_of (tar_of w) (walk_root fs (tar_of w))) evs /\
    Forall (fun e => e = EvTarClose \/ e = EvGzipClose) post.
Proof.
  destruct (Archive_as_walk fs w) as
    [(post & Ht & Hf & _) | (wr & pre & ds & post & Hpre & Hpost & _ & Ht & _)].
  - exists [], [], post. repeat split; auto.
  - simpl in *.
    destruct (Archive_walk_calls
                (mkWorld (walk_started w wr) (trace w ++ pre) ds))
      as (evs & Ht' & Hf').
    exists pre, evs, post. repeat split; auto.
    + rewrite Ht, Ht'. simpl. rewrite <- !app_assoc. reflexivity.
    + eapply List.Forall_impl; [|exact Hpre]. intros e [-> | ->]; eauto.
    + eapply List.Forall_impl; [|exact Hf']. simpl. intros e He.
      assert (Hs : same_settings (walk_started w wr) (tar_of w))
        by (repeat split).
      unfold walk_root in *.
      destruct (root fs) as [|n].
      * eapply call_of_target; [|exact He]. reflexivity.
      * rewrite <- (walk_settings n _ _ "." Hs).
        eapply call_of_target; [|exact He]. reflexivity.
Qed.

End Lift.

(** ** The calls and the headers of a run *)

Section RunCalls.

Context `{D : Decls}.
Variable fs : filesystem.

Lemma call_ok_target t t' fullName o e :
  target t = target t' -> call_ok fs t fullName o e -> call_ok fs t' fullName o e.
Proof.
  intros Ht. unfold call_ok, header_fields_ok. rewrite Ht. exact id.
Qed.

Lemma Archive_call_ok w :
  exists pre evs post,
    trace (snd (Archive fs w)) = trace w ++ pre ++ evs ++ post /\
    Forall (fun e => e = EvGzipNewWriter \/ exists wr, e = EvTarNewWriter wr) pre /\
    Forall (call_of (call_ok fs) (tar_of w) (walk_root fs (tar_of w))) evs /\
    Forall (fun e => e = EvTarClose \/ e = EvGzipClose) post.
Proof.
  apply Archive_calls.
  - apply call_ok_target.
  - apply visit_calls.
Qed.

(** Every header of a run is for an object of the walk and is as
    [header_fields_ok] says. *)
Lemma Archive_header_fields w :
  exists evs,
    trace (snd (Archive fs w)) = trace w ++ evs /\
    forall fullName o h,
      In (EvWriteHeader fullName o h) evs ->
      In (fullName, o) (walk_root fs (tar_of w)) /\
      header_fields_ok fs (tar_of w) fullName o h.
Proof.
  destruct (Archive_call_ok w) as (pre & evs & post & Ht & Hpre & Hevs & Hpost).
  exists (pre ++ evs ++ post). split; [exact Ht|].
  intros fullName o h Hin.
  rewrite List.Forall_forall in Hpre, Hevs, Hpost.
  apply in_app_or in Hin as [Hin | Hin];
    [apply Hpre in Hin as [? | [? ?]]; discriminate|].
  apply in_app_or in Hin as [Hin | Hin];
    [|apply Hpost in Hin as [? | ?]; discriminate].
  destruct (Hevs _ Hin) as (fullName' & o' & Hw & <- & <- & Hok).
  split; assumption.
Qed.

(** X1.  The calls of a run, between those that create the writers and
    those that close them, are calls of the visit of an object of the
    walk: a call on the filesystem is on the path of that object below
    the target, and it is the call of the branch of the object.  Only
    directories are listed, only symbolic links are read, only regular
    files are opened, copied from and closed, only devices are looked up
    with [os.Stat]; a header is written for these four kinds only, so
    nothing is written or read for a socket or a named pipe. *)
Theorem Archive_calls_below_target (w : world) :
  exists pre evs post,
    trace (snd (Archive fs w)) = trace w ++ pre ++ evs ++ post /\
    Forall (fun e => e = EvGzipNewWriter \/ exists wr, e = EvTarNewWriter wr) pre /\
    Forall (fun e => e = EvTarClose \/ e = EvGzipClose) post /\
    forall e,
      In e evs ->
      exists fullName o,
        In (fullName, o) (walk_root fs (tar_of w)) /\
        let path := filepath.Join [target (tar_of w); fullName] in
        match e with
        | EvReadDir p => p = path /\ classify (info o) = KDir
        | EvReadlink p => p = path /\ classify (info o) = KSymlink
        | EvStat p => p = path /\ classify (info o) = KDevice
        | EvOpen p => p = path /\ classify (info o) = KRegular
        | EvCloseFile p => p = path /\ classify (info o) = KRegular
        | EvCopy data => data = fst (copy o) /\ classify (info o) = KRegular
        | EvFlush => classify (info o) = KRegular
        | EvWriteHeader fullName' o' _ =>
          fullName' = fullName /\ o' = o /\ archivable (info o) = true
        | EvTarNewWriter _ | EvGzipNewWriter | EvTarClose | EvGzipClose => False
        end.
Proof.
  destruct (Archive_call_ok w) as (pre & evs & post & Ht & Hpre & Hevs & Hpost).
  exists pre, evs, post. repeat split; auto.
  intros e Hin. rewrite List.Forall_forall in Hevs.
  destruct (Hevs _ Hin) as (fullName & o & Hw & He).
  exists fullName, o. split; [exact Hw|].
  destruct e; simpl in *; auto.
  destruct He as (-> & -> & h0 & _ & Hk). repeat split.
  unfold archivable. destruct (classify (info o)); tauto.
Qed.

(** X2.  The header of a device carries the device numbers that
    [majordev] and [minordev] derive from the [Rdev] of the [os.Stat] made
    in the device branch; when the [FileInfo] of that [os.Stat] is not
    backed by a [*syscall.Stat_t], the numbers are those [FileInfoHeader]
    set.  The type flag, the size and the link name are those of
    [FileInfoHeader].  A header is written for a device only when that
    [os.Stat] succeeded. *)
Theorem Archive_device_numbers (w : world) :
  exists evs,
    trace (snd (Archive fs w)) = trace w ++ evs /\
    forall fullName o h,
      In (EvWriteHeader fullName o h) evs ->
      classify (info o) = KDevice ->
      exists h0 fi,
        FileInfoHeader (info o) "" = inr h0 /\
        stat o = inr fi /\
        tar.Typeflag h = tar.Typeflag h0 /\
        tar.Size h = tar.Size h0 /\
        tar.Linkname h = tar.Linkname h0 /\
        match os.Sys fi with
        | Some sys =>
          tar.Devmajor h = majordev (int64_of_uint64 (syscall.Rdev sys)) /\
          tar.Devminor h = minordev (int64_of_uint64 (syscall.Rdev sys))
        | None =>
          tar.Devmajor h = tar.Devmajor h0 /\ tar.Devminor h = tar.Devminor h0
        end.
Proof.
  destruct (Archive_header_fields w) as (evs & Ht & Hf).
  exists evs. split; [exact Ht|].
  intros fullName o h Hin Hk.
  destruct (Hf _ _ _ Hin) as (_ & h0 & Hfih & Hfields).
  rewrite Hk in Hfields.
  destruct Hfields as (H1 & H2 & H3 & fi & Hstat & Hdev).
  exists h0, fi. repeat split; assumption.
Qed.

(** X3.  The header of a symbolic link carries, as its link name, the
    link [cleanLinkName] returned for the target of the run and the
    relative path of the link; no header is written for a link for which
    [cleanLinkName] returned an error.  The type flag, the size and the
    device numbers are those of [FileInfoHeader]. *)
Theorem Archive_symlink_names (w : world) :
  exists evs,
    trace (snd (Archive fs w)) = trace w ++ evs /\
    forall fullName o h,
      In (EvWriteHeader fullName o h) evs ->
      classify (info o) = KSymlink ->
      (forall w',
          fst (cleanLinkName fs o (target (tar_of w)) fullName w')
          = Return (inr (tar.Linkname h))) /\
      exists h0,
        FileInfoHeader (info o) "" = inr h0 /\
        tar.Typeflag h = tar.Typeflag h0 /\
        tar.Size h = tar.Size h0 /\
        tar.Devmajor h = tar.Devmajor h0 /\
        tar.Devminor h = tar.Devminor h0.
Proof.
  destruct (Archive_header_fields w) as (evs & Ht & Hf).
  exists evs. split; [exact Ht|].
  intros fullName o h Hin Hk.
  destruct (Hf _ _ _ Hin) as (_ & h0 & Hfih & Hfields).
  rewrite Hk in Hfields.
  destruct Hfields as (H1 & H2 & H3 & H4 & H5).
  split; [exact H3|]. exists h0. repeat split; assumption.
Qed.

(** X4.  With [IncludeOwners] every header carries the user and the
    group of the object as its [syscall.Stat_t] has them; without it,
    every header carries user 500 and group 500.  The modification time
    is the one [FileInfoHeader] set. *)
Theorem Archive_entry_owners (w : world) :
  exists evs,
    trace (snd (Archive fs w)) = trace w ++ evs /\
    forall fullName o h,
      In (EvWriteHeader fullName o h) evs ->
      (IncludeOwners (tar_of w) = false -> tar.Uid h = 500 /\ tar.Gid h = 500) /\
      (IncludeOwners (tar_of w) = true ->
       exists st,
         os.Sys (info o) = Some st /\
         tar.Uid h = syscall.Uid st /\ tar.Gid h = syscall.Gid st) /\
      exists h0,
        FileInfoHeader (info o) "" = inr h0 /\ tar.ModTime h = tar.ModTime h0.
Proof.
  destruct (Archive_headers fs w) as (evs & Ht & Hf).
  exists evs. split; [exact Ht|].
  intros fullName o h Hin.
  rewrite List.Forall_forall in Hf. specialize (Hf _ Hin).
  destruct Hf as (_ & _ & h0 & st & Hfih & Hsys & _ & _ & Hu & Hg & Hm).
  repeat split.
  - rewrite Hu, H. reflexivity.
  - rewrite Hg, H. reflexivity.
  - intros Ho. rewrite Ho in Hu, Hg. exists st. auto.
  - exists h0. auto.
Qed.

End RunCalls.

(** ** The entries of a run *)

Section Entries.

Context `{D : Decls}.
Variable fs : filesystem.

(** The data that follows the header [h] of [o] in a complete entry: what
    [io.Copy] delivered, for a regular file whose header kept the type
    flag [TypeReg]; nothing otherwise. *)
Definition entry_data (o : object) (h : tar.Header) : list string :=
  match classify (info o) with
  | KRegular => if tar.Typeflag h =? TypeReg then [fst (copy o)] else []
  | _ => []
  end.

(** The object at [fullName] gets an entry: it is not excluded and of a
    kind that is archived. *)
Definition archived (t : Tar) (x : string * object) : bool :=
  negb (shouldBeExcluded t (fst x)) && archivable (info (snd x)).

Definition entry_of (e : entry) : string * object := (e_path e, e_object e).

(** The entries a visit wrote: none or one, for the object visited; all
    of it when the visit returned nil. *)
Definition visit_entries (t : Tar) (fullName : string) (o : object)
           (r : result (option error)) (es : list entry) : Prop :=
  (es = [] \/
   exists h d,
     es = [mkEntry fullName o h d] /\
     archived t (fullName, o) = true /\
     (d = [] \/ d = entry_data o h)) /\
  (r = Return None ->
   if archived t (fullName, o)
   then exists h d, es = [mkEntry fullName o h d] /\ d = entry_data o h
   else es = []).

Ltac use_tests :=
  simpl;
  repeat match goal with
         | H : (_ =? _) = _ |- _ => rewrite H
         end.

Ltac entries_ok :=
  split;
  [ first [ left; reflexivity
          | right; eexists; eexists;
            split; [reflexivity|]; split; [reflexivity|];
            first [ left; reflexivity | right; use_tests; reflexivity ] ]
  | first [ discriminate
          | intros _;
            first [ reflexivity
                  | eexists; eexists; split; [reflexivity|];
                    use_tests; reflexivity ] ] ].

Lemma visit_entry fullName o w :
  exists evs,
    trace (snd (visit fs fullName o w)) = trace w ++ evs /\
    data_of evs = [] /\
    visit_entries (tar_of w) fullName o (fst (visit fs fullName o w))
                  (entries evs).
Proof.
  unfold visit_entries, archived, archivable, entry_data. cbn [fst snd].
  unfold visit. cbn [processEntry]. rewrite bind_get_tar.
  destruct (shouldBeExcluded (tar_of w) fullName) eqn:Hex.
  { exists []. repeat split; [trace_eq | left; reflexivity]. }
  cbn [negb andb].
  destruct (FileInfoHeader (info o) "") as [e|h0] eqn:Hfih.
  { exists []. repeat split; [trace_eq | left; reflexivity | discriminate]. }
  destruct (os.Sys (info o)) as [st|] eqn:Hsys.
  2:{ exists []. repeat split; [trace_eq | left; reflexivity | discriminate]. }
  destruct (os.IsDir (info o)) eqn:Hdir.
  { rewrite (classify_dir _ Hdir).
    unfold processDirectory_with. run_monad.
    crush_matches;
      (eexists; split; [trace_eq|]; split; [reflexivity|]); entries_ok. }
  destruct (Z.land (os.Mode (info o)) os.ModeSymlink =? os.ModeSymlink) eqn:Hsym.
  { rewrite (classify_symlink' _ Hdir Hsym).
    unfold cleanLinkName. run_monad.
    crush_matches;
      (eexists; split; [trace_eq|]; split; [reflexivity|]); entries_ok. }
  destruct (Z.land (os.Mode (info o)) os.ModeType =? 0) eqn:Hreg.
  { rewrite (classify_regular' _ Hdir Hsym Hreg).
    unfold processRegular. run_monad.
    crush_matches;
      (eexists; split; [trace_eq|]; split; [reflexivity|]); entries_ok. }
  destruct ((Z.land (os.Mode (info o)) os.ModeDevice =? os.ModeDevice)
            || (Z.land (os.Mode (info o)) os.ModeCharDevice =? os.ModeCharDevice))
    eqn:Hdev.
  { rewrite (classify_device _ Hdir Hsym Hreg Hdev).
    unfold processDevice. run_monad.
    crush_matches;
      (eexists; split; [trace_eq|]; split; [reflexivity|]); entries_ok. }
  unfold classify. rewrite Hdir, Hsym, Hreg, Hdev.
  destruct (Z.land (os.Mode (info o)) os.ModeSocket =? os.ModeSocket);
    exists []; (repeat split; [trace_eq | left; reflexivity]).
Qed.

Lemma archived_config t t' x :
  config t = config t' -> archived t x = archived t' x.
Proof.
  intros H. unfold archived. rewrite (shouldBeExcluded_config t t' _ H).
  reflexivity.
Qed.

(** The data of [e] is complete, or none of it was written. *)
Definition data_ok (complete : bool) (e : entry) : Prop :=
  (complete = false /\ e_data e = []) \/
  e_data e = entry_data (e_object e) (e_header e).

Lemma data_ok_weaken e : data_ok true e -> data_ok false e.
Proof. intros [[? _] | H]; [discriminate | right; exact H]. Qed.

Lemma visit_all_entries l : forall w,
  exists evs,
    trace (snd (visit_all fs l w)) = trace w ++ evs /\
    data_of evs = [] /\
    (exists rest,
        List.filter (archived (tar_of w)) l =
          List.map entry_of (entries evs) ++ rest) /\
    Forall (data_ok false) (entries evs) /\
    (fst (visit_all fs l w) = Return None ->
     List.map entry_of (entries evs) = List.filter (archived (tar_of w)) l /\
     Forall (data_ok true) (entries evs)).
Proof.
  induction l as [|[fullName o] l IH]; intros w; simpl.
  - exists []. simpl.
    split; [trace_eq|]. split; [reflexivity|].
    split; [exists []; reflexivity|]. split; [constructor|].
    intros _. split; [reflexivity | constructor].
  - rewrite bind_eq.
    destruct (visit_entry fullName o w) as (evs1 & Ht1 & Hd1 & Hsome & Hall).
    pose proof (framed_visit fs fullName o w) as (Hcfg & _).
    assert (Hpre : exists rest,
               (if archived (tar_of w) (fullName, o)
                then (fullName, o) :: List.filter (archived (tar_of w)) l
                else List.filter (archived (tar_of w)) l) =
               List.map entry_of (entries evs1) ++ rest).
    { destruct Hsome as [-> | (h & d & -> & -> & _)]; simpl; eauto. }
    assert (Hdata : Forall (data_ok false) (entries evs1)).
    { destruct Hsome as [-> | (h & d & -> & _ & Hd)]; [constructor|].
      constructor; [|constructor].
      destruct Hd as [-> | ->]; [left; auto | right; reflexivity]. }
    destruct (visit fs fullName o w) as [[[e|]|] w1]; simpl in *.
    1,3: exists evs1; split; [exact Ht1|]; split; [exact Hd1|];
      split; [exact Hpre|]; split; [exact Hdata | discriminate].
    specialize (Hall eq_refl).
    destruct (IH w1) as (evs2 & Ht2 & Hd2 & (rest & Hrest) & Hdata2 & Hall2).
    rewrite (List.filter_ext _ _ (fun x => archived_config _ _ x Hcfg)) in Hrest.
    exists (evs1 ++ evs2).
    split; [rewrite Ht2, Ht1; symmetry; apply app_assoc|].
    split; [apply data_of_app_nil; assumption|].
    rewrite entries_app by exact Hd2. rewrite List.map_app.
    assert (Hhead : (if archived (tar_of w) (fullName, o)
                     then (fullName, o) :: List.filter (archived (tar_of w)) l
                     else List.filter (archived (tar_of w)) l) =
                    List.map entry_of (entries evs1)
                    ++ List.filter (archived (tar_of w)) l /\
                    Forall (data_ok true) (entries evs1)).
    { destruct (archived (tar_of w) (fullName, o)).
      - destruct Hall as (h & d & -> & ->). split; [reflexivity|].
        constructor; [|constructor]. right. reflexivity.
      - rewrite Hall. split; [reflexivity | constructor]. }
    destruct Hhead as [Hhead Hdata1].
    split; [|split].
    + exists rest. rewrite Hhead, Hrest. apply app_assoc.
    + apply List.Forall_app. split; assumption.
    + intros Hr. destruct (Hall2 Hr) as [Hmap Hd].
      rewrite (List.filter_ext _ _ (fun x => archived_config _ _ x Hcfg)) in Hmap.
      split.
      * rewrite Hhead, Hmap. reflexivity.
      * apply List.Forall_app. split; assumption.
Qed.

Lemma walk_not_excluded t n : forall fullName x,
  In x (walk t fullName n) -> shouldBeExcluded t (fst x) = false.
Proof.
  induction n as [o files IH] using fsnode_ind'. intros fullName x Hin.
  simpl in Hin.
  destruct (shouldBeExcluded t fullName) eqn:Hex; [contradiction|].
  destruct Hin as [<- | Hin]; [exact Hex|].
  destruct (os.IsDir (info o)); [|contradiction].
  apply in_flat_map in Hin as (c & Hc & Hin).
  rewrite List.Forall_forall in IH. eapply IH; eassumption.
Qed.

Lemma filter_archived_walk t n fullName :
  List.filter (archived t) (walk t fullName n) =
    List.filter (fun x => archivable (info (snd x))) (walk t fullName n).
Proof.
  apply List.filter_ext_in. intros x Hin. unfold archived.
  rewrite (walk_not_excluded _ _ _ _ Hin). reflexivity.
Qed.

(** The entries of a run: those of the walk, between calls that write
    none. *)
Lemma Archive_entries w :
  exists evs,
    trace (snd (Archive fs w)) = trace w ++ evs /\
    (exists rest,
        List.filter (fun x => archivable (info (snd x)))
                    (walk_root fs (tar_of w)) =
          List.map entry_of (entries evs) ++ rest) /\
    Forall (data_ok false) (entries evs) /\
    (fst (Archive fs w) = Return None ->
     List.map entry_of (entries evs) =
       List.filter (fun x => archivable (info (snd x)))
                   (walk_root fs (tar_of w)) /\
     Forall (data_ok true) (entries evs)).
Proof.
  destruct (Archive_as_walk fs w) as
    [(post & Ht & Hpost & _ & e & He)
    | (wr & pre & ds & post & Hpre & Hpost & Hr & Ht & _)].
  - exists post. split; [exact Ht|].
    destruct (entries_closing post Hpost) as [_ ->]. simpl.
    split; [eexists; reflexivity|]. split; [constructor|].
    rewrite He. discriminate.
  - simpl in *. rewrite Hr.
    destruct (entries_closing post Hpost) as [Hdpost Hepost].
    set (w0 := mkWorld (walk_started w wr) (trace w ++ pre) ds) in *.
    assert (Hs : same_settings (walk_started w wr) (tar_of w))
      by (repeat split).
    assert (Hwalk : exists evs,
      trace (snd (Archive_walk fs w0)) = trace w0 ++ evs /\
      data_of evs = [] /\
      (exists rest,
          List.filter (fun x => archivable (info (snd x)))
                      (walk_root fs (tar_of w)) =
            List.map entry_of (entries evs) ++ rest) /\
      Forall (data_ok false) (entries evs) /\
      (fst (Archive_walk fs w0) = Return None ->
       List.map entry_of (entries evs) =
         List.filter (fun x => archivable (info (snd x)))
                     (walk_root fs (tar_of w)) /\
       Forall (data_ok true) (entries evs))).
    { unfold Archive_walk, walk_root. destruct (root fs) as [e|n].
      - exists []. simpl.
        split; [trace_eq|]. split; [reflexivity|].
        split; [exists []; reflexivity|]. split; [constructor | discriminate].
      - rewrite bind_eq, processEntry_walk.
        destruct (visit_all_entries (walk (tar_of w0) "." n) w0)
          as (evs & Ht' & Hd' & Hrest & Hdata & Hall).
        rewrite filter_archived_walk in Hrest, Hall.
        change (tar_of w0) with (walk_started w wr) in Ht', Hrest, Hall |- *.
        rewrite (walk_settings n _ _ "." Hs) in Ht', Hrest, Hall |- *.
        exists evs.
        destruct (visit_all fs _ w0) as [[[e|]|] w1]; simpl in *;
          (split; [exact Ht'|]; split; [exact Hd'|]; split; [exact Hrest|];
           split; [exact Hdata|]; first [exact Hall | intros; discriminate]). }
    destruct Hwalk as (evs & Ht' & Hd' & Hrest & Hdata & Hall).
    exists (pre ++ evs ++ post). split.
    + rewrite Ht, Ht'. simpl. rewrite <- !app_assoc. reflexivity.
    + rewrite (entries_opening wr) by exact Hpre.
      rewrite entries_app by exact Hdpost. rewrite Hepost, app_nil_r.
      split; [exact Hrest|]. split; [exact Hdata | exact Hall].
Qed.

(** X5.  Whatever the outcome of a run, its entries are, in the order
    of the walk, entries for the first objects of the walk that are of
    an archived kind (directory, symbolic link, regular file, device),
    one for each: the directory comes before what it lists, and no object
    is skipped or written twice.  The data after a header is either
    nothing or the data of a complete entry. *)
Theorem Archive_entries_follow_walk (w : world) :
  exists evs rest,
    trace (snd (Archive fs w)) = trace w ++ evs /\
    List.filter (fun x => archivable (info (snd x))) (walk_root fs (tar_of w)) =
      List.map entry_of (entries evs) ++ rest /\
    Forall (fun e => e_data e = [] \/
                     e_data e = entry_data (e_object e) (e_header e))
           (entries evs).
Proof.
  destruct (Archive_entries w) as (evs & Ht & (rest & Hrest) & Hdata & _).
  exists evs, rest. split; [exact Ht|]. split; [exact Hrest|].
  eapply List.Forall_impl; [|exact Hdata].
  intros e [[_ H] | H]; auto.
Qed.

(** X6.  A run that returns nil has written one entry for every object
    of the walk that is of an archived kind, in the order of the walk, and
    each entry is complete: the header of a regular file that kept the
    type flag [TypeReg] is followed by what [io.Copy] delivered from the
    file, and every other header by no data. *)
Theorem Archive_success_entries (w : world) :
  fst (Archive fs w) = Return None ->
  exists evs,
    trace (snd (Archive fs w)) = trace w ++ evs /\
    List.map entry_of (entries evs) =
      List.filter (fun x => archivable (info (snd x)))
                  (walk_root fs (tar_of w)) /\
    Forall (fun e => e_data e = entry_data (e_object e) (e_header e))
           (entries evs).
Proof.
  intros Hr.
  destruct (Archive_entries w) as (evs & Ht & _ & _ & Hall).
  destruct (Hall Hr) as [Hmap Hdata].
  exists evs. split; [exact Ht|]. split; [exact Hmap|].
  eapply List.Forall_impl; [|exact Hdata].
  intros e [[? _] | H]; [discriminate | exact H].
Qed.

End Entries.

(** ** The archiver after a run *)

Section AfterRun.

Context `{D : Decls}.
Variable fs : filesystem.

(** A visit leaves the hard-link table as it was or adds one inode that
    was not in it. *)
Lemma visit_hardLinks fullName o w :
  let hl := hardLinks (tar_of w) in
  let hl' := hardLinks (tar_of (snd (visit fs fullName o w))) in
  hl' = hl \/ exists i name, hl !! i = None /\ hl' = <[i := name]> hl.
Proof.
  unfold visit. cbn [processEntry]. rewrite bind_get_tar.
  unfold processDirectory_with, cleanLinkName, processRegular, processDevice.
  run_monad. crush_matches; auto.
  all: right; eexists; eexists; split; [eassumption | reflexivity].
Qed.

Lemma visit_all_hardLinks l : forall w,
  hardLinks (tar_of w) ⊆ hardLinks (tar_of (snd (visit_all fs l w))).
Proof.
  induction l as [|[fullName o] l IH]; intros w; simpl; [reflexivity|].
  rewrite bind_eq.
  pose proof (visit_hardLinks fullName o w) as Hv. simpl in Hv.
  assert (Hsub : hardLinks (tar_of w)
                 ⊆ hardLinks (tar_of (snd (visit fs fullName o w)))).
  { destruct Hv as [-> | (i & name & Hi & ->)]; [reflexivity|].
    apply insert_subseteq. exact Hi. }
  destruct (visit fs fullName o w) as [[[e|]|] w1]; simpl in *; auto.
  etrans; [exact Hsub | apply IH].
Qed.

Lemma Archive_walk_hardLinks w :
  hardLinks (tar_of w) ⊆ hardLinks (tar_of (snd (Archive_walk fs w))).
Proof.
  unfold Archive_walk. destruct (root fs) as [e|n]; [reflexivity|].
  rewrite bind_eq, processEntry_walk.
  pose proof (visit_all_hardLinks (walk (tar_of w) "." n) w) as H.
  destruct (visit_all fs _ w) as [[[e|]|] w1]; exact H.
Qed.

Lemma run_all_deferred_config ds : forall w,
  let w' := run_all_deferred ds w in
  target (tar_of w') = target (tar_of w) /\
  Compression (tar_of w') = Compression (tar_of w) /\
  IncludePermissions (tar_of w') = IncludePermissions (tar_of w) /\
  IncludeOwners (tar_of w') = IncludeOwners (tar_of w) /\
  ExcludedPaths (tar_of w') = ExcludedPaths (tar_of w) /\
  VirtualPath (tar_of w') = VirtualPath (tar_of w) /\
  (In DeferCloseArchive ds \/ archive (tar_of w) = None ->
   archive (tar_of w') = None).
Proof.
  induction ds as [|d ds IH]; intros w; simpl.
  - repeat split. intros [[] | H]. exact H.
  - assert (Hd :
      let w1 := snd (run_deferred d w) in
      target (tar_of w1) = target (tar_of w) /\
      Compression (tar_of w1) = Compression (tar_of w) /\
      IncludePermissions (tar_of w1) = IncludePermissions (tar_of w) /\
      IncludeOwners (tar_of w1) = IncludeOwners (tar_of w) /\
      ExcludedPaths (tar_of w1) = ExcludedPaths (tar_of w) /\
      VirtualPath (tar_of w1) = VirtualPath (tar_of w) /\
      (d = DeferCloseArchive \/ archive (tar_of w) = None ->
       archive (tar_of w1) = None)).
    { destruct d; unfold run_deferred; run_monad.
      - destruct (archive (tar_of w)) eqn:Ha; simpl; repeat split; auto.
      - repeat split. intros [Hd | Ha]; [discriminate | exact Ha]. }
    simpl in Hd. destruct Hd as (E1 & E2 & E3 & E4 & E5 & E6 & E7).
    destruct (IH (snd (run_deferred d w))) as (H1 & H2 & H3 & H4 & H5 & H6 & H7).
    rewrite H1, H2, H3, H4, H5, H6.
    repeat split; try assumption.
    intros [[Hd | Hin] | Ha].
    + apply H7. right. apply E7. left. exact Hd.
    + apply H7. left. exact Hin.
    + apply H7. right. apply E7. right. exact Ha.
Qed.

(** X7.  A run changes nothing of the archiver but its hard-link
    table, which it only extends: the target, the compression, the two
    flags, the exclusion list and the virtual path are as before, and the
    inodes the table held keep their names.  However the run ends, by an
    error or a panic as well, [t.archive] is nil afterwards. *)
Theorem Archive_restores_archiver (w : world) :
  let t := tar_of w in
  let t' := tar_of (snd (Archive fs w)) in
  target t' = target t /\
  Compression t' = Compression t /\
  IncludePermissions t' = IncludePermissions t /\
  IncludeOwners t' = IncludeOwners t /\
  ExcludedPaths t' = ExcludedPaths t /\
  VirtualPath t' = VirtualPath t /\
  archive t' = None /\
  (forall i name, hardLinks t !! i = Some name -> hardLinks t' !! i = Some name).
Proof.
  assert (Hbody : forall w0,
    deferred w0 = [] ->
    let w1 := snd (Archive_body fs w0) in
    target (tar_of w1) = target (tar_of w0) /\
    Compression (tar_of w1) = Compression (tar_of w0) /\
    IncludePermissions (tar_of w1) = IncludePermissions (tar_of w0) /\
    IncludeOwners (tar_of w1) = IncludeOwners (tar_of w0) /\
    ExcludedPaths (tar_of w1) = ExcludedPaths (tar_of w0) /\
    VirtualPath (tar_of w1) = VirtualPath (tar_of w0) /\
    In DeferCloseArchive (rev (deferred w1)) /\
    hardLinks (tar_of w0) ⊆ hardLinks (tar_of w1)).
  { intros [t tr ds] Hds. simpl in Hds. subst ds.
    unfold Archive_body. rewrite !bind_eq. simpl. rewrite !bind_eq. simpl.
    assert (Hwalk : forall w0,
      In DeferCloseArchive (deferred w0) ->
      let w1 := snd (Archive_walk fs w0) in
      config (tar_of w1) = config (tar_of w0) /\
      In DeferCloseArchive (rev (deferred w1)) /\
      hardLinks (tar_of w0) ⊆ hardLinks (tar_of w1)).
    { intros w0 Hin. simpl.
      destruct (framed_Archive_walk fs w0) as (Hc & Hd & _).
      split; [exact Hc|]. split; [|apply Archive_walk_hardLinks].
      rewrite Hd. apply in_rev. rewrite rev_involutive. exact Hin. }
    assert (Hcfg : forall t1 t0 : Tar,
      config t1 = config t0 ->
      target t1 = target t0 /\ Compression t1 = Compression t0 /\
      IncludePermissions t1 = IncludePermissions t0 /\
      IncludeOwners t1 = IncludeOwners t0 /\
      ExcludedPaths t1 = ExcludedPaths t0 /\ VirtualPath t1 = VirtualPath t0).
    { intros t1 t0 H.
      change (target (config t1) = target (config t0) /\
              Compression (config t1) = Compression (config t0) /\
              IncludePermissions (config t1) = IncludePermissions (config t0) /\
              IncludeOwners (config t1) = IncludeOwners (config t0) /\
              ExcludedPaths (config t1) = ExcludedPaths (config t0) /\
              VirtualPath (config t1) = VirtualPath (config t0)).
      rewrite H. repeat split. }
    destruct (Compression t =? NONE); [|destruct (Compression t =? GZIP)].
    - rewrite !bind_eq. simpl. rewrite !bind_eq. simpl.
      match goal with
      | |- context [Archive_walk fs ?w0] =>
        destruct (Hwalk w0) as (Hc & Hin & Hsub); [left; reflexivity|]
      end.
      apply Hcfg in Hc as (H1 & H2 & H3 & H4 & H5 & H6).
      destruct (Archive_walk fs _) as [r w1]. simpl in *.
      repeat split; assumption.
    - rewrite !bind_eq. simpl. rewrite !bind_eq. simpl.
      rewrite !bind_eq. simpl. rewrite !bind_eq. simpl.
      match goal with
      | |- context [Archive_walk fs ?w0] =>
        destruct (Hwalk w0) as (Hc & Hin & Hsub); [left; reflexivity|]
      end.
      apply Hcfg in Hc as (H1 & H2 & H3 & H4 & H5 & H6).
      destruct (Archive_walk fs _) as [r w1]. simpl in *.
      repeat split; assumption.
    - destruct (Compression t =? BZIP2); [|destruct (Compression t =? DETECT)];
        simpl; repeat split; auto. }
  simpl. unfold Archive.
  specialize (Hbody (mkWorld (tar_of w) (trace w) []) eq_refl).
  destruct (Archive_body fs _) as [r w1]. simpl in Hbody.
  destruct Hbody as (H1 & H2 & H3 & H4 & H5 & H6 & Hin & Hsub).
  destruct (run_all_deferred_config (rev (deferred w1)) w1)
    as (G1 & G2 & G3 & G4 & G5 & G6 & G7).
  destruct (run_all_deferred_trace (rev (deferred w1)) w1) as (_ & _ & _ & Hh).
  cbn [snd tar_of].
  repeat split; try congruence.
  - apply G7. left. exact Hin.
  - intros i name Hi. rewrite Hh.
    eapply lookup_weaken; eassumption.
Qed.

End AfterRun.

(** ** A run without compression *)

Section PlainRun.

Context `{D : Decls}.
Variable fs : filesystem.

(** A call on a writer: its creation or its [Close]. *)
Definition writer_call (e : event) : bool :=
  match e with
  | EvTarNewWriter _ | EvGzipNewWriter | EvTarClose | EvGzipClose => true
  | _ => false
  end.

(** X8.  A run with [Compression = NONE] creates the archive writer on
    the destination as its first call and closes it as its last call,
    whether the walk returned nil, returned an error or panicked, and
    makes no other call on a writer.  When [os.Stat] of the target fails,
    these are the only two calls and the run returns the error of
    [os.Stat]. *)
Theorem Archive_without_compression (w : world) :
  Compression (tar_of w) = NONE ->
  exists evs,
    trace (snd (Archive fs w)) =
      trace w ++ [EvTarNewWriter OnDest] ++ evs ++ [EvTarClose] /\
    Forall (fun e => writer_call e = false) evs /\
    (forall e, root fs = inl e ->
               evs = [] /\ fst (Archive fs w) = Return (Some e)).
Proof.
  intros Hc. destruct w as [t tr ds]. simpl in Hc.
  set (w0 := mkWorld (mkTar (target t) (Some OnDest) (Compression t)
                            (IncludePermissions t) (IncludeOwners t)
                            (ExcludedPaths t) (VirtualPath t) (hardLinks t))
                     (tr ++ [EvTarNewWriter OnDest]) [DeferCloseArchive]).
  pose proof (framed_Archive_walk fs w0) as (Hcfg & Hdef & _).
  destruct (Archive_walk_calls fs (call_ok fs) (call_ok_target fs)
              (visit_calls fs) w0) as (evs & Htr & Hevs).
  assert (Hroot : forall e, root fs = inl e ->
                            evs = [] /\ fst (Archive_walk fs w0) = Return (Some e)).
  { intros e He. unfold Archive_walk in *. rewrite He in *. simpl in Htr.
    split; [|reflexivity].
    apply (app_inv_head (tr ++ [EvTarNewWriter OnDest])).
    rewrite app_nil_r. symmetry. exact Htr. }
  unfold Archive, Archive_body. rewrite !bind_eq. simpl. rewrite !bind_eq. simpl.
  rewrite (proj2 (Z.eqb_eq (Compression t) NONE)) by exact Hc.
  rewrite !bind_eq. simpl. rewrite !bind_eq. simpl.
  fold w0.
  destruct (Archive_walk fs w0) as [r w1]. simpl in *.
  rewrite Hdef. simpl.
  assert (Harch : archive (tar_of w1) = Some OnDest).
  { change (archive (config (tar_of w1)) = Some OnDest). rewrite Hcfg. reflexivity. }
  unfold bind, get_tar, emit, set_archive, ret. simpl. rewrite Harch. simpl.
  exists evs. split; [|split].
  - rewrite Htr, <- !app_assoc. reflexivity.
  - eapply List.Forall_impl; [|exact Hevs].
    intros e (fullName & o & _ & He). destruct e; simpl in *; tauto.
  - exact Hroot.
Qed.

End PlainRun.

(** ** An inode the hard-link table holds before the run *)

Section KnownInode.

Context `{D : Decls}.
Variable fs : filesystem.

Hypothesis TypeReg_TypeLink : TypeReg <> TypeLink.

(** Every entry of [es] for the inode [i] is a link to [name]. *)
Definition all_links (i : Z) (name : string) (es : list entry) : Prop :=
  Forall (is_link_to name) (List.filter (hard_linked i) es).

Lemma visit_known_inode i name fullName o w :
  archive (tar_of w) <> None ->
  hardLinks (tar_of w) !! i = Some name ->
  exists evs,
    trace (snd (visit fs fullName o w)) = trace w ++ evs /\
    data_of evs = [] /\
    hardLinks (tar_of (snd (visit fs fullName o w))) !! i = Some name /\
    all_links i name (entries evs).
Proof.
  intros Harch Hi.
  destruct (visit_summary fs TypeReg_TypeLink fullName o w Harch)
    as (evs & Ht & Hd & Heff).
  exists evs. split; [exact Ht|]. split; [exact Hd|].
  unfold all_links.
  destruct Heff as [[-> ->] | (h & d & -> & Heff)].
  { split; [exact Hi | constructor]. }
  simpl. unfold hard_linked at 1. simpl.
  destruct (link_inode o) as [ino|].
  2:{ rewrite Heff. split; [exact Hi | constructor]. }
  destruct (Z.eqb_spec ino i) as [->|Hne].
  - rewrite Hi in Heff. destruct Heff as (H1 & H2 & H3 & H4 & ->).
    split; [exact Hi|]. repeat constructor; assumption.
  - assert (Hi' : hardLinks (tar_of (snd (visit fs fullName o w))) !! i
                  = Some name).
    { destruct (hardLinks (tar_of w) !! ino).
      - destruct Heff as (_ & _ & _ & _ & ->). exact Hi.
      - destruct Heff as (-> & _). rewrite lookup_insert_ne by exact Hne.
        exact Hi. }
    split; [exact Hi' | constructor].
Qed.

Lemma visit_all_known_inode i name l : forall w,
  archive (tar_of w) <> None ->
  hardLinks (tar_of w) !! i = Some name ->
  exists evs,
    trace (snd (visit_all fs l w)) = trace w ++ evs /\
    data_of evs = [] /\
    hardLinks (tar_of (snd (visit_all fs l w))) !! i = Some name /\
    all_links i name (entries evs).
Proof.
  induction l as [|[fullName o] l IH]; intros w Harch Hi; simpl.
  - exists []. split; [trace_eq|]. split; [reflexivity|].
    split; [exact Hi | constructor].
  - rewrite bind_eq.
    destruct (visit_known_inode i name fullName o w Harch Hi)
      as (evs1 & Ht1 & Hd1 & Hi1 & Hl1).
    pose proof (framed_visit fs fullName o w) as (Hcfg & _).
    destruct (visit fs fullName o w) as [[[e|]|] w1]; simpl in *.
    1,3: exists evs1; split; [exact Ht1|]; split; [exact Hd1|];
      split; assumption.
    assert (Harch1 : archive (tar_of w1) <> None).
    { change (archive (config (tar_of w1)) <> None). rewrite Hcfg. exact Harch. }
    destruct (IH w1 Harch1 Hi1) as (evs2 & Ht2 & Hd2 & Hi2 & Hl2).
    exists (evs1 ++ evs2).
    split; [rewrite Ht2, Ht1; symmetry; apply app_assoc|].
    split; [apply data_of_app_nil; assumption|].
    split; [exact Hi2|].
    unfold all_links in *. rewrite entries_app by exact Hd2.
    rewrite List.filter_app. apply List.Forall_app. split; assumption.
Qed.

(** X9.  The hard-link table is kept from one run to the next.  For an
    inode the table holds when a run starts, every entry the run writes
    for a regular file with that inode and more than one link is a link
    entry, the first one as well: type flag [TypeLink], size zero, link
    name the name the table held, and no data.  The table holds that name
    for the inode after the run. *)
Theorem Archive_known_inode (w : world) (i : Z) (name : string) :
  hardLinks (tar_of w) !! i = Some name ->
  exists evs,
    trace (snd (Archive fs w)) = trace w ++ evs /\
    hardLinks (tar_of (snd (Archive fs w))) !! i = Some name /\
    Forall (fun e =>
              tar.Typeflag (e_header e) = TypeLink /\
              tar.Size (e_header e) = 0 /\
              tar.Linkname (e_header e) = name /\
              e_data e = [])
           (List.filter (hard_linked i) (entries evs)).
Proof.
  intros Hi.
  destruct (Archive_as_walk fs w) as
    [(post & Ht & Hpost & Hh & _)
    | (wr & pre & ds & post & Hpre & Hpost & _ & Ht & Hh)].
  - exists post. split; [exact Ht|]. rewrite Hh.
    destruct (entries_closing post Hpost) as [_ ->].
    split; [exact Hi | constructor].
  - simpl in *. rewrite Hh.
    destruct (entries_closing post Hpost) as [Hdpost Hepost].
    set (w0 := mkWorld (walk_started w wr) (trace w ++ pre) ds) in *.
    assert (Hwalk : exists evs,
      trace (snd (Archive_walk fs w0)) = trace w0 ++ evs /\
      data_of evs = [] /\
      hardLinks (tar_of (snd (Archive_walk fs w0))) !! i = Some name /\
      all_links i name (entries evs)).
    { unfold Archive_walk. destruct (root fs) as [e|n].
      - exists []. split; [simpl; trace_eq|]. split; [reflexivity|].
        split; [exact Hi | constructor].
      - rewrite bind_eq, processEntry_walk.
        destruct (visit_all_known_inode i name (walk (tar_of w0) "." n) w0)
          as (evs & Ht' & Hd' & Hi' & Hl'); [discriminate | exact Hi |].
        exists evs.
        destruct (visit_all fs _ w0) as [[[e|]|] w1]; simpl in *;
          (split; [exact Ht'|]; split; [exact Hd'|]; split; assumption). }
    destruct Hwalk as (evs & Ht' & Hd' & Hi' & Hl').
    exists (pre ++ evs ++ post). split; [|split].
    + rewrite Ht, Ht'. simpl. rewrite <- !app_assoc. reflexivity.
    + exact Hi'.
    + rewrite (entries_opening wr) by exact Hpre.
      rewrite entries_app by exact Hdpost. rewrite Hepost, app_nil_r.
      exact Hl'.
Qed.

End KnownInode.

(** ** Patterns without metacharacters *)

(** [c] is none of the bytes the matcher reads as syntax. *)
Definition literal_byte (c : ascii) : bool :=
  negb (Ascii.eqb c "*") && negb (Ascii.eqb c "?") && negb (Ascii.eqb c "[")
  && negb (Ascii.eqb c "\").

Fixpoint literal (pattern : string) : bool :=
  match pattern with
  | EmptyString => true
  | String c rest => literal_byte c && literal rest
  end.

(** [s] without the prefix [p], when it starts with [p]. *)
Fixpoint strip_prefix (p s : string) : option string :=
  match p, s with
  | EmptyString, _ => Some s
  | String c p', String d s' =>
    if Ascii.eqb c d then strip_prefix p' s' else None
  | String _ _, EmptyString => None
  end.

Lemma literal_byte_tests c :
  literal_byte c = true ->
  Ascii.eqb c "*" = false /\ Ascii.eqb c "?" = false /\
  Ascii.eqb c "[" = false /\ Ascii.eqb c "\" = false.
Proof.
  unfold literal_byte. intros H.
  repeat (apply andb_prop in H as [H ?]).
  repeat match goal with
         | H : negb _ = true |- _ => apply negb_true_iff in H
         end.
  auto.
Qed.

Lemma scan_literal pattern : forall inrange,
  literal pattern = true -> filepath.scan inrange pattern = (pattern, "").
Proof.
  induction pattern as [|c rest IH]; intros inrange H; simpl; [reflexivity|].
  simpl in H. apply andb_prop in H as [Hc Hrest].
  destruct (literal_byte_tests c Hc) as (H1 & _ & H3 & H4).
  rewrite H4, H3, H1.
  destruct (Ascii.eqb c "]"); rewrite (IH _ Hrest); reflexivity.
Qed.

Lemma scanChunk_literal c rest :
  literal (String c rest) = true ->
  filepath.scanChunk (String c rest) = (false, String c rest, "").
Proof.
  intros H. unfold filepath.scanChunk.
  assert (Hs : filepath.skip_stars (String c rest) = (false, String c rest)).
  { simpl in H. apply andb_prop in H as [Hc _].
    destruct (literal_byte_tests c Hc) as (H1 & _). simpl. rewrite H1.
    reflexivity. }
  rewrite Hs, (scan_literal _ false H). reflexivity.
Qed.

Lemma matchChunk_loop_literal chunk : forall fuel s,
  literal chunk = true ->
  (String.length chunk < fuel)%nat ->
  filepath.matchChunk_loop fuel chunk s =
    Some (match strip_prefix chunk s with
          | Some t => (t, true, None)
          | None => ("", false, None)
          end).
Proof.
  induction chunk as [|c chunk IH]; intros fuel s H Hlen;
    (destruct fuel as [|fuel]; [simpl in Hlen; lia|]);
    cbn [filepath.matchChunk_loop].
  - destruct s; reflexivity.
  - simpl in H. apply andb_prop in H as [Hc Hrest].
    destruct (literal_byte_tests c Hc) as (_ & H2 & H3 & H4).
    destruct s as [|s0 s1]; [reflexivity|].
    rewrite H3, H2, H4. simpl strip_prefix.
    destruct (Ascii.eqb c s0); simpl; [|reflexivity].
    apply IH; [exact Hrest | simpl in Hlen; lia].
Qed.

Lemma strip_prefix_eqb p : forall s,
  match strip_prefix p s with
  | Some t => String.eqb t ""
  | None => false
  end = String.eqb p s.
Proof.
  induction p as [|c p IH]; intros s; simpl.
  - destruct s; reflexivity.
  - destruct s as [|d s]; [reflexivity|]. simpl.
    destruct (Ascii.eqb c d); [apply IH | reflexivity].
Qed.

(** A pattern without metacharacters matches itself and nothing else,
    and is never malformed. *)
Lemma Match_literal pattern name :
  literal pattern = true ->
  filepath.Match pattern name = (String.eqb pattern name, None).
Proof.
  intros H. unfold filepath.Match. cbn [filepath.Match_loop].
  destruct pattern as [|c rest].
  { simpl. destruct name; reflexivity. }
  change (String.eqb (String c rest) "") with false. cbv iota.
  rewrite (scanChunk_literal c rest H). cbn [andb].
  unfold filepath.matchChunk.
  rewrite (matchChunk_loop_literal (String c rest) _ name H) by lia.
  pose proof (strip_prefix_eqb (String c rest) name) as Heq.
  destruct (strip_prefix (String c rest) name) as [t|].
  - cbn [andb negb orb]. change (String.eqb "" "") with true.
    cbn [negb orb]. rewrite orb_false_r.
    destruct (String.eqb t "") eqn:Ht.
    + apply String.eqb_eq in Ht. subst t. rewrite <- Heq. reflexivity.
    + rewrite <- Heq. reflexivity.
  - cbn [andb]. rewrite <- Heq. reflexivity.
Qed.

Lemma shouldBeExcluded_loop_app l1 l2 name :
  shouldBeExcluded_loop (l1 ++ l2) name =
    shouldBeExcluded_loop l1 name || shouldBeExcluded_loop l2 name.
Proof.
  induction l1 as [|p l1 IH]; simpl; [reflexivity|].
  destruct (fst (filepath.Match p name)); [reflexivity|].
  destruct (fst (filepath.Match p (filepath.Base name))); [reflexivity|].
  exact IH.
Qed.

(** X10.  After [ExcludePath], a path is excluded when it was excluded
    before or when the new pattern, without one leading separator,
    matches the path or its last element.  When that pattern has no
    metacharacter ([*], [?], [[] or a backslash), this is the case exactly
    when it is equal to the path or to its last element. *)
Theorem ExcludePath_excludes (t : Tar) (p name : string) :
  let pattern :=
    if strings.HasPrefix p "/" then strings.tail p else p in
  shouldBeExcluded (ExcludePath t p) name =
    shouldBeExcluded t name
    || fst (filepath.Match pattern name)
    || fst (filepath.Match pattern (filepath.Base name)) /\
  (literal pattern = true ->
   shouldBeExcluded (ExcludePath t p) name =
     shouldBeExcluded t name
     || String.eqb pattern name
     || String.eqb pattern (filepath.Base name)).
Proof.
  intros pattern.
  assert (H : shouldBeExcluded (ExcludePath t p) name =
              shouldBeExcluded t name
              || fst (filepath.Match pattern name)
              || fst (filepath.Match pattern (filepath.Base name))).
  { unfold shouldBeExcluded, ExcludePath. cbn [ExcludedPaths].
    rewrite shouldBeExcluded_loop_app.
    change filepath.SeparatorString with "/". fold pattern. simpl.
    rewrite <- orb_assoc. f_equal.
    destruct (fst (filepath.Match pattern name)); [reflexivity|].
    destruct (fst (filepath.Match pattern (filepath.Base name))); reflexivity. }
  split; [exact H|].
  intros Hl. rewrite H, !(Match_literal pattern _ Hl). reflexivity.
Qed.

(** ** The exclusion list as a set *)

Section ExclusionSet.

Context `{D : Decls}.
Variable fs : filesystem.

(** X11.  A run depends on the exclusion list through the patterns it
    holds, not through their order or their repetitions: with a list that
    holds the same patterns, a run returns the same result, makes the
    same calls and leaves the same hard-link table. *)
Theorem Archive_exclusion_set (w : world) (excludes : list string) :
  (forall p, In p excludes <-> In p (ExcludedPaths (tar_of w))) ->
  let w' := mkWorld (set_ExcludedPaths (tar_of w) excludes)
                    (trace w) (deferred w) in
  fst (Archive fs w) = fst (Archive fs w') /\
  trace (snd (Archive fs w)) = trace (snd (Archive fs w')) /\
  hardLinks (tar_of (snd (Archive fs w))) =
    hardLinks (tar_of (snd (Archive fs w'))).
Proof.
  intros Hset w'.
  assert (Ha : alike w w').
  { repeat split. intros name.
    apply eq_true_iff_eq. unfold shouldBeExcluded.
    rewrite !shouldBeExcluded_loop_iff. simpl.
    split; intros (q & Hq & Hm); exists q; (split; [apply Hset; exact Hq | exact Hm]). }
  destruct (simulates_Archive fs w w' Ha) as (Hr & Ht & Htr & _).
  split; [exact Hr|]. split; [exact Htr|]. apply Ht.
Qed.

End ExclusionSet.

(** ** Rooted and unrooted paths *)

Lemma elements_no_separators s :
  Forall (fun e => no_separator e = true) (filepath.elements s).
Proof.
  induction s as [|c s IH]; simpl; [repeat constructor|].
  destruct (filepath.IsPathSeparator c) eqn:Hc.
  - constructor; [reflexivity | exact IH].
  - destruct (filepath.elements s) as [|e es].
    + repeat constructor. simpl. rewrite Hc. reflexivity.
    + apply Forall_cons in IH as [He Hes].
      constructor; [|exact Hes]. simpl. rewrite Hc, He. reflexivity.
Qed.

(** An element [Clean] keeps: not empty and without separator. *)
Definition kept (e : string) : bool :=
  no_separator e && negb (String.eqb e "").

Lemma clean_step_kept rooted out e :
  no_separator e = true ->
  Forall (fun x => kept x = true) out ->
  Forall (fun x => kept x = true) (filepath.clean_step rooted out e).
Proof.
  intros He Hout. unfold filepath.clean_step.
  destruct (String.eqb_spec e "") as [->|Hne]; [exact Hout|].
  assert (Hk : kept e = true).
  { unfold kept. rewrite He. apply String.eqb_neq in Hne. rewrite Hne.
    reflexivity. }
  simpl. destruct (String.eqb e "."); [exact Hout|].
  destruct (String.eqb e "..").
  - destruct out as [|top below].
    + destruct rooted; repeat constructor. exact Hk.
    + destruct (String.eqb top "..").
      * constructor; assumption.
      * apply Forall_cons in Hout as [_ Hb]. exact Hb.
  - constructor; assumption.
Qed.

Lemma clean_fold_kept rooted es : forall out,
  Forall (fun e => no_separator e = true) es ->
  Forall (fun x => kept x = true) out ->
  Forall (fun x => kept x = true) (fold_left (filepath.clean_step rooted) es out).
Proof.
  induction es as [|e es IH]; intros out Hes Hout; simpl; [exact Hout|].
  apply Forall_cons in Hes as [He Hes].
  apply IH; [exact Hes|]. apply clean_step_kept; assumption.
Qed.

Lemma kept_cons e :
  kept e = true ->
  exists c rest, e = String c rest /\ filepath.IsPathSeparator c = false.
Proof.
  unfold kept. destruct e as [|c rest]; simpl.
  - discriminate.
  - intros H. apply andb_prop in H as [H _]. apply andb_prop in H as [H _].
    apply negb_true_iff in H. eauto.
Qed.

Lemma IsAbs_Join_kept es :
  Forall (fun x => kept x = true) es ->
  filepath.IsAbs (strings.Join es "/") = false.
Proof.
  intros H. destruct es as [|e es]; [reflexivity|].
  apply Forall_cons in H as [He _].
  destruct (kept_cons e He) as (c & rest & -> & Hc).
  destruct es as [|e' es].
  - simpl. rewrite IsAbs_cons. exact Hc.
  - change (strings.Join (String c rest :: e' :: es) "/")
      with (String c (rest +:+ "/" +:+ strings.Join (e' :: es) "/")).
    rewrite IsAbs_cons. exact Hc.
Qed.

(** [Clean] keeps a rooted path rooted and an unrooted path unrooted. *)
Lemma IsAbs_Clean path : filepath.IsAbs (filepath.Clean path) = filepath.IsAbs path.
Proof.
  unfold filepath.Clean.
  destruct (String.eqb_spec path "") as [->|_]; [reflexivity|].
  destruct (filepath.IsAbs path) eqn:Habs.
  - change ("/" +:+ ?x) with (String "/" x). apply IsAbs_cons.
  - destruct (String.eqb _ ""); [reflexivity|].
    apply IsAbs_Join_kept. apply Forall_rev.
    apply clean_fold_kept; [apply elements_no_separators | constructor].
Qed.

Lemma Clean_not_empty path : filepath.Clean path <> "".
Proof.
  unfold filepath.Clean.
  destruct (String.eqb_spec path ""); [discriminate|].
  destruct (filepath.IsAbs path); [discriminate|].
  match goal with
  | |- (if String.eqb ?b "" then _ else _) <> _ =>
    destruct (String.eqb_spec b ""); [discriminate | assumption]
  end.
Qed.

Lemma IsAbs_append a b :
  a <> "" -> filepath.IsAbs (a +:+ b) = filepath.IsAbs a.
Proof.
  destruct a as [|c a]; [contradiction|]. intros _.
  change (String c a +:+ b) with (String c (a +:+ b)).
  rewrite !IsAbs_cons. reflexivity.
Qed.

(** [Join] of a first element that is not empty is rooted exactly when
    that element is. *)
Lemma IsAbs_Join a rest :
  a <> "" -> filepath.IsAbs (filepath.Join (a :: rest)) = filepath.IsAbs a.
Proof.
  intros Ha. unfold filepath.Join.
  destruct (String.eqb_spec a ""); [contradiction|].
  rewrite IsAbs_Clean.
  destruct rest as [|b rest]; [reflexivity|].
  change (strings.Join (a :: b :: rest) "/")
    with (a +:+ "/" +:+ strings.Join (b :: rest) "/").
  apply IsAbs_append. exact Ha.
Qed.

Lemma IsAbs_through_last_separator path :
  filepath.IsAbs (filepath.through_last_separator path) = filepath.IsAbs path.
Proof.
  destruct path as [|c rest]; [reflexivity|]. simpl.
  rewrite IsAbs_cons.
  destruct (strings.Contains rest "/").
  - apply IsAbs_cons.
  - destruct (filepath.IsPathSeparator c); reflexivity.
Qed.

Lemma IsAbs_Dir path : filepath.IsAbs (filepath.Dir path) = filepath.IsAbs path.
Proof.
  unfold filepath.Dir. rewrite IsAbs_Clean. apply IsAbs_through_last_separator.
Qed.

Lemma Dir_not_empty path : filepath.Dir path <> "".
Proof. apply Clean_not_empty. Qed.

(** [Rel] fails between a rooted and an unrooted path. *)
Lemma Rel_mixed base targ :
  filepath.IsAbs base = false -> filepath.IsAbs targ = true ->
  exists e, filepath.Rel base targ = inl e.
Proof.
  intros Hb Ht. unfold filepath.Rel.
  pose proof (IsAbs_Clean base) as Hcb. pose proof (IsAbs_Clean targ) as Hct.
  rewrite Hb in Hcb. rewrite Ht in Hct.
  destruct (String.eqb_spec (filepath.Clean targ) (filepath.Clean base)) as [Heq|_].
  { rewrite Heq in Hct. congruence. }
  assert (Hb' : filepath.IsAbs (if String.eqb (filepath.Clean base) "." then ""
                                else filepath.Clean base) = false).
  { destruct (String.eqb _ "."); [reflexivity | exact Hcb]. }
  rewrite Hb', Hct. simpl. eauto.
Qed.

(** The base [cleanLinkName] gives to [Rel] is unrooted when the target
    and the name are. *)
Lemma IsAbs_base targetDir name :
  filepath.IsAbs targetDir = false -> filepath.IsAbs name = false ->
  filepath.IsAbs (filepath.Join [targetDir; filepath.Dir name]) = false.
Proof.
  intros Ht Hn.
  destruct (String.eqb_spec targetDir "") as [->|Hne].
  - change (filepath.Join [""; filepath.Dir name])
      with (filepath.Join [filepath.Dir name]).
    rewrite IsAbs_Join by apply Dir_not_empty.
    rewrite IsAbs_Dir. exact Hn.
  - rewrite IsAbs_Join by exact Hne. exact Ht.
Qed.

Section RelativeTarget.

Context `{D : Decls}.
Variable fs : filesystem.

(** [os.Getwd] returns a rooted path. *)
Hypothesis getwd_rooted :
  forall wd, getwd fs = inr wd -> filepath.IsAbs wd = true.

(** With a target directory that is not rooted, [cleanLinkName] returns
    a rooted link or an error for a link at a relative path. *)
Lemma cleanLinkName_unrooted (o : object) (targetDir name : string)
      (w : world) :
  filepath.IsAbs targetDir = false ->
  filepath.IsAbs name = false ->
  exists r,
    fst (cleanLinkName fs o targetDir name w) = Return r /\
    match r with
    | inl _ => True
    | inr link => filepath.IsAbs link = true
    end.
Proof.
  intros Ht Hn. unfold cleanLinkName. run_monad.
  destruct (readlink o) as [e|link]; simpl; [exists (inl e); auto|].
  assert (Habs :
    match (if negb (filepath.IsAbs link)
           then filepath.Abs (getwd fs)
                  (filepath.Join [targetDir; filepath.Dir name; link])
           else inr link) with
    | inl _ => True
    | inr link' => filepath.IsAbs link' = true
    end).
  { destruct (filepath.IsAbs link) eqn:Hl; simpl; [exact Hl|].
    unfold filepath.Abs.
    destruct (filepath.IsAbs (filepath.Join _)) eqn:Hp.
    - rewrite IsAbs_Clean. exact Hp.
    - destruct (getwd fs) as [e|wd] eqn:Hwd; [exact I|].
      pose proof (getwd_rooted wd eq_refl) as Hr.
      rewrite IsAbs_Join; [exact Hr|].
      intros ->. discriminate. }
  destruct (if negb (filepath.IsAbs link) then _ else _) as [e|link'];
    simpl; [exists (inl e); auto|].
  pose proof (IsAbs_Clean link') as Hc. rewrite Habs in Hc.
  destruct (strings.Contains _ _).
  - destruct (Rel_mixed (filepath.Join [targetDir; filepath.Dir name])
                        (filepath.Clean link')
                        (IsAbs_base _ _ Ht Hn) Hc) as (e & ->).
    exists (inl e). auto.
  - exists (inr (filepath.Clean link')). auto.
Qed.

End RelativeTarget.

(** ** Links below a rooted target *)

(** The rooted path with the elements [qs]; [/] when there are none. *)
Definition rooted_name (qs : list string) : string :=
  "/" +:+ strings.Join qs "/".

Lemma Contains_cons c s sub :
  strings.Contains (String c s) sub =
    String.prefix sub (String c s) || strings.Contains s sub.
Proof. reflexivity. Qed.

Lemma Contains_prefix s sub :
  String.prefix sub s = true -> strings.Contains s sub = true.
Proof.
  intros H. destruct s as [|c s].
  - unfold strings.Contains. rewrite H. reflexivity.
  - rewrite Contains_cons, H. reflexivity.
Qed.

Lemma Contains_no_separator n :
  no_separator n = true -> strings.Contains n "/" = false.
Proof.
  induction n as [|c n IH]; [reflexivity|].
  simpl. intros H. apply andb_prop in H as [Hc Hn].
  rewrite Contains_cons, (IH Hn), orb_false_r.
  rewrite prefix_cons.
  destruct (ascii_dec "/" c) as [<-|]; [discriminate | reflexivity].
Qed.

Lemma Contains_separator a b : strings.Contains (a +:+ "/" +:+ b) "/" = true.
Proof.
  induction a as [|c a IH].
  - apply Contains_prefix. change ("" +:+ "/" +:+ b) with (String "/" b).
    rewrite prefix_cons. destruct b; reflexivity.
  - change (String c a +:+ "/" +:+ b) with (String c (a +:+ "/" +:+ b)).
    rewrite Contains_cons, IH. apply orb_true_r.
Qed.

Lemma through_last_separator_plain n :
  no_separator n = true -> filepath.through_last_separator n = "".
Proof.
  destruct n as [|c n]; [reflexivity|]. simpl. intros H.
  apply andb_prop in H as [Hc Hn]. apply negb_true_iff in Hc.
  rewrite (Contains_no_separator n Hn), Hc. reflexivity.
Qed.

Lemma through_last_separator_append a n :
  no_separator n = true ->
  filepath.through_last_separator (a +:+ "/" +:+ n) = a +:+ "/".
Proof.
  intros Hn. induction a as [|c a IH].
  - change ("" +:+ "/" +:+ n) with (String "/" n). simpl.
    rewrite (Contains_no_separator n Hn). reflexivity.
  - change (String c a +:+ "/" +:+ n) with (String c (a +:+ "/" +:+ n)).
    simpl. rewrite Contains_separator, IH. reflexivity.
Qed.

Lemma plain_Forall_no_separator es :
  Forall (fun e => plain e = true) es -> Forall (fun e => no_separator e = true) es.
Proof. apply List.Forall_impl. apply plain_no_separator. Qed.

(** [Dir] of the relative path of an object: the relative path of its
    directory. *)
Lemma Dir_rel_name ds n :
  Forall (fun e => plain e = true) ds -> plain n = true ->
  filepath.Dir (rel_name (ds ++ [n])) = rel_name ds.
Proof.
  intros Hds Hn. unfold filepath.Dir.
  pose proof (plain_no_separator n Hn) as Hsep.
  destruct ds as [|d ds].
  - simpl. rewrite through_last_separator_plain by exact Hsep. reflexivity.
  - assert (Hname : rel_name ((d :: ds) ++ [n]) =
                    strings.Join (d :: ds) "/" +:+ "/" +:+ n).
    { change (rel_name ((d :: ds) ++ [n]))
        with (strings.Join ((d :: ds) ++ [n]) "/").
      rewrite Join_app by discriminate. reflexivity. }
    rewrite Hname, through_last_separator_append by exact Hsep.
    assert (He : filepath.elements (strings.Join (d :: ds) "/" +:+ "/")
                 = (d :: ds) ++ [""]).
    { rewrite <- (append_nil_r "/"), elements_app_separator.
      rewrite elements_Join; [reflexivity | discriminate |].
      apply plain_Forall_no_separator. exact Hds. }
    assert (Hf : List.filter plain ((d :: ds) ++ [""]) = d :: ds).
    { rewrite List.filter_app, filter_plain_all by exact Hds.
      simpl. rewrite app_nil_r. reflexivity. }
    rewrite Clean_ordinary; rewrite ?He, ?Hf.
    + reflexivity.
    + apply Forall_cons in Hds as [Hd _].
      destruct (Join_plain_cons d ds Hd) as (c & rest & -> & Hc).
      change (String c rest +:+ "/") with (String c (rest +:+ "/")).
      rewrite IsAbs_cons. exact Hc.
    + apply Forall_app. split; [apply plain_ordinary; exact Hds|].
      repeat constructor.
    + discriminate.
Qed.

Lemma elements_rooted_name qs :
  Forall (fun e => plain e = true) qs ->
  Forall (fun e => ordinary e = true) (filepath.elements (rooted_name qs)) /\
  List.filter plain (filepath.elements (rooted_name qs)) = qs.
Proof.
  intros Hqs. unfold rooted_name.
  change ("/" +:+ strings.Join qs "/") with ("" +:+ "/" +:+ strings.Join qs "/").
  rewrite elements_app_separator.
  destruct qs as [|q qs].
  - simpl. split; [repeat constructor | reflexivity].
  - rewrite elements_Join;
      [|discriminate | apply plain_Forall_no_separator; exact Hqs].
    split.
    + constructor; [reflexivity | apply plain_ordinary; exact Hqs].
    + change (List.filter plain (filepath.elements "" ++ q :: qs))
        with (List.filter plain (q :: qs)).
      apply filter_plain_all. exact Hqs.
Qed.

(** [Clean] of a rooted path without [..]: the root and the ordinary
    names among its elements. *)
Lemma Clean_rooted s :
  filepath.IsAbs s = true ->
  Forall (fun e => ordinary e = true) (filepath.elements s) ->
  filepath.Clean s = rooted_name (List.filter plain (filepath.elements s)).
Proof.
  intros Habs Hord. unfold filepath.Clean.
  destruct (String.eqb_spec s "") as [->|_]; [discriminate|].
  rewrite Habs, clean_fold_ordinary by exact Hord.
  rewrite app_nil_r, rev_involutive. reflexivity.
Qed.

Lemma IsAbs_rooted_name qs : filepath.IsAbs (rooted_name qs) = true.
Proof. unfold rooted_name. change ("/" +:+ ?x) with (String "/" x). apply IsAbs_cons. Qed.

Lemma Clean_rooted_name qs :
  Forall (fun e => plain e = true) qs ->
  filepath.Clean (rooted_name qs) = rooted_name qs.
Proof.
  intros Hqs. destruct (elements_rooted_name qs Hqs) as [Hord Hf].
  rewrite Clean_rooted; [rewrite Hf; reflexivity | apply IsAbs_rooted_name | exact Hord].
Qed.

(** [Join] of a rooted path and relative ones. *)
Lemma Join_rooted qs ds :
  Forall (fun e => plain e = true) qs ->
  Forall (fun e => plain e = true) ds ->
  filepath.Join [rooted_name qs; rel_name ds] = rooted_name (qs ++ ds).
Proof.
  intros Hqs Hds. unfold filepath.Join.
  change (String.eqb (rooted_name qs) "") with false. cbv iota.
  change (strings.Join [rooted_name qs; rel_name ds] "/")
    with (rooted_name qs +:+ "/" +:+ rel_name ds).
  destruct (elements_rooted_name qs Hqs) as [Hordq Hfq].
  destruct (elements_rel_name ds Hds) as [Hordd Hfd].
  rewrite Clean_rooted.
  - rewrite elements_app_separator, List.filter_app, Hfq, Hfd. reflexivity.
  - rewrite IsAbs_append by discriminate. apply IsAbs_rooted_name.
  - rewrite elements_app_separator. apply Forall_app. split; assumption.
Qed.

Lemma Join_rooted3 qs ds ls :
  Forall (fun e => plain e = true) qs ->
  Forall (fun e => plain e = true) ds ->
  Forall (fun e => plain e = true) ls ->
  ls <> [] ->
  filepath.Join [rooted_name qs; rel_name ds; strings.Join ls "/"] =
    rooted_name (qs ++ ds ++ ls).
Proof.
  intros Hqs Hds Hls Hne. unfold filepath.Join.
  change (String.eqb (rooted_name qs) "") with false. cbv iota.
  change (strings.Join [rooted_name qs; rel_name ds; strings.Join ls "/"] "/")
    with (rooted_name qs +:+ "/" +:+ (rel_name ds +:+ "/" +:+ strings.Join ls "/")).
  destruct (elements_rooted_name qs Hqs) as [Hordq Hfq].
  destruct (elements_rel_name ds Hds) as [Hordd Hfd].
  assert (Hel : filepath.elements (strings.Join ls "/") = ls).
  { apply elements_Join; [exact Hne | apply plain_Forall_no_separator; exact Hls]. }
  rewrite Clean_rooted.
  - rewrite !elements_app_separator, !List.filter_app, Hfq, Hfd, Hel.
    rewrite filter_plain_all by exact Hls. reflexivity.
  - rewrite IsAbs_append by discriminate. apply IsAbs_rooted_name.
  - rewrite !elements_app_separator, Hel.
    repeat (apply Forall_app; split); try assumption.
    apply plain_ordinary. exact Hls.
Qed.

Lemma Join_prefix qs rest :
  exists r, strings.Join (qs ++ rest) "/" = strings.Join qs "/" +:+ r.
Proof.
  destruct qs as [|q qs]; [exists (strings.Join rest "/"); reflexivity|].
  destruct rest as [|x rest].
  - exists "". rewrite app_nil_r. symmetry. apply append_nil_r.
  - exists ("/" +:+ strings.Join (x :: rest) "/").
    apply Join_app; discriminate.
Qed.

(** A path below [rooted_name qs] contains it. *)
Lemma Contains_rooted qs rest :
  strings.Contains (rooted_name (qs ++ rest)) (rooted_name qs) = true.
Proof.
  apply Contains_prefix. unfold rooted_name.
  destruct (Join_prefix qs rest) as (r & ->).
  rewrite <- append_assoc. apply prefix_append.
Qed.

Lemma rooted_name_inj qs qs' :
  Forall (fun e => plain e = true) qs ->
  Forall (fun e => plain e = true) qs' ->
  rooted_name qs = rooted_name qs' -> qs = qs'.
Proof.
  intros Hqs Hqs' Heq.
  destruct (elements_rooted_name qs Hqs) as [_ <-].
  destruct (elements_rooted_name qs' Hqs') as [_ <-].
  rewrite Heq. reflexivity.
Qed.

(** The words of a rooted path: the empty word, then its elements. *)
Lemma rel_words_rooted qs :
  Forall (fun e => plain e = true) qs ->
  filepath.rel_words (rooted_name qs) = "" :: qs.
Proof.
  intros Hqs. unfold filepath.rel_words.
  change (String.eqb (rooted_name qs) "") with false. cbv iota.
  destruct qs as [|q qs]; [reflexivity|].
  assert (Hne : String.eqb (rooted_name (q :: qs)) "/" = false).
  { apply Forall_cons in Hqs as [Hq _].
    destruct (Join_plain_cons q qs Hq) as (c & rest & H & _).
    unfold rooted_name. rewrite H. reflexivity. }
  rewrite Hne. unfold rooted_name.
  change ("/" +:+ strings.Join (q :: qs) "/")
    with ("" +:+ "/" +:+ strings.Join (q :: qs) "/").
  rewrite elements_app_separator, elements_Join;
    [reflexivity | discriminate | apply plain_Forall_no_separator; exact Hqs].
Qed.

Lemma rel_skip_common qs : forall bs ts,
  filepath.rel_skip (qs ++ bs) (qs ++ ts) = filepath.rel_skip bs ts.
Proof.
  induction qs as [|q qs IH]; intros bs ts; [reflexivity|].
  simpl. rewrite String.eqb_refl. apply IH.
Qed.

Lemma rel_skip_nil_l ts : filepath.rel_skip [] ts = (false, [], ts).
Proof. destruct ts; reflexivity. Qed.

Lemma rel_skip_prefix qs ts :
  filepath.rel_skip qs (qs ++ ts) = (false, [], ts).
Proof.
  rewrite <- (app_nil_r qs) at 1. rewrite rel_skip_common. apply rel_skip_nil_l.
Qed.

(** [Rel] from a rooted directory to a path below it. *)
Lemma Rel_below qs ls :
  Forall (fun e => plain e = true) qs ->
  Forall (fun e => plain e = true) ls ->
  ls <> [] ->
  filepath.Rel (rooted_name qs) (rooted_name (qs ++ ls)) =
    inr (strings.Join ls "/").
Proof.
  intros Hqs Hls Hne.
  assert (Hall : Forall (fun e => plain e = true) (qs ++ ls))
    by (apply Forall_app; split; assumption).
  unfold filepath.Rel.
  rewrite (Clean_rooted_name qs Hqs), (Clean_rooted_name _ Hall).
  destruct (String.eqb_spec (rooted_name (qs ++ ls)) (rooted_name qs)) as [Heq|_].
  { apply rooted_name_inj in Heq; [|assumption..].
    exfalso. apply Hne. apply (app_inv_head qs).
    rewrite app_nil_r. exact Heq. }
  change (String.eqb (rooted_name qs) ".") with false. cbv iota.
  rewrite !IsAbs_rooted_name. simpl negb. cbv iota.
  rewrite (rel_words_rooted qs Hqs), (rel_words_rooted _ Hall).
  change ("" :: qs ++ ls) with (("" :: qs) ++ ls).
  rewrite rel_skip_prefix. reflexivity.
Qed.

Lemma rel_skip_diverge bs ls :
  hd_error bs <> hd_error ls ->
  exists differ, filepath.rel_skip bs ls = (differ, bs, ls).
Proof.
  intros H. destruct bs as [|b bs], ls as [|l ls]; simpl; eauto.
  destruct (String.eqb_spec b l) as [->|_]; [|eauto].
  exfalso. apply H. reflexivity.
Qed.

Lemma plain_not_dotdot e : plain e = true -> String.eqb e ".." = false.
Proof.
  unfold plain. intros H. apply andb_prop in H as [_ H].
  apply negb_true_iff in H. exact H.
Qed.

(** The steps up from a directory with the elements [bs]. *)
Definition ups (bs : list string) : list string :=
  List.map (fun _ => "..") bs.

(** [Rel] between two rooted paths that part after the elements [qs]. *)
Lemma Rel_diverge qs bs ls :
  Forall (fun e => plain e = true) qs ->
  Forall (fun e => plain e = true) bs ->
  Forall (fun e => plain e = true) ls ->
  hd_error bs <> hd_error ls ->
  filepath.Rel (rooted_name (qs ++ bs)) (rooted_name (qs ++ ls)) =
    inr (strings.Join (ups bs ++ ls) "/").
Proof.
  intros Hqs Hbs Hls Hhd.
  assert (Hb : Forall (fun e => plain e = true) (qs ++ bs))
    by (apply Forall_app; split; assumption).
  assert (Hl : Forall (fun e => plain e = true) (qs ++ ls))
    by (apply Forall_app; split; assumption).
  unfold filepath.Rel.
  rewrite (Clean_rooted_name _ Hb), (Clean_rooted_name _ Hl).
  destruct (String.eqb_spec (rooted_name (qs ++ ls)) (rooted_name (qs ++ bs)))
    as [Heq|_].
  { apply rooted_name_inj in Heq; [|assumption..].
    apply app_inv_head in Heq. subst ls. contradiction. }
  change (String.eqb (rooted_name (qs ++ bs)) ".") with false. cbv iota.
  rewrite !IsAbs_rooted_name. simpl negb. cbv iota.
  rewrite (rel_words_rooted _ Hb), (rel_words_rooted _ Hl).
  change ("" :: qs ++ bs) with (("" :: qs) ++ bs).
  change ("" :: qs ++ ls) with (("" :: qs) ++ ls).
  rewrite rel_skip_common.
  destruct (rel_skip_diverge bs ls Hhd) as (differ & ->).
  destruct bs as [|b bs].
  - rewrite andb_false_r. reflexivity.
  - apply Forall_cons in Hbs as [Hb0 _].
    simpl hd. rewrite (plain_not_dotdot b Hb0), andb_false_r.
    destruct ls as [|l ls].
    + unfold ups. rewrite app_nil_r. reflexivity.
    + unfold ups. rewrite Join_app by discriminate. reflexivity.
Qed.

Section RootedTarget.

Context `{D : Decls}.
Variable fs : filesystem.

(** A relative link made of ordinary names, read from a symbolic link
    in the directory with the elements [ds] below a rooted target, is
    returned as it is. *)
Lemma cleanLinkName_in_directory (o : object) (ts ds ls : list string)
      (name : string) (w : world) :
  Forall (fun e => plain e = true) ts ->
  Forall (fun e => plain e = true) ds ->
  Forall (fun e => plain e = true) ls ->
  ls <> [] ->
  filepath.Dir name = rel_name ds ->
  readlink o = inr (strings.Join ls "/") ->
  fst (cleanLinkName fs o (rooted_name ts) name w)
  = Return (inr (strings.Join ls "/")).
Proof.
  intros Hts Hds Hls Hne Hdir Hlink.
  unfold cleanLinkName. run_monad. rewrite Hlink, Hdir.
  assert (Hrel : filepath.IsAbs (strings.Join ls "/") = false).
  { destruct ls as [|l ls]; [contradiction|].
    apply Forall_cons in Hls as [Hl _].
    destruct (Join_plain_cons l ls Hl) as (c & rest & -> & Hc).
    rewrite IsAbs_cons. exact Hc. }
  rewrite Hrel.
  rewrite (Join_rooted3 ts ds ls Hts Hds Hls Hne).
  unfold filepath.Abs. rewrite IsAbs_rooted_name. cbn [negb]. cbv iota beta.
  assert (Hall : Forall (fun e => plain e = true) (ts ++ ds ++ ls))
    by (repeat (apply Forall_app; split); assumption).
  rewrite !(Clean_rooted_name _ Hall).
  rewrite Contains_rooted.
  rewrite (Join_rooted ts ds Hts Hds).
  rewrite app_assoc.
  rewrite Rel_below; [reflexivity | | exact Hls | exact Hne].
  apply Forall_app; split; assumption.
Qed.

(** X13.  Under a rooted target made of ordinary names, a relative
    link made of ordinary names, read from a symbolic link at a relative
    path made of ordinary names, is returned as it is: the link points
    below the directory of the symbolic link, the path relative to that
    directory is the link itself, and [os.Getwd] is not called. *)
Theorem cleanLinkName_relative_link (o : object) (ts ds ls : list string)
        (n : string) (w : world) :
  Forall (fun e => plain e = true) ts ->
  Forall (fun e => plain e = true) ds ->
  plain n = true ->
  Forall (fun e => plain e = true) ls ->
  ls <> [] ->
  readlink o = inr (strings.Join ls "/") ->
  fst (cleanLinkName fs o (rooted_name ts) (rel_name (ds ++ [n])) w)
  = Return (inr (strings.Join ls "/")).
Proof.
  intros Hts Hds Hn Hls Hne Hlink.
  pose proof (Dir_rel_name ds n Hds Hn) as Hdir.
  exact (cleanLinkName_in_directory o ts ds ls _ w Hts Hds Hls Hne Hdir Hlink).
Qed.

(** X14.  Under a rooted target made of ordinary names, a rooted link
    to a path below the target is returned as the path from the directory
    of the symbolic link to it: one [..] for every directory between the
    place where the two paths part and the symbolic link, then the rest of
    the link. *)
Theorem cleanLinkName_link_into_target (o : object)
        (ts cs ds ls : list string) (n : string) (w : world) :
  Forall (fun e => plain e = true) ts ->
  Forall (fun e => plain e = true) cs ->
  Forall (fun e => plain e = true) ds ->
  plain n = true ->
  Forall (fun e => plain e = true) ls ->
  hd_error ds <> hd_error ls ->
  readlink o = inr (rooted_name (ts ++ cs ++ ls)) ->
  fst (cleanLinkName fs o (rooted_name ts) (rel_name ((cs ++ ds) ++ [n])) w)
  = Return (inr (strings.Join (ups ds ++ ls) "/")).
Proof.
  intros Hts Hcs Hds Hn Hls Hhd Hlink.
  assert (Hdir : Forall (fun e => plain e = true) (cs ++ ds))
    by (apply Forall_app; split; assumption).
  assert (Hall : Forall (fun e => plain e = true) (ts ++ cs ++ ls))
    by (repeat (apply Forall_app; split); assumption).
  unfold cleanLinkName. run_monad. rewrite Hlink.
  rewrite (Dir_rel_name (cs ++ ds) n Hdir Hn).
  rewrite IsAbs_rooted_name. cbn [negb]. cbv iota beta.
  rewrite !(Clean_rooted_name _ Hall).
  rewrite Contains_rooted.
  rewrite (Join_rooted ts (cs ++ ds) Hts Hdir).
  rewrite !app_assoc.
  rewrite Rel_diverge; [reflexivity | | exact Hds | exact Hls | exact Hhd].
  apply Forall_app; split; assumption.
Qed.

End RootedTarget.

(** ** Symbolic links of a run under an unrooted target *)

Lemma walk_unrooted t n : forall fullName x,
  filepath.IsAbs fullName = false -> fullName <> "" ->
  In x (walk t fullName n) -> filepath.IsAbs (fst x) = false.
Proof.
  induction n as [o files IH] using fsnode_ind'. intros fullName x Hrel Hne Hin.
  simpl in Hin.
  destruct (shouldBeExcluded t fullName); [contradiction|].
  destruct Hin as [<- | Hin]; [exact Hrel|].
  destruct (os.IsDir (info o)); [|contradiction].
  apply in_flat_map in Hin as (c & Hc & Hin).
  rewrite List.Forall_forall in IH.
  eapply (IH c Hc (child_name fullName c)); [| |exact Hin].
  - unfold child_name. rewrite IsAbs_Join by exact Hne. exact Hrel.
  - unfold child_name, filepath.Join.
    destruct (String.eqb_spec fullName ""); [contradiction|].
    apply Clean_not_empty.
Qed.

Section RelativeTargetRun.

Context `{D : Decls}.
Variable fs : filesystem.

Hypothesis getwd_rooted :
  forall wd, getwd fs = inr wd -> filepath.IsAbs wd = true.

(** X12.  With a target directory that is not rooted, [cleanLinkName]
    never returns a relative link for a symbolic link at a relative path:
    it returns a rooted link (the path of the link target on the host) or
    an error.  So in a run whose target is not rooted no symbolic link is
    archived with a relative link name: the link name of every header
    written for a symbolic link is a rooted path. *)
Theorem Archive_relative_target_links (w : world) :
  filepath.IsAbs (target (tar_of w)) = false ->
  (forall o name w',
      filepath.IsAbs name = false ->
      exists r,
        fst (cleanLinkName fs o (target (tar_of w)) name w') = Return r /\
        match r with
        | inl _ => True
        | inr link => filepath.IsAbs link = true
        end) /\
  exists evs,
    trace (snd (Archive fs w)) = trace w ++ evs /\
    forall fullName o h,
      In (EvWriteHeader fullName o h) evs ->
      classify (info o) = KSymlink ->
      filepath.IsAbs (tar.Linkname h) = true.
Proof.
  intros Ht. split.
  { intros o name w' Hn. apply cleanLinkName_unrooted; assumption. }
  destruct (Archive_header_fields fs w) as (evs & Htr & Hf).
  exists evs. split; [exact Htr|].
  intros fullName o h Hin Hk.
  destruct (Hf _ _ _ Hin) as (Hwalk & h0 & _ & Hfields).
  rewrite Hk in Hfields. destruct Hfields as (_ & _ & Hlink & _).
  assert (Hrel : filepath.IsAbs fullName = false).
  { unfold walk_root in Hwalk. destruct (root fs) as [|n]; [contradiction|].
    apply (walk_unrooted _ _ "." (fullName, o)) in Hwalk;
      [exact Hwalk | reflexivity | discriminate]. }
  destruct (cleanLinkName_unrooted fs getwd_rooted o
              (target (tar_of w)) fullName w Ht Hrel) as (r & Hr & Hres).
  rewrite Hlink in Hr. injection Hr as <-. exact Hres.
Qed.

End RelativeTargetRun.

(** ** Relative links of a run under a rooted target *)

Lemma Dir_of_rel_name fs' :
  Forall (fun e => plain e = true) fs' ->
  exists ds,
    Forall (fun e => plain e = true) ds /\
    filepath.Dir (rel_name fs') = rel_name ds.
Proof.
  intros H. induction fs' as [|n ds _] using rev_ind.
  - exists []. split; [constructor | reflexivity].
  - apply Forall_app in H as [Hds Hn]. apply Forall_cons in Hn as [Hn _].
    exists ds. split; [exact Hds | apply Dir_rel_name; assumption].
Qed.

Section RootedTargetRun.

Context `{D : Decls}.
Variable fs : filesystem.

(** X20.  In a run under a rooted target made of ordinary names, on
    a tree whose listings hold ordinary names, every symbolic link whose
    link on disk is a relative path made of ordinary names is archived
    with that link as its link name, unchanged. *)
Theorem Archive_keeps_relative_links (w : world) (ts : list string)
        (n : fsnode) :
  target (tar_of w) = rooted_name ts ->
  Forall (fun e => plain e = true) ts ->
  root fs = inr n ->
  plain_tree n = true ->
  exists evs,
    trace (snd (Archive fs w)) = trace w ++ evs /\
    forall fullName o h ls,
      In (EvWriteHeader fullName o h) evs ->
      classify (info o) = KSymlink ->
      Forall (fun e => plain e = true) ls ->
      ls <> [] ->
      readlink o = inr (strings.Join ls "/") ->
      tar.Linkname h = strings.Join ls "/".
Proof.
  intros Htarget Hts Hroot Htree.
  destruct (Archive_header_fields fs w) as (evs & Htr & Hf).
  exists evs. split; [exact Htr|].
  intros fullName o h ls Hin Hk Hls Hne Hlink.
  destruct (Hf _ _ _ Hin) as (Hwalk & h0 & _ & Hfields).
  rewrite Hk in Hfields. destruct Hfields as (_ & _ & Hname & _).
  unfold walk_root in Hwalk. rewrite Hroot in Hwalk.
  destruct (walk_rel_names (tar_of w) n [] Htree (List.Forall_nil _) _ _ Hwalk)
    as (fs' & Hfs' & ->).
  destruct (Dir_of_rel_name fs' Hfs') as (ds & Hds & Hdir).
  pose proof (cleanLinkName_in_directory fs o ts ds ls (rel_name fs') w
                Hts Hds Hls Hne Hdir Hlink) as Hres.
  rewrite <- Htarget, Hname in Hres. injection Hres as ->. reflexivity.
Qed.

End RootedTargetRun.

(** ** How a run fails *)

Section Failures.

Context `{D : Decls}.
Variable fs : filesystem.

(** The visit of [o] at [fullName] can end in [r]: with the error of one
    of the calls made for [o], or with a panic for want of a
    [*syscall.Stat_t] or of the [FileInfo] of the device branch. *)
Definition failure_of (t : Tar) (fullName : string) (o : object)
           (r : result (option error)) : Prop :=
  match r with
  | Return None => False
  | Return (Some e) =>
    FileInfoHeader (info o) "" = inl e \/
    writeHeader o = Some e \/
    (classify (info o) = KDir /\ readDir o = Some e) \/
    (classify (info o) = KSymlink /\
     forall w, fst (cleanLinkName fs o (target t) fullName w) = Return (inl e)) \/
    (classify (info o) = KRegular /\
     (open o = Some e \/ snd (copy o) = Some e \/ flush o = Some e))
  | Panic =>
    os.Sys (info o) = None \/
    (classify (info o) = KDevice /\ exists e, stat o = inl e)
  end.

Lemma failure_of_target t t' fullName o r :
  target t = target t' -> failure_of t fullName o r -> failure_of t' fullName o r.
Proof. intros Ht. unfold failure_of. rewrite Ht. exact id. Qed.

Ltac failure_found :=
  first [ left; reflexivity
        | right; simpl; tauto
        | right; simpl; eauto 8 ].

Lemma visit_failure fullName o w :
  archive (tar_of w) <> None ->
  fst (visit fs fullName o w) = Return None \/
  failure_of (tar_of w) fullName o (fst (visit fs fullName o w)).
Proof.
  intros Harch.
  destruct (archive (tar_of w)) as [wr|] eqn:Hwr; [clear Harch|contradiction].
  unfold visit. cbn [processEntry]. rewrite bind_get_tar.
  destruct (shouldBeExcluded (tar_of w) fullName) eqn:Hex; [left; reflexivity|].
  destruct (FileInfoHeader (info o) "") as [e|h0] eqn:Hfih.
  { right. simpl. auto. }
  destruct (os.Sys (info o)) as [st|] eqn:Hsys.
  2:{ right. simpl. auto. }
  destruct (os.IsDir (info o)) eqn:Hdir.
  { pose proof (classify_dir _ Hdir) as Hk.
    unfold processDirectory_with. run_monad. rewrite ?Hwr.
    crush_matches; try congruence; failure_found. }
  destruct (Z.land (os.Mode (info o)) os.ModeSymlink =? os.ModeSymlink) eqn:Hsym.
  { pose proof (classify_symlink' _ Hdir Hsym) as Hk.
    destruct (cleanLinkName_run fs o (target (tar_of w)) fullName w)
      as (r & Hr & Hrun).
    rewrite bind_eq, Hrun.
    destruct r as [e|link].
    { right. simpl. auto 6. }
    run_monad. rewrite ?Hwr.
    crush_matches; try congruence; failure_found. }
  destruct (Z.land (os.Mode (info o)) os.ModeType =? 0) eqn:Hreg.
  { pose proof (classify_regular' _ Hdir Hsym Hreg) as Hk.
    unfold processRegular. run_monad. rewrite ?Hwr.
    crush_matches; try congruence; failure_found. }
  destruct ((Z.land (os.Mode (info o)) os.ModeDevice =? os.ModeDevice)
            || (Z.land (os.Mode (info o)) os.ModeCharDevice =? os.ModeCharDevice))
    eqn:Hdev.
  { pose proof (classify_device _ Hdir Hsym Hreg Hdev) as Hk.
    unfold processDevice. run_monad. rewrite ?Hwr.
    crush_matches; try congruence; failure_found. }
  destruct (Z.land (os.Mode (info o)) os.ModeSocket =? os.ModeSocket);
    left; reflexivity.
Qed.

Lemma visit_all_failure l : forall w,
  archive (tar_of w) <> None ->
  fst (visit_all fs l w) = Return None \/
  exists fullName o,
    In (fullName, o) l /\
    failure_of (tar_of w) fullName o (fst (visit_all fs l w)).
Proof.
  induction l as [|[fullName o] l IH]; intros w Harch; simpl.
  - left. reflexivity.
  - rewrite bind_eq.
    pose proof (visit_failure fullName o w Harch) as Hv.
    pose proof (framed_visit fs fullName o w) as (Hcfg & _).
    destruct (visit fs fullName o w) as [[[e|]|] w1]; simpl in *.
    1,3: right; exists fullName, o; split; [left; reflexivity|];
      destruct Hv as [Hv | Hv]; [discriminate | exact Hv].
    assert (Harch1 : archive (tar_of w1) <> None).
    { change (archive (config (tar_of w1)) <> None). rewrite Hcfg. exact Harch. }
    destruct (IH w1 Harch1) as [Hr | (fullName' & o' & Hin & Hf)]; [left; exact Hr|].
    right. exists fullName', o'. split; [right; exact Hin|].
    eapply failure_of_target; [|exact Hf].
    change (target (config (tar_of w1)) = target (config (tar_of w))).
    rewrite Hcfg. reflexivity.
Qed.

(** X15.  A run returns nil, or it fails for one of these reasons and
    no other: the compression mode is not [NONE] or [GZIP]; [os.Stat] of
    the target failed; or the visit of one object of the walk failed, with
    the error of [FileInfoHeader], [WriteHeader], [ioutil.ReadDir],
    [cleanLinkName], [os.Open], [io.Copy] or [Flush] for that object, or
    with a panic because the object has no [*syscall.Stat_t] or because
    [os.Stat] failed on a device. *)
Theorem Archive_failure_causes (w : world) :
  fst (Archive fs w) = Return None \/
  (exists format arg,
      fst (Archive fs w) = Return (Some (Errorf format arg)) /\
      Compression (tar_of w) <> NONE /\ Compression (tar_of w) <> GZIP) \/
  (exists e, root fs = inl e /\ fst (Archive fs w) = Return (Some e)) \/
  exists fullName o,
    In (fullName, o) (walk_root fs (tar_of w)) /\
    failure_of (tar_of w) fullName o (fst (Archive fs w)).
Proof.
  assert (Hwalk : forall wr pre ds,
    let w0 := mkWorld (walk_started w wr) (trace w ++ pre) ds in
    fst (Archive_walk fs w0) = Return None \/
    (exists e, root fs = inl e /\ fst (Archive_walk fs w0) = Return (Some e)) \/
    exists fullName o,
      In (fullName, o) (walk_root fs (tar_of w)) /\
      failure_of (tar_of w) fullName o (fst (Archive_walk fs w0))).
  { intros wr pre ds w0.
    assert (Hs : same_settings (walk_started w wr) (tar_of w))
      by (repeat split).
    unfold Archive_walk, walk_root. destruct (root fs) as [e|n].
    - right. left. exists e. split; reflexivity.
    - rewrite bind_eq, processEntry_walk.
      destruct (visit_all_failure (walk (tar_of w0) "." n) w0)
        as [Hr | (fullName & o & Hin & Hf)]; [discriminate | |].
      + left. destruct (visit_all fs _ w0) as [[[e|]|] w1];
          simpl in *; congruence.
      + right. right. exists fullName, o.
        change (tar_of w0) with (walk_started w wr) in Hin.
        rewrite (walk_settings n _ _ "." Hs) in Hin.
        split; [exact Hin|].
        apply (failure_of_target (tar_of w0)); [reflexivity|].
        destruct (visit_all fs _ w0) as [[[e|]|] w1]; simpl in *;
          [exact Hf | contradiction | exact Hf]. }
  destruct w as [t tr ds0].
  unfold Archive, Archive_body. rewrite !bind_eq. simpl.
  rewrite !bind_eq. simpl.
  destruct (Z.eqb_spec (Compression t) NONE) as [Hn|Hn];
    [|destruct (Z.eqb_spec (Compression t) GZIP) as [Hg|Hg]].
  - rewrite !bind_eq. simpl. rewrite !bind_eq. simpl.
    specialize (Hwalk OnDest [EvTarNewWriter OnDest] [DeferCloseArchive]).
    simpl in Hwalk. unfold walk_started in Hwalk. simpl in Hwalk.
    destruct (Archive_walk fs _) as [r w1]. simpl in *.
    destruct Hwalk as [H | [H | H]]; auto.
  - rewrite !bind_eq. simpl. rewrite !bind_eq. simpl.
    rewrite !bind_eq. simpl. rewrite !bind_eq. simpl.
    specialize (Hwalk OnGzip [EvGzipNewWriter; EvTarNewWriter OnGzip]
                      [DeferCloseArchive; DeferGzipClose]).
    simpl in Hwalk. unfold walk_started in Hwalk. simpl in Hwalk.
    rewrite <- app_assoc. simpl app.
    destruct (Archive_walk fs _) as [r w1]. simpl in *.
    destruct Hwalk as [H | [H | H]]; auto.
  - right. left.
    destruct (Compression t =? BZIP2); [|destruct (Compression t =? DETECT)];
      eexists; eexists; (split; [reflexivity | split; assumption]).
Qed.

End Failures.

(** ** An archiver as [NewTar] makes it *)

Section NewTarRun.

Context `{D : Decls}.
Variable fs : filesystem.

(** X16.  A run of an archiver as [NewTar] returns it, with no field
    changed, excludes nothing and has no virtual path: every header
    carries user 500 and group 500, the mode [FileInfoHeader] derived
    from the mode on disk, and the name [./] followed by the relative
    path of the object, with a final [/] for a directory; and no inode is
    in the hard-link table when the run starts. *)
Theorem NewTar_run (targetDir : string) (tr : list event)
        (ds : list deferred_call) :
  let w := mkWorld (NewTar targetDir) tr ds in
  (forall name, shouldBeExcluded (tar_of w) name = false) /\
  (forall i, hardLinks (tar_of w) !! i = None) /\
  exists evs,
    trace (snd (Archive fs w)) = tr ++ evs /\
    forall fullName o h,
      In (EvWriteHeader fullName o h) evs ->
      tar.Uid h = 500 /\ tar.Gid h = 500 /\
      (exists h0,
          FileInfoHeader (info o) "" = inr h0 /\ tar.Mode h = tar.Mode h0) /\
      tar.Name h = (if os.IsDir (info o) then "./" +:+ fullName +:+ "/"
                    else "./" +:+ fullName).
Proof.
  intros w. split; [reflexivity|]. split; [intros i; apply lookup_empty|].
  destruct (Archive_headers fs w) as (evs & Ht & Hf).
  exists evs. split; [exact Ht|].
  intros fullName o h Hin.
  rewrite List.Forall_forall in Hf. specialize (Hf _ Hin).
  destruct Hf as (_ & _ & h0 & st & Hfih & _ & Hname & Hmode & Hu & Hg & _).
  simpl in Hmode, Hu, Hg.
  split; [exact Hu|]. split; [exact Hg|].
  split; [exists h0; split; assumption|].
  rewrite Hname. unfold entryName. simpl.
  destruct (os.IsDir (info o)); [apply append_assoc | reflexivity].
Qed.

End NewTarRun.

(** ** The calls made for a regular file *)

Lemma classify_regular_inv f :
  classify f = KRegular ->
  os.IsDir f = false /\
  (Z.land (os.Mode f) os.ModeSymlink =? os.ModeSymlink) = false /\
  (Z.land (os.Mode f) os.ModeType =? 0) = true.
Proof.
  unfold classify.
  destruct (os.IsDir f); [discriminate|].
  destruct (Z.land (os.Mode f) os.ModeSymlink =? os.ModeSymlink); [discriminate|].
  destruct (Z.land (os.Mode f) os.ModeType =? 0); [auto|].
  destruct (_ || _); [discriminate|].
  destruct (_ =? _); discriminate.
Qed.

Section RegularFile.

Context `{D : Decls}.
Variable fs : filesystem.

(** X17.  The calls [processEntry] makes for a regular file are one of
    five sequences: none; the header alone; the header and an [os.Open]
    that failed; the header, [os.Open], [io.Copy] with an error, and
    [Close]; or the header, [os.Open], [io.Copy], [Flush] and [Close].  So
    a file that was opened is closed, once and as the last call, whether
    the copy and the flush succeeded or not, and the archive is flushed
    before the file is closed. *)
Theorem regular_file_calls (fullName : string) (o : object)
        (files : list fsnode) (w : world) :
  classify (info o) = KRegular ->
  let path := filepath.Join [target (tar_of w); fullName] in
  exists evs,
    trace (snd (processEntry fs fullName (Node o files) w)) = trace w ++ evs /\
    (evs = [] \/
     exists h,
       evs = [EvWriteHeader fullName o h] \/
       (evs = [EvWriteHeader fullName o h; EvOpen path] /\ open o <> None) \/
       (evs = [EvWriteHeader fullName o h; EvOpen path; EvCopy (fst (copy o));
               EvCloseFile path] /\
        open o = None /\ snd (copy o) <> None) \/
       (evs = [EvWriteHeader fullName o h; EvOpen path; EvCopy (fst (copy o));
               EvFlush; EvCloseFile path] /\
        open o = None /\ snd (copy o) = None)).
Proof.
  intros Hk path.
  destruct (classify_regular_inv _ Hk) as (Hdir & Hsym & Hreg).
  rewrite processEntry_node, Hdir, andb_false_r.
  assert (Hvisit : exists evs,
    trace (snd (visit fs fullName o w)) = trace w ++ evs /\
    (evs = [] \/
     exists h,
       evs = [EvWriteHeader fullName o h] \/
       (evs = [EvWriteHeader fullName o h; EvOpen path] /\ open o <> None) \/
       (evs = [EvWriteHeader fullName o h; EvOpen path; EvCopy (fst (copy o));
               EvCloseFile path] /\
        open o = None /\ snd (copy o) <> None) \/
       (evs = [EvWriteHeader fullName o h; EvOpen path; EvCopy (fst (copy o));
               EvFlush; EvCloseFile path] /\
        open o = None /\ snd (copy o) = None))).
  { subst path. unfold visit. cbn [processEntry]. rewrite bind_get_tar.
    destruct (shouldBeExcluded (tar_of w) fullName).
    { exists []. split; [trace_eq | left; reflexivity]. }
    destruct (FileInfoHeader (info o) "") as [e|h0].
    { exists []. split; [trace_eq | left; reflexivity]. }
    destruct (os.Sys (info o)) as [st|].
    2:{ exists []. split; [trace_eq | left; reflexivity]. }
    rewrite Hdir, Hsym, Hreg.
    unfold processRegular.
    destruct (archive (tar_of w)) as [wr|] eqn:Hwr;
      run_monad; rewrite ?Hwr;
      crush_matches; try congruence;
      (eexists; split; [trace_eq|]);
      first [ left; reflexivity
            | right; eexists; left; reflexivity
            | right; eexists; right; left;
              split; [reflexivity | congruence]
            | right; eexists; right; right; left;
              split; [reflexivity | split; congruence]
            | right; eexists; right; right; right;
              split; [reflexivity | split; congruence] ]. }
  destruct Hvisit as (evs & Ht & Hevs).
  exists evs. split; [|exact Hevs].
  destruct (visit fs fullName o w) as [[[e|]|] w1]; exact Ht.
Qed.

End RegularFile.

(** ** A run whose root is excluded *)

Section RootExcluded.

Context `{D : Decls}.
Variable fs : filesystem.

(** X18.  When the exclusion list excludes the root path [.], a run
    with [Compression = NONE] on an existing target returns nil and writes
    an archive without entries: its calls are the creation and the
    [Close] of the archive writer.  The pattern [*] excludes the root, and
    so does the pattern [.]. *)
Theorem Archive_root_excluded (w : world) (n : fsnode) :
  Compression (tar_of w) = NONE ->
  root fs = inr n ->
  shouldBeExcluded (tar_of w) "." = true ->
  fst (Archive fs w) = Return None /\
  trace (snd (Archive fs w)) = trace w ++ [EvTarNewWriter OnDest; EvTarClose] /\
  (forall t, shouldBeExcluded (ExcludePath t "*") "." = true) /\
  (forall t, shouldBeExcluded (ExcludePath t ".") "." = true).
Proof.
  intros Hc Hroot Hex.
  assert (Hpat : forall t p,
    fst (filepath.Match p ".") = true ->
    strings.HasPrefix p "/" = false ->
    shouldBeExcluded (ExcludePath t p) "." = true).
  { intros t p Hm Hp. unfold shouldBeExcluded, ExcludePath. cbn [ExcludedPaths].
    change filepath.SeparatorString with "/". rewrite Hp.
    apply shouldBeExcluded_loop_iff. exists p. split; [|left; exact Hm].
    apply in_or_app. right. left. reflexivity. }
  split; [|split; [|split]].
  3,4: intros t; apply Hpat; reflexivity.
  all: destruct w as [t tr ds]; simpl in Hc, Hex;
    unfold Archive, Archive_body; rewrite !bind_eq; simpl;
    rewrite !bind_eq; simpl;
    rewrite (proj2 (Z.eqb_eq (Compression t) NONE)) by exact Hc;
    rewrite !bind_eq; simpl; rewrite !bind_eq; simpl;
    unfold Archive_walk; rewrite Hroot, bind_eq;
    destruct n as [o files]; cbn [processEntry]; rewrite bind_get_tar;
    cbn [tar_of];
    change (shouldBeExcluded (mkTar (target t) (Some OnDest) (Compression t)
                                    (IncludePermissions t) (IncludeOwners t)
                                    (ExcludedPaths t) (VirtualPath t)
                                    (hardLinks t)) ".")
      with (shouldBeExcluded t ".");
    rewrite Hex; simpl.
  - reflexivity.
  - rewrite <- app_assoc. reflexivity.
Qed.

End RootExcluded.

(** ** Patterns made of a star and a literal *)

(** [name] is [lit] after bytes that are not separators. *)
Fixpoint after_plain (lit name : string) : bool :=
  String.eqb lit name ||
  match name with
  | String c name' => negb (filepath.IsPathSeparator c) && after_plain lit name'
  | EmptyString => false
  end.

Lemma after_plain_iff lit name :
  after_plain lit name = true <->
  exists pre, no_separator pre = true /\ name = pre +:+ lit.
Proof.
  induction name as [|c name IH].
  - simpl. rewrite orb_false_r, String.eqb_eq. split.
    + intros ->. exists "". auto.
    + intros (pre & _ & H). destruct pre; [exact (eq_sym H)|discriminate].
  - cbn [after_plain]. rewrite orb_true_iff, andb_true_iff, IH, String.eqb_eq.
    split.
    + intros [-> | [Hc (pre & Hp & ->)]].
      * exists "". auto.
      * exists (String c pre). simpl. rewrite Hc, Hp. auto.
    + intros (pre & Hp & H). destruct pre as [|d pre].
      * left. exact (eq_sym H).
      * right. change (String d pre +:+ lit) with (String d (pre +:+ lit)) in H.
        injection H as -> ->. simpl in Hp. apply andb_prop in Hp as [Hd Hp].
        split; [exact Hd|]. exists pre. auto.
Qed.

Lemma matchChunk_literal lit s :
  literal lit = true ->
  filepath.matchChunk lit s =
    match strip_prefix lit s with
    | Some t => (t, true, None)
    | None => ("", false, None)
    end.
Proof.
  intros H. unfold filepath.matchChunk.
  rewrite (matchChunk_loop_literal lit _ s H) by lia. reflexivity.
Qed.

Lemma after_plain_unfold lit name :
  after_plain lit name =
    String.eqb lit name ||
    match name with
    | String c name' => negb (filepath.IsPathSeparator c) && after_plain lit name'
    | EmptyString => false
    end.
Proof. destruct name; reflexivity. Qed.

Lemma star_loop_literal lit name :
  literal lit = true ->
  filepath.star_loop lit true name =
    if match name with
       | String c name' =>
         negb (filepath.IsPathSeparator c) && after_plain lit name'
       | EmptyString => false
       end
    then filepath.StarMatched "" else filepath.StarFailed.
Proof.
  intros H. induction name as [|c name IH]; [reflexivity|].
  cbn [filepath.star_loop].
  destruct (filepath.IsPathSeparator c); [reflexivity|]. cbn [negb andb].
  rewrite (matchChunk_literal lit name H), (after_plain_unfold lit name).
  pose proof (strip_prefix_eqb lit name) as Heq.
  destruct (strip_prefix lit name) as [rest|]; rewrite <- Heq.
  - cbn [andb].
    destruct (String.eqb rest "") eqn:Hrest; [|exact IH].
    apply String.eqb_eq in Hrest. rewrite Hrest. reflexivity.
  - exact IH.
Qed.

(** The pattern [*lit], for a literal [lit] that is not empty, matches
    the names that end in [lit] after bytes that are not separators. *)
Lemma Match_star_literal lit name :
  literal lit = true -> lit <> "" ->
  filepath.Match (String "*" lit) name = (after_plain lit name, None).
Proof.
  intros H Hne. destruct lit as [|c rest]; [contradiction|].
  unfold filepath.Match. cbn [filepath.Match_loop].
  change (String.eqb (String "*" (String c rest)) "") with false. cbv iota.
  assert (Hscan : filepath.scanChunk (String "*" (String c rest))
                  = (true, String c rest, "")).
  { unfold filepath.scanChunk.
    pose proof H as H'. simpl in H'. apply andb_prop in H' as [Hc _].
    destruct (literal_byte_tests c Hc) as (H1 & _).
    assert (Hs : filepath.skip_stars (String "*" (String c rest))
                 = (true, String c rest)).
    { simpl. rewrite H1. reflexivity. }
    rewrite Hs, (scan_literal _ false H). reflexivity. }
  rewrite Hscan.
  change (true && String.eqb (String c rest) "") with false. cbv iota.
  rewrite (matchChunk_literal _ name H).
  change (String.eqb "" "") with true.
  rewrite (star_loop_literal _ name H).
  pose proof (strip_prefix_eqb (String c rest) name) as Heq.
  rewrite (after_plain_unfold (String c rest) name), <- Heq.
  destruct (strip_prefix (String c rest) name) as [left|].
  - cbn [andb negb orb]. rewrite orb_false_r.
    destruct (String.eqb left "") eqn:Hleft.
    + apply String.eqb_eq in Hleft. rewrite Hleft. reflexivity.
    + match goal with
      | |- context [if ?b then filepath.StarMatched "" else _] => destruct b
      end; reflexivity.
  - cbn [andb].
    match goal with
    | |- context [if ?b then filepath.StarMatched "" else _] => destruct b
    end; reflexivity.
Qed.

(** X19.  After [ExcludePath] of a star followed by a literal that is
    not empty (as in [*.tmp]), a path is excluded exactly when it was
    excluded before or when the path or its last element is the literal
    after bytes that are not separators: the star matches within one
    path element only. *)
Theorem ExcludePath_suffix_pattern (t : Tar) (lit name : string) :
  literal lit = true -> lit <> "" ->
  shouldBeExcluded (ExcludePath t ("*" +:+ lit)) name = true <->
  shouldBeExcluded t name = true \/
  exists pre,
    no_separator pre = true /\
    (name = pre +:+ lit \/ filepath.Base name = pre +:+ lit).
Proof.
  intros H Hne.
  unfold shouldBeExcluded, ExcludePath. cbn [ExcludedPaths].
  change ("*" +:+ lit) with (String "*" lit).
  change (strings.HasPrefix (String "*" lit) filepath.SeparatorString) with false.
  cbv iota. rewrite shouldBeExcluded_loop_app, orb_true_iff.
  cbn [shouldBeExcluded_loop].
  rewrite !(Match_star_literal lit _ H Hne). cbn [fst].
  assert (Hpat :
    (if after_plain lit name then true
     else if after_plain lit (filepath.Base name) then true else false) = true <->
    exists pre,
      no_separator pre = true /\
      (name = pre +:+ lit \/ filepath.Base name = pre +:+ lit)).
  { destruct (after_plain lit name) eqn:H1.
    - apply after_plain_iff in H1 as (pre & Hp & Hn).
      split; [intros _; exists pre; auto | reflexivity].
    - destruct (after_plain lit (filepath.Base name)) eqn:H2.
      + apply after_plain_iff in H2 as (pre & Hp & Hn).
        split; [intros _; exists pre; auto | reflexivity].
      + split; [discriminate|].
        intros (pre & Hp & [Hn | Hn]).
        * assert (after_plain lit name = true)
            by (apply after_plain_iff; eauto). congruence.
        * assert (after_plain lit (filepath.Base name) = true)
            by (apply after_plain_iff; eauto). congruence. }
  rewrite Hpat. reflexivity.
Qed.

(** ** The further properties on sample trees *)

Lemma sample_getwd_rooted n wd :
  getwd (sample.fs_of n) = inr wd -> filepath.IsAbs wd = true.
Proof. intros H. injection H as <-. reflexivity. Defined.

Lemma Archive_success_entries_witness :
  exists evs,
    trace (snd (sample.run (sample.tar_for "/tmp/build" 0 [] "") sample.tree_a))
    = trace (sample.start (sample.tar_for "/tmp/build" 0 [] "")) ++ evs /\
    List.map entry_of (entries evs) =
      List.filter (fun x => archivable (info (snd x)))
                  (walk_root (sample.fs_of sample.tree_a)
                             (sample.tar_for "/tmp/build" 0 [] "")) /\
    Forall (fun e => e_data e = @entry_data sample.decls (e_object e) (e_header e))
           (entries evs).
Proof.
  apply (@Archive_success_entries sample.decls (sample.fs_of sample.tree_a)
           (sample.start (sample.tar_for "/tmp/build" 0 [] ""))).
  vm_compute. reflexivity.
Defined.

Lemma Archive_without_compression_witness :
  exists evs,
    trace (snd (sample.run (sample.tar_for "/tmp/build" 0 [] "") sample.tree_a))
    = trace (sample.start (sample.tar_for "/tmp/build" 0 [] ""))
      ++ [EvTarNewWriter OnDest] ++ evs ++ [EvTarClose] /\
    Forall (fun e => writer_call e = false) evs /\
    (forall e, root (sample.fs_of sample.tree_a) = inl e ->
               evs = [] /\
               fst (sample.run (sample.tar_for "/tmp/build" 0 [] "")
                               sample.tree_a) = Return (Some e)).
Proof.
  apply (@Archive_without_compression sample.decls (sample.fs_of sample.tree_a)
           (sample.start (sample.tar_for "/tmp/build" 0 [] ""))).
  reflexivity.
Defined.

(** An archiver whose table holds the inode 9 under the name [./x], as
    a first run on [sample.tree_links] leaves it. *)
Definition tar_after_run : Tar :=
  mkTar "/a" None 0 true false [] "" (<[9 := "./x"]> ∅).

Lemma Archive_known_inode_witness :
  exists evs,
    trace (snd (sample.run tar_after_run sample.tree_links))
    = trace (sample.start tar_after_run) ++ evs /\
    hardLinks (tar_of (snd (sample.run tar_after_run sample.tree_links))) !! 9
    = Some "./x" /\
    Forall (fun e =>
              tar.Typeflag (e_header e) = @TypeLink sample.decls /\
              tar.Size (e_header e) = 0 /\
              tar.Linkname (e_header e) = "./x" /\
              e_data e = [])
           (List.filter (hard_linked 9) (entries evs)).
Proof.
  apply (@Archive_known_inode sample.decls (sample.fs_of sample.tree_links)
           sample_TypeReg_TypeLink (sample.start tar_after_run) 9 "./x").
  vm_compute. reflexivity.
Defined.

Lemma Archive_exclusion_set_witness :
  fst (sample.run (sample.tar_for "/a" 0 ["u"; "d"] "") sample.tree_links)
  = fst (sample.run (sample.tar_for "/a" 0 ["d"; "u"; "d"] "") sample.tree_links) /\
  trace (snd (sample.run (sample.tar_for "/a" 0 ["u"; "d"] "") sample.tree_links))
  = trace (snd (sample.run (sample.tar_for "/a" 0 ["d"; "u"; "d"] "")
                           sample.tree_links)) /\
  hardLinks (tar_of (snd (sample.run (sample.tar_for "/a" 0 ["u"; "d"] "")
                                     sample.tree_links)))
  = hardLinks (tar_of (snd (sample.run (sample.tar_for "/a" 0 ["d"; "u"; "d"] "")
                                       sample.tree_links))).
Proof.
  apply (@Archive_exclusion_set sample.decls (sample.fs_of sample.tree_links)
           (sample.start (sample.tar_for "/a" 0 ["u"; "d"] ""))
           ["d"; "u"; "d"]).
  intros p. simpl. tauto.
Defined.

(** A tree with a relative and a rooted symbolic link. *)
Definition tree_symlinks : fsnode :=
  sample.dir "build" 1
    [sample.dir "a" 2 [sample.symlink "l" 3 "../b/f"];
     sample.symlink "m" 4 "/etc/hosts"].

Lemma Archive_relative_target_links_witness :
  (forall o name w',
      filepath.IsAbs name = false ->
      exists r,
        fst (cleanLinkName (sample.fs_of tree_symlinks) o
               "build" name w') = Return r /\
        match r with
        | inl _ => True
        | inr link => filepath.IsAbs link = true
        end) /\
  exists evs,
    trace (snd (sample.run (sample.tar_for "build" 0 [] "") tree_symlinks))
    = trace (sample.start (sample.tar_for "build" 0 [] "")) ++ evs /\
    forall fullName o h,
      In (EvWriteHeader fullName o h) evs ->
      classify (info o) = KSymlink ->
      filepath.IsAbs (tar.Linkname h) = true.
Proof.
  apply (@Archive_relative_target_links sample.decls
           (sample.fs_of tree_symlinks) (sample_getwd_rooted tree_symlinks)
           (sample.start (sample.tar_for "build" 0 [] ""))).
  reflexivity.
Defined.

Lemma cleanLinkName_relative_link_witness :
  fst (cleanLinkName (sample.fs_of sample.tree_a)
         (node_object (sample.symlink "link" 4 "sub/f.txt"))
         "/tmp/build" "a/link"
         (sample.start (sample.tar_for "/tmp/build" 0 [] "")))
  = Return (inr "sub/f.txt").
Proof.
  apply (cleanLinkName_relative_link (sample.fs_of sample.tree_a)
           (node_object (sample.symlink "link" 4 "sub/f.txt"))
           ["tmp"; "build"] ["a"] ["sub"; "f.txt"] "link"
           (sample.start (sample.tar_for "/tmp/build" 0 [] "")));
    try (repeat constructor); try reflexivity; discriminate.
Defined.

Lemma cleanLinkName_link_into_target_witness :
  fst (cleanLinkName (sample.fs_of sample.tree_a)
         (node_object (sample.symlink "link" 4 "/tmp/build/b/f.txt"))
         "/tmp/build" "a/link"
         (sample.start (sample.tar_for "/tmp/build" 0 [] "")))
  = Return (inr "../b/f.txt").
Proof.
  apply (cleanLinkName_link_into_target
           (sample.fs_of sample.tree_a)
           (node_object (sample.symlink "link" 4 "/tmp/build/b/f.txt"))
           ["tmp"; "build"] [] ["a"] ["b"; "f.txt"] "link"
           (sample.start (sample.tar_for "/tmp/build" 0 [] "")));
    try (repeat constructor); try reflexivity; discriminate.
Defined.

(** A file on which [io.Copy] fails after three bytes. *)
Definition file_cut : object :=
  mkObject (os.mkFileInfo "f" 9 384 0 (Some (sample.stat_of 3 1)))
           None (inr "") None ("abc", Some (SysError "read f: input/output error"))
           (inl (SysError "stat f")) None None.

Lemma regular_file_calls_witness :
  exists evs,
    trace (snd (@processEntry sample.decls (sample.fs_of sample.tree_a) "f"
                  (Node file_cut [])
                  (mkWorld (mkTar "/a" (Some OnDest) 0 true false [] "" ∅) [] [])))
    = [] ++ evs /\
    (evs = [] \/
     exists h,
       evs = [EvWriteHeader "f" file_cut h] \/
       (evs = [EvWriteHeader "f" file_cut h; EvOpen "/a/f"] /\
        open file_cut <> None) \/
       (evs = [EvWriteHeader "f" file_cut h; EvOpen "/a/f";
               EvCopy (fst (copy file_cut)); EvCloseFile "/a/f"] /\
        open file_cut = None /\ snd (copy file_cut) <> None) \/
       (evs = [EvWriteHeader "f" file_cut h; EvOpen "/a/f";
               EvCopy (fst (copy file_cut)); EvFlush; EvCloseFile "/a/f"] /\
        open file_cut = None /\ snd (copy file_cut) = None)).
Proof.
  apply (@regular_file_calls sample.decls (sample.fs_of sample.tree_a) "f"
           file_cut []
           (mkWorld (mkTar "/a" (Some OnDest) 0 true false [] "" ∅) [] [])).
  reflexivity.
Defined.

Lemma Archive_root_excluded_witness :
  fst (sample.run (sample.tar_for "/tmp/build" 0 ["*"] "") sample.tree_a)
  = Return None /\
  trace (snd (sample.run (sample.tar_for "/tmp/build" 0 ["*"] "") sample.tree_a))
  = trace (sample.start (sample.tar_for "/tmp/build" 0 ["*"] ""))
    ++ [EvTarNewWriter OnDest; EvTarClose] /\
  (forall t, shouldBeExcluded (ExcludePath t "*") "." = true) /\
  (forall t, shouldBeExcluded (ExcludePath t ".") "." = true).
Proof.
  apply (@Archive_root_excluded sample.decls (sample.fs_of sample.tree_a)
           (sample.start (sample.tar_for "/tmp/build" 0 ["*"] ""))
           sample.tree_a); reflexivity.
Defined.

Lemma ExcludePath_suffix_pattern_witness :
  shouldBeExcluded (ExcludePath (sample.tar_for "/a" 0 [] "") "*.tmp") "d/x.tmp"
  = true <->
  shouldBeExcluded (sample.tar_for "/a" 0 [] "") "d/x.tmp" = true \/
  exists pre,
    no_separator pre = true /\
    ("d/x.tmp" = pre +:+ ".tmp" \/ filepath.Base "d/x.tmp" = pre +:+ ".tmp").
Proof.
  apply (ExcludePath_suffix_pattern (sample.tar_for "/a" 0 [] "") ".tmp" "d/x.tmp").
  - reflexivity.
  - discriminate.
Defined.

Lemma Archive_keeps_relative_links_witness :
  exists evs,
    trace (snd (sample.run (sample.tar_for "/tmp/build" 0 [] "") sample.tree_a))
    = trace (sample.start (sample.tar_for "/tmp/build" 0 [] "")) ++ evs /\
    forall fullName o h ls,
      In (EvWriteHeader fullName o h) evs ->
      classify (info o) = KSymlink ->
      Forall (fun e => plain e = true) ls ->
      ls <> [] ->
      readlink o = inr (strings.Join ls "/") ->
      tar.Linkname h = strings.Join ls "/".
Proof.
  apply (@Archive_keeps_relative_links sample.decls
           (sample.fs_of sample.tree_a)
           (sample.start (sample.tar_for "/tmp/build" 0 [] ""))
           ["tmp"; "build"] sample.tree_a).
  - reflexivity.
  - repeat constructor.
  - reflexivity.
  - reflexivity.
Defined.
